(** * Harp string detection: the hybrid onset-to-string pipeline

    A shallow embedding of [backend/inference.py]: the hold-time onset
    filter, per-string thresholding, the confidence-gated YIN fallback and
    the CSV / JSON / SRT emitters of [run_pipeline].

    Python floats and [np.float64] are IEEE binary64, the classifier's
    probabilities and the [np.float32] arrays are binary32.  Both are
    modelled by [spec_float] (sign, mantissa, exponent) with the
    operations of [SpecFloat], round-to-nearest-even, executable inside
    Rocq.  The external services (onset detector, feature extraction,
    classifier, YIN pitch tracker, median) are parameters of the model. *)

From Stdlib Require Import ZArith List Bool String Ascii Lia.
From Stdlib Require Import SpecFloat DecimalString DecimalZ.
Import ListNotations.
Open Scope Z_scope.

(** ** IEEE floats *)

Module F64.
Definition prec := 53.
Definition emax := 1024.
Definition valid := valid_binary prec emax.
Definition add := SFadd prec emax.
Definition sub := SFsub prec emax.
Definition mul := SFmul prec emax.
Definition div := SFdiv prec emax.
Definition ltb := SFltb.
Definition leb := SFleb.
(** [x >= y] and [x > y] as Python evaluates them: false on NaN. *)
Definition geb (x y : spec_float) := SFleb y x.
Definition gtb (x y : spec_float) := SFltb y x.
Definition of_Z (z : Z) := binary_normalize prec emax z 0 false.
(** The float a decimal literal [n/d] denotes (correctly rounded
    quotient of two exactly representable integers). *)
Definition lit (n d : Z) := div (of_Z n) (of_Z d).
End F64.

Module F32.
Definition prec := 24.
Definition emax := 128.
Definition valid := valid_binary prec emax.
Definition sub := SFsub prec emax.
Definition abs := SFabs.
Definition ltb := SFltb.
Definition leb := SFleb.
Definition geb (x y : spec_float) := SFleb y x.
(** Conversion of a binary64 value to [np.float32]. *)
Definition of_f64 (x : spec_float) : spec_float :=
  match x with
  | S754_finite s m e =>
      binary_normalize prec emax (cond_Zopp s (Zpos m)) e s
  | _ => x
  end.
Definition lit (n d : Z) := of_f64 (F64.lit n d).
(** [float(x)] of an [np.float32]: the same number, renormalised to the
    53-bit mantissa (always exact). *)
Definition to_f64 (x : spec_float) : spec_float :=
  match x with
  | S754_finite s m e =>
      binary_normalize F64.prec F64.emax (cond_Zopp s (Zpos m)) e s
  | _ => x
  end.
End F32.

Definition is_nan (x : spec_float) : bool :=
  match x with S754_nan => true | _ => false end.

Definition is_finite (x : spec_float) : bool :=
  match x with S754_finite _ _ _ | S754_zero _ => true | _ => false end.

(** An order embedding of the non-NaN floats of a format into [Z]: the
    value scaled by [2 ^ (- emin)], infinities beyond every finite
    value.  Used to reason about [SFcompare]. *)
Definition float_ord (prec emax : Z) (x : spec_float) : Z :=
  match x with
  | S754_zero _ => 0
  | S754_nan => 0
  | S754_infinity s => cond_Zopp s (2 ^ (emax - emin prec emax))
  | S754_finite s m e => cond_Zopp s (Zpos m * 2 ^ (e - emin prec emax))
  end.

(** ** Module constants of [inference.py] *)

Definition NUM_STRINGS : Z := 16.
Definition SAMPLE_RATE : Z := 16000.
Definition CLIP_SEC := F64.lit 8 10.

Definition THR_DEFAULT := F64.lit 25 100.
Definition MODEL_CONF_MIN := F64.lit 20 100.
Definition YIN_WIN_SEC := F64.lit 15 100.
Definition OFFSET_SEC := F64.lit 3 100.
Definition HOLD_SEC := F64.lit 18 100.
Definition FLASH_DURATION := F64.lit 25 100.

(** Per-string thresholds: [np.full(16, 0.25, float32)], and the hybrid
    array with [THR_ARRAY[11] = 0.03] (string 12). *)
Definition thr_default : list spec_float :=
  repeat (F32.of_f64 THR_DEFAULT) (Z.to_nat NUM_STRINGS).

Fixpoint list_set {A} (l : list A) (i : nat) (v : A) : list A :=
  match l, i with
  | [], _ => []
  | _ :: r, O => v :: r
  | x :: r, S j => x :: list_set r j v
  end.

Definition THR_ARRAY : list spec_float :=
  list_set (repeat (F32.lit 25 100) (Z.to_nat NUM_STRINGS)) 11 (F32.lit 3 100).

(** [HARP_STRINGS], frequencies in hundredths of a hertz, keys 1..16 in
    order, and [FREQS], the same table as a float32 array. *)
Definition HARP_STRINGS : list (Z * Z) :=
  [ (1, 78399); (2, 65925); (3, 58733); (4, 52325); (5, 44000); (6, 39200);
    (7, 32963); (8, 29366); (9, 26163); (10, 22000); (11, 19600); (12, 16481);
    (13, 14683); (14, 13081); (15, 11000); (16, 9800) ].

Definition FREQS : list spec_float :=
  map (fun kv => F32.lit (snd kv) 100) HARP_STRINGS.

(** ** Python and numpy helpers *)

(** [int(x)] of a float: truncation toward zero; raises on NaN and
    infinities ([None]). *)
Definition py_int (x : spec_float) : option Z :=
  match x with
  | S754_zero _ => Some 0
  | S754_finite s m e =>
      Some (cond_Zopp s (if 0 <=? e then Zpos m * 2 ^ e
                         else Zpos m / 2 ^ (- e)))
  | _ => None
  end.

(** [round(x)] with one argument: nearest integer, ties to even. *)
Definition py_round (x : spec_float) : option Z :=
  match x with
  | S754_zero _ => Some 0
  | S754_finite s m e =>
      if 0 <=? e then Some (cond_Zopp s (Zpos m * 2 ^ e))
      else
        let d := 2 ^ (- e) in
        let q := Zpos m / d in
        let r := Zpos m mod d in
        let up := match 2 * r ?= d with
                  | Lt => false
                  | Gt => true
                  | Eq => Z.odd q
                  end in
        Some (cond_Zopp s (if up then q + 1 else q))
  | _ => None
  end.

(** [max(a, b)] of Python: [b] only when [b > a]. *)
Definition py_max_f (a b : spec_float) : spec_float :=
  if F64.gtb b a then b else a.

(** [l[a:b]] with Python's treatment of negative and out-of-range
    bounds. *)
Definition slice_bound (n i : Z) : Z :=
  if i <? 0 then Z.max 0 (i + n) else Z.min i n.

Definition py_slice {A} (l : list A) (a b : Z) : list A :=
  let n := Z.of_nat (List.length l) in
  let a' := slice_bound n a in
  let b' := slice_bound n b in
  firstn (Z.to_nat (b' - a')) (skipn (Z.to_nat a') l).

(** [np.argmax], [np.max], [np.argmin] on a float vector: the first
    extremum wins and a NaN, once met, is the result. *)
Fixpoint argext_from (better : spec_float -> spec_float -> bool)
    (best_i : Z) (best : spec_float) (i : Z) (l : list spec_float) : Z * spec_float :=
  match l with
  | [] => (best_i, best)
  | x :: r =>
      if is_nan best then (best_i, best)
      else if is_nan x || better x best then argext_from better i x (i + 1) r
      else argext_from better best_i best (i + 1) r
  end.

Definition np_argmax (l : list spec_float) : option Z :=
  match l with
  | [] => None
  | x :: r => Some (fst (argext_from (fun a b => SFltb b a) 0 x 1 r))
  end.

Definition np_max (l : list spec_float) : option spec_float :=
  match l with
  | [] => None
  | x :: r => Some (snd (argext_from (fun a b => SFltb b a) 0 x 1 r))
  end.

Definition np_argmin (l : list spec_float) : option Z :=
  match l with
  | [] => None
  | x :: r => Some (fst (argext_from (fun a b => SFltb a b) 0 x 1 r))
  end.

(** Exceptions are modelled by [option]: [None] is a raised exception. *)
Notation "x <- e ;; k" :=
  (match e with Some x => k | None => None end)
  (at level 61, e at next level, right associativity).

(** *** Float [%], [//] and [math.floor] (CPython's [float_rem] and
    [float_divmod], for a finite non-zero divisor) *)

Definition sign_bit (x : spec_float) : bool :=
  match x with
  | S754_zero s | S754_infinity s | S754_finite s _ _ => s
  | S754_nan => false
  end.

Definition is_zero (x : spec_float) : bool :=
  match x with S754_zero _ => true | _ => false end.

Definition c_fmod (x w : spec_float) : spec_float :=
  match w with
  | S754_nan | S754_zero _ => S754_nan
  | S754_infinity _ =>
      match x with
      | S754_nan | S754_infinity _ => S754_nan
      | _ => x
      end
  | S754_finite _ mw ew =>
      match x with
      | S754_nan | S754_infinity _ => S754_nan
      | S754_zero _ => x
      | S754_finite sx mx ex =>
          let ez := Z.min ex ew in
          let X := Zpos (fst (shl_align mx ex ez)) in
          let W := Zpos (fst (shl_align mw ew ez)) in
          binary_normalize F64.prec F64.emax (cond_Zopp sx (X mod W)) ez sx
      end
  end.

Definition c_floor (x : spec_float) : spec_float :=
  match x with
  | S754_finite s m e =>
      if 0 <=? e then x
      else binary_normalize F64.prec F64.emax
             (cond_Zopp s (Zpos m) / 2 ^ (- e)) 0 s
  | _ => x
  end.

Definition f64_zero := S754_zero false.

Definition py_float_mod (x w : spec_float) : spec_float :=
  let m := c_fmod x w in
  if is_zero m then S754_zero (sign_bit w)
  else if xorb (F64.ltb w f64_zero) (F64.ltb m f64_zero) then F64.add m w
  else m.

Definition py_float_floordiv (x w : spec_float) : spec_float :=
  let m := c_fmod x w in
  let div := F64.div (F64.sub x m) w in
  let div :=
    if negb (is_zero m) && xorb (F64.ltb w f64_zero) (F64.ltb m f64_zero)
    then F64.sub div (F64.of_Z 1) else div in
  if is_zero div then S754_zero (sign_bit (F64.div x w))
  else
    let fl := c_floor div in
    if F64.gtb (F64.sub div fl) (F64.lit 5 10)
    then F64.add fl (F64.of_Z 1) else fl.

(** *** Strings *)

Open Scope string_scope.
Open Scope Z_scope.

(** [str(n)] and [int(s)] for integers in decimal. *)
Definition str_of_Z (z : Z) : string := NilZero.string_of_int (Z.to_int z).

Definition int_of_str (s : string) : option Z :=
  option_map Z.of_int (NilZero.int_of_string s).

(** [s.split(c)] for a one-character separator. *)
Fixpoint split_on (c : ascii) (s : string) : list string :=
  match s with
  | EmptyString => [EmptyString]
  | String a s' =>
      if Ascii.eqb a c then EmptyString :: split_on c s'
      else match split_on c s' with
           | [] => [String a EmptyString]
           | w :: ws => String a w :: ws
           end
  end.

Fixpoint string_rep (n : nat) (c : ascii) : string :=
  match n with
  | O => EmptyString
  | S k => String c (string_rep k c)
  end.

Definition zfill (w : nat) (s : string) : string :=
  string_rep (w - String.length s) "0" ++ s.

(** The format spec [0{w}d]: sign-aware zero padding to width [w]. *)
Definition fmt_0d (w : nat) (z : Z) : string :=
  if z <? 0 then "-" ++ zfill (w - 1) (str_of_Z (- z))
  else zfill w (str_of_Z z).

(** The format spec [.2f]: the exact value rounded to two decimals, ties
    to even. *)
Definition fmt_2f (x : spec_float) : string :=
  match x with
  | S754_nan => "nan"
  | S754_infinity s => if s then "-inf" else "inf"
  | S754_zero s => if s then "-0.00" else "0.00"
  | S754_finite s m e =>
      let n :=
        if 0 <=? e then 100 * Zpos m * 2 ^ e
        else
          let d := 2 ^ (- e) in
          let q := (100 * Zpos m) / d in
          let r := (100 * Zpos m) mod d in
          match 2 * r ?= d with
          | Lt => q
          | Gt => q + 1
          | Eq => if Z.odd q then q + 1 else q
          end in
      (if s then "-" else "") ++ str_of_Z (n / 100) ++ "." ++ fmt_0d 2 (n mod 100)
  end.

Definition upper_ascii (c : ascii) : ascii :=
  let n := nat_of_ascii c in
  if ((97 <=? n) && (n <=? 122))%nat then ascii_of_nat (n - 32) else c.

Fixpoint upper (s : string) : string :=
  match s with
  | EmptyString => EmptyString
  | String c r => String (upper_ascii c) (upper r)
  end.

Definition is_space (c : ascii) : bool :=
  let n := nat_of_ascii c in
  ((n =? 32) || ((9 <=? n) && (n <=? 13)))%nat.

Fixpoint lstrip (s : string) : string :=
  match s with
  | String c r => if is_space c then lstrip r else s
  | EmptyString => EmptyString
  end.

Definition rev_string (s : string) : string :=
  string_of_list_ascii (rev (list_ascii_of_string s)).

Definition strip (s : string) : string :=
  rev_string (lstrip (rev_string (lstrip s))).

(** ** [srt_time] *)

Definition srt_time (t : spec_float) : option string :=
  h <- py_int (py_float_floordiv t (F64.of_Z 3600)) ;;
  m <- py_int (py_float_floordiv (py_float_mod t (F64.of_Z 3600)) (F64.of_Z 60)) ;;
  s <- py_int (py_float_mod t (F64.of_Z 60)) ;;
  it <- py_int t ;;
  ms <- py_round (F64.mul (F64.sub t (F64.of_Z it)) (F64.of_Z 1000)) ;;
  Some (fmt_0d 2 h ++ ":" ++ fmt_0d 2 m ++ ":" ++ fmt_0d 2 s ++ "," ++ fmt_0d 3 ms).

(** ** Rows: the per-onset dicts of [run_pipeline] *)

Inductive value :=
| VFloat (x : spec_float)
| VInt (n : Z)
| VStr (s : string).

(** A dict with its insertion order. *)
Definition row := list (string * value).

Fixpoint row_get (k : string) (r : row) : option value :=
  match r with
  | [] => None
  | (k', v) :: r' => if String.eqb k k' then Some v else row_get k r'
  end.

Definition range (n : Z) : list Z := map Z.of_nat (seq 0 (Z.to_nat n)).

Definition len {A} (l : list A) : Z := Z.of_nat (List.length l).

(** [float(v)] for the values a row holds. *)
Definition py_float (v : value) : option spec_float :=
  match v with
  | VFloat x => Some x
  | VInt n => Some (F64.of_Z n)
  | VStr _ => None
  end.

Fixpoint mapM {A B} (f : A -> option B) (l : list A) : option (list B) :=
  match l with
  | [] => Some []
  | x :: r => y <- f x ;; ys <- mapM f r ;; Some (y :: ys)
  end.

(** ** The onset filter (hold time) *)

(** One iteration of the loop over the raw onsets, on the pair
    [(accepted, last_t)], and the loop from [last_t = -1e9]. *)
Definition hold_step (st : list spec_float * spec_float) (t : spec_float)
  : list spec_float * spec_float :=
  let (accepted, last_t) := st in
  if F64.geb (F64.sub t last_t) HOLD_SEC then ((accepted ++ [t])%list, t)
  else st.

Definition accept_onsets (onsets : list spec_float) : list spec_float :=
  fst (fold_left hold_step onsets ([], F64.of_Z (-1000000000))).

(** ** Thresholding *)

Definition thresholds (use_yin_fallback : bool) : list spec_float :=
  if use_yin_fallback then THR_ARRAY else thr_default.

(** [(probs >= thr).astype(int)] *)
Definition threshold_pred (probs thr : list spec_float) : list Z :=
  map (fun pt => if F32.geb (fst pt) (snd pt) then 1 else 0) (combine probs thr).

(** [np.where(pred == 1)[0] + 1] *)
Definition where_active (pred : list Z) : list Z :=
  map (fun ip => fst ip + 1)
    (filter (fun ip => snd ip =? 1) (combine (range (len pred)) pred)).

(** ** External services

    The spectral feature extraction, the Keras model, [librosa.yin] and
    [np.median] are outside the pipeline's own logic; the model is
    parametric in them. *)

Class Services := {
  mel : Type;
  vec : Type;
  clip_to_mel_and_vec : list spec_float -> Z -> mel * vec;
  predict : list mel -> list vec -> list (list spec_float);
  yin : list spec_float -> Z -> list spec_float;
  median : list spec_float -> spec_float
}.

Section Pipeline.
Context {Svc : Services}.

(** ** [yin_string_from_segment] *)

(** [int(np.argmin(np.abs(FREQS - pitch))) + 1]; the float32 array
    makes the subtraction a float32 one. *)
Definition freq_dists (pitch : spec_float) : list spec_float :=
  map (fun f => F32.abs (F32.sub f (F32.of_f64 pitch))) FREQS.

Definition nearest_string (pitch : spec_float) : option Z :=
  k <- np_argmin (freq_dists pitch) ;; Some (k + 1).

(** The outer [option] is an exception, the inner one Python's
    [(None, None)]. *)
Definition yin_string_from_segment (seg : list spec_float) (sr : Z)
  : option (option (Z * spec_float)) :=
  let f0 := yin seg sr in
  let f0 := filter is_finite f0 in
  let f0 := filter (fun x => F64.gtb x f64_zero) f0 in
  if len f0 =? 0 then Some None
  else
    let pitch := median f0 in
    string <- nearest_string pitch ;;
    Some (Some (string, pitch)).

(** ** First pass: features and fallback segments *)

Definition CLIP_SAMPLES : Z :=
  match py_int (F64.mul (F64.of_Z SAMPLE_RATE) CLIP_SEC) with
  | Some n => n
  | None => 0
  end.

Record batches := {
  mel_batch : list mel;
  vec_batch : list vec;
  valid_onsets : list spec_float;
  fallback_segments : list (list spec_float)
}.

Definition yin_segment (y : list spec_float) (sr : Z) (t : spec_float)
  : option (list spec_float) :=
  seg_end <- py_int (F64.mul (F64.add t YIN_WIN_SEC) (F64.of_Z sr)) ;;
  seg_start <- py_int (F64.mul t (F64.of_Z sr)) ;;
  Some (py_slice y seg_start seg_end).

Definition classifier_clip (y : list spec_float) (sr : Z) (t : spec_float)
  : option (list spec_float) :=
  start <- py_int (F64.mul (F64.add t OFFSET_SEC) (F64.of_Z sr)) ;;
  let start := Z.max 0 start in
  Some (py_slice y start (start + CLIP_SAMPLES)).

Definition collect_step (use_yin_fallback : bool) (y : list spec_float)
    (sr : Z) (b : batches) (t : spec_float) : option batches :=
  clip <- classifier_clip y sr t ;;
  let (m, v) := clip_to_mel_and_vec clip sr in
  if use_yin_fallback then
    seg <- yin_segment y sr t ;;
    Some {| mel_batch := (mel_batch b ++ [m])%list;
            vec_batch := (vec_batch b ++ [v])%list;
            valid_onsets := (valid_onsets b ++ [t])%list;
            fallback_segments := (fallback_segments b ++ [seg])%list |}
  else
    Some {| mel_batch := (mel_batch b ++ [m])%list;
            vec_batch := (vec_batch b ++ [v])%list;
            valid_onsets := (valid_onsets b ++ [t])%list;
            fallback_segments := fallback_segments b |}.

Fixpoint collect (use_yin_fallback : bool) (y : list spec_float) (sr : Z)
    (b : batches) (onsets : list spec_float) : option batches :=
  match onsets with
  | [] => Some b
  | t :: r =>
      b' <- collect_step use_yin_fallback y sr b t ;;
      collect use_yin_fallback y sr b' r
  end.

Definition no_batches : batches :=
  {| mel_batch := []; vec_batch := []; valid_onsets := [];
     fallback_segments := [] |}.

(** ** Third pass: the decision for one onset *)

(** The local variables of one iteration of the decision loop.
    [yin_input] is a trace: the segment passed to
    [yin_string_from_segment], if it was called. *)
Record locals := {
  top1 : Z;
  top1_prob : spec_float;
  pred : list Z;
  active : list Z;
  used : string;
  yin_input : option (list spec_float)
}.

(** A probability vector whose shape is not [(16,)] makes the body
    raise (at the comparison with [thr], or at [probs[1]]). *)
Definition decide (use_yin_fallback : bool) (thr : list spec_float)
    (segs : list (list spec_float)) (sr : Z) (i : nat)
    (probs : list spec_float) : option locals :=
  if negb (len probs =? NUM_STRINGS) then None
  else
    a <- np_argmax probs ;;
    mx <- np_max probs ;;
    let top1 := a + 1 in
    let top1_prob := F32.to_f64 mx in
    let pred := threshold_pred probs thr in
    let active := where_active pred in
    if use_yin_fallback
       && (F64.ltb top1_prob MODEL_CONF_MIN || (len active =? 0))
    then
      seg <- nth_error segs i ;;
      r <- yin_string_from_segment seg sr ;;
      match r with
      | Some (s_yin, _) =>
          Some {| top1 := top1; top1_prob := top1_prob; pred := pred;
                  active := [s_yin]; used := "yin"; yin_input := Some seg |}
      | None =>
          Some {| top1 := top1; top1_prob := top1_prob; pred := pred;
                  active := active; used := "none"; yin_input := Some seg |}
      end
    else
      Some {| top1 := top1; top1_prob := top1_prob; pred := pred;
              active := active; used := "model"; yin_input := None |}.

Definition prob_key (n : Z) : string := "prob_S" ++ str_of_Z n.
Definition pred_key (n : Z) : string := "pred_S" ++ str_of_Z n.

Definition make_row (use_yin_fallback : bool) (t : spec_float)
    (probs : list spec_float) (l : locals) : row :=
  ([ ("time_sec", VFloat t);
     ("predicted_strings",
       VStr (if 0 <? len (active l)
             then String.concat "," (map str_of_Z (active l)) else ""));
     ("top1", VInt (top1 l));
     ("top1_prob", VFloat (top1_prob l)) ]
   ++ map (fun i => (prob_key (i + 1),
                     VFloat (F32.to_f64 (nth (Z.to_nat i) probs S754_nan))))
          (range NUM_STRINGS)
   ++ map (fun i => (pred_key (i + 1), VInt (nth (Z.to_nat i) (pred l) 0)))
          (range NUM_STRINGS)
   ++ (if use_yin_fallback then [("used", VStr (used l))] else []))%list.

Fixpoint process (use_yin_fallback : bool) (thr : list spec_float)
    (all_probs : list (list spec_float)) (segs : list (list spec_float))
    (sr : Z) (i : nat) (onsets : list spec_float)
  : option (list (locals * row)) :=
  match onsets with
  | [] => Some []
  | t :: rest =>
      probs <- nth_error all_probs i ;;
      l <- decide use_yin_fallback thr segs sr i probs ;;
      more <- process use_yin_fallback thr all_probs segs sr (S i) rest ;;
      Some ((l, make_row use_yin_fallback t probs l) :: more)
  end.

(** ** Emitters *)

(** [pd.DataFrame(rows)]: the column labels are the keys of the dicts,
    in first-seen order; [to_csv(index=False)] writes them as the
    header line and one line of cells per row. *)
Definition df_columns (rows : list row) : list string :=
  fold_left
    (fun cols r =>
       (cols ++ filter (fun k => negb (existsb (String.eqb k) cols))
                       (map fst r))%list)
    rows [].

Record csv_file := {
  csv_header : list string;
  csv_data : list (list (option value))
}.

Definition to_csv (rows : list row) : csv_file :=
  let cols := df_columns rows in
  {| csv_header := cols;
     csv_data := map (fun r => map (fun c => row_get c r) cols) rows |}.

Record detection := { cls : string; conf : spec_float }.
Record json_obj := {
  j_t : spec_float;
  j_string : Z;
  j_detections : list detection
}.

Definition json_of_row (r : row) : option (list json_obj) :=
  ps <- row_get "predicted_strings" r ;;
  match ps with
  | VStr s =>
      active_strs <-
        (if String.eqb s "" then Some []
         else mapM int_of_str (split_on "," s)) ;;
      mapM (fun string_num =>
              tv <- row_get "time_sec" r ;;
              t <- py_float tv ;;
              pv <- row_get (prob_key string_num) r ;;
              p <- py_float pv ;;
              Some {| j_t := t; j_string := string_num;
                      j_detections := [ {| cls := "audio_onset"; conf := p |} ] |})
           active_strs
  | _ => None
  end.

Definition json_results (rows : list row) : option (list json_obj) :=
  option_map (@List.concat json_obj) (mapM json_of_row rows).

Record srt_block := {
  b_index : Z;
  b_start : string;
  b_end : string;
  b_text : string
}.

Definition arrow : string :=
  String (ascii_of_nat 226) (String (ascii_of_nat 134)
    (String (ascii_of_nat 146) EmptyString)).

(** [start_t] and [end_t] of the flash for an onset at [t]. *)
Definition flash_window (t : spec_float) : spec_float * spec_float :=
  let start_t := py_max_f f64_zero (F64.sub t (F64.lit 2 100)) in
  (start_t, F64.add start_t FLASH_DURATION).

Definition srt_entry (use_yin_fallback : bool) (i : Z) (r : row)
  : option srt_block :=
  tv <- row_get "time_sec" r ;;
  t <- py_float tv ;;
  ps <- row_get "predicted_strings" r ;;
  let pred_str :=
    match ps with
    | VStr s => if String.eqb (strip s) "" then "None" else s
    | _ => "None"
    end in
  text <-
    (if use_yin_fallback then
       match row_get "used" r with
       | Some (VStr u) => Some (upper u ++ " " ++ arrow ++ " " ++ pred_str)
       | Some _ => None
       | None => Some (upper "model" ++ " " ++ arrow ++ " " ++ pred_str)
       end
     else Some ("t=" ++ fmt_2f t ++ "s " ++ arrow ++ " " ++ pred_str)) ;;
  let (start_t, end_t) := flash_window t in
  a <- srt_time start_t ;;
  b <- srt_time end_t ;;
  Some {| b_index := i; b_start := a; b_end := b; b_text := text |}.

Fixpoint srt_entries (use_yin_fallback : bool) (i : Z) (rows : list row)
  : option (list srt_block) :=
  match rows with
  | [] => Some []
  | r :: rest =>
      b <- srt_entry use_yin_fallback i r ;;
      bs <- srt_entries use_yin_fallback (i + 1) rest ;;
      Some (b :: bs)
  end.

(** ** [run_pipeline]

    From the decoded waveform [y] and the raw onset times of the
    detector to the artefacts written; the transcoder calls before and
    after are outside the model. *)

Inductive artefact :=
| Json (objs : list json_obj)
| Srt (blocks : list srt_block).

Record output := {
  trace : list locals;
  df : list row;
  csv_name : string;
  csv : csv_file;
  second : artefact
}.

Definition run_pipeline (y : list spec_float) (raw_onsets : list spec_float)
    (use_yin_fallback fast_mode : bool) : option output :=
  let sr := SAMPLE_RATE in
  let onsets := accept_onsets raw_onsets in
  let thr := thresholds use_yin_fallback in
  b <- collect use_yin_fallback y sr no_batches onsets ;;
  let all_probs :=
    if 0 <? len (valid_onsets b)
    then predict (mel_batch b) (vec_batch b) else [] in
  recs <- process use_yin_fallback thr all_probs (fallback_segments b) sr
            0%nat (valid_onsets b) ;;
  let rows := map snd recs in
  let csv_name :=
    if use_yin_fallback then "predictions_hybrid.csv"
    else "predictions_default.csv" in
  art <-
    (if fast_mode then option_map Json (json_results rows)
     else option_map Srt (srt_entries use_yin_fallback 1 rows)) ;;
  Some {| trace := map fst recs; df := rows; csv_name := csv_name;
          csv := to_csv rows; second := art |}.
End Pipeline.

(** ** A concrete instance of the services

    Used to run the model on concrete inputs: the classifier answers from
    a table of probability vectors, the pitch tracker always reports the
    frames [f0], the median of a list is its middle element. *)
Definition table_services (table : list (list spec_float))
    (f0 : list spec_float) : Services :=
  {| mel := unit;
     vec := unit;
     clip_to_mel_and_vec := fun _ _ => (tt, tt);
     predict := fun ms _ => firstn (List.length ms) table;
     yin := fun _ _ => f0;
     median := fun l => nth (Nat.div (List.length l) 2) l S754_nan |}.

(** A tenth of a second of silence at 16 kHz. *)
Definition silence : list spec_float :=
  repeat (S754_zero false) (Z.to_nat 1600).

(** ** Auxiliary definitions for the statements *)

(** The onset filter as a recursive function of the last accepted time. *)
Fixpoint hold_from (last_t : spec_float) (onsets : list spec_float)
  : list spec_float :=
  match onsets with
  | [] => []
  | t :: r =>
      if F64.geb (F64.sub t last_t) HOLD_SEC then t :: hold_from t r
      else hold_from last_t r
  end.

(** [last_t] after the loop has run over [onsets]. *)
Definition last_accepted (onsets : list spec_float) : spec_float :=
  snd (fold_left hold_step onsets ([], F64.of_Z (-1000000000))).

(** Every element is at least [HOLD_SEC] after its predecessor, as the
    loop measures it. *)
Fixpoint spaced (prev : spec_float) (l : list spec_float) : Prop :=
  match l with
  | [] => True
  | x :: r => F64.geb (F64.sub x prev) HOLD_SEC = true /\ spaced x r
  end.

(** The threshold that applies to string [k] (1-based): 0.25, and 0.03
    for string 12 in hybrid mode. *)
Definition string_threshold (use_yin_fallback : bool) (k : Z) : spec_float :=
  if use_yin_fallback && (k =? 12) then F32.lit 3 100 else F32.lit 25 100.

(** [probs[k-1]], the probability of string [k]. *)
Definition prob_of (probs : list spec_float) (k : Z) : spec_float :=
  nth (Z.to_nat (k - 1)) probs S754_nan.

(** A probability vector with [p12] for string 12 and [p] elsewhere. *)
Definition probs_with_12 (p p12 : spec_float) : list spec_float :=
  list_set (repeat p 16) 11 p12.

(** The frames the pitch tracker reports as voiced: finite and positive. *)
Definition voiced (f0 : list spec_float) : list spec_float :=
  filter (fun x => F64.gtb x f64_zero) (filter is_finite f0).

(** The guard of the fallback, on the locals of an iteration. *)
Definition fallback_condition (use_yin_fallback : bool) (l : locals) : bool :=
  use_yin_fallback
  && (F64.ltb (top1_prob l) MODEL_CONF_MIN
      || (len (where_active (pred l)) =? 0)).

Section Batches.
Context {Svc : Services}.

(** The features of one onset and the batched call to the classifier,
    as the first two passes compute them. *)
Definition onset_features (y : list spec_float) (sr : Z) (t : spec_float)
  : option (mel * vec) :=
  clip <- classifier_clip y sr t ;; Some (clip_to_mel_and_vec clip sr).

Definition classify (y : list spec_float) (onsets : list spec_float)
  : option (list (list spec_float)) :=
  feats <- mapM (onset_features y SAMPLE_RATE) onsets ;;
  Some (if 0 <? len onsets
        then predict (map fst feats) (map snd feats) else []).

(** The segments of the first pass: one per onset in hybrid mode. *)
Definition segments (use_yin_fallback : bool) (y : list spec_float)
    (onsets : list spec_float) : option (list (list spec_float)) :=
  if use_yin_fallback then mapM (yin_segment y SAMPLE_RATE) onsets
  else Some [].
End Batches.

(** The frequency of string [k] in the table of string frequencies, in
    hundredths of a hertz. *)
Definition table_centihertz (k : Z) : Z :=
  match k with
  | 1 => 78399 | 2 => 65925 | 3 => 58733 | 4 => 52325
  | 5 => 44000 | 6 => 39200 | 7 => 32963 | 8 => 29366
  | 9 => 26163 | 10 => 22000 | 11 => 19600 | 12 => 16481
  | 13 => 14683 | 14 => 13081 | 15 => 11000 | 16 => 9800
  | _ => 0
  end.

(** The distance between string [k] and [pitch] in float32 arithmetic:
    the table frequency and the pitch rounded to float32, and the
    absolute value of their float32 difference. *)
Definition float32_distance (pitch : spec_float) (k : Z) : spec_float :=
  F32.abs (F32.sub (F32.lit (table_centihertz k) 100) (F32.of_f64 pitch)).

(** The exact value of a finite binary64 number, counted in units of
    [2 ^ -1074]: every finite binary64 number is a whole number of these
    units, and [unit64] of them make 1. *)
Definition exact64 (x : spec_float) : Z := float_ord F64.prec F64.emax x.

Definition unit64 : Z := 2 ^ 1074.

(** The exact distance [|f_k - pitch|] between the table frequency of
    string [k] and [pitch], without any rounding, in hundredths of a
    unit. *)
Definition exact_distance (pitch : spec_float) (k : Z) : Z :=
  Z.abs (table_centihertz k * unit64 - 100 * exact64 pitch).

(** [2 ^ -12] Hz in the units of [exact_distance]: the room the float32
    rounding of the table, of the pitch and of their difference leaves
    between two distances. *)
Definition float32_slack : Z := 100 * 2 ^ 1062.

(** The binary64 number nearest to 415.99999, just below the midpoint
    416 of the strings 6 (392 Hz) and 5 (440 Hz). *)
Definition pitch_below_416 : spec_float := F64.lit 41599999 100000.

(** A float32 that is not a NaN. *)
Definition number32 (x : spec_float) : Prop :=
  F32.valid x = true /\ is_nan x = false.

(** A string without a comma. *)
Fixpoint no_comma (s : string) : bool :=
  match s with
  | EmptyString => true
  | String c r => negb (Ascii.eqb c ",") && no_comma r
  end.

(** The JSON object of string [s] for an onset at [t] with classifier
    probabilities [probs]. *)
Definition json_entry (t : spec_float) (probs : list spec_float) (s : Z)
  : json_obj :=
  {| j_t := t; j_string := s;
     j_detections :=
       [ {| cls := "audio_onset"; conf := F32.to_f64 (prob_of probs s) |} ] |}.



Definition pitch_services : Services :=
  table_services [repeat (F32.lit 1 100) 16] [F64.of_Z 445].

Definition pitch_job : option output :=
  @run_pipeline pitch_services silence [F64.of_Z 0] true true.

Definition first_onset_job : option output :=
  @run_pipeline pitch_services silence [F64.of_Z 0] true false.

(** A value, counted in units of [2 ^ emin], that a format with [prec]
    digits holds exactly: a multiple of its unit in the last place. *)
Definition fits_in (prec v : Z) : Prop :=
  v mod 2 ^ Z.max 0 (Zdigits2 v - prec) = 0.

(** A nonnegative finite number of a format. *)
Definition nonneg_finite (prec emax : Z) (x : spec_float) : Prop :=
  valid_binary prec emax x = true /\ is_finite x = true
  /\ sign_bit x = false.

Abbreviation fin64 := (nonneg_finite F64.prec F64.emax).

(** The stamp [HH:MM:SS,mmm] of [n] whole seconds and [ms]
    milliseconds. *)
Definition stamp_text (n ms : Z) : string :=
  fmt_0d 2 (n / 3600) ++ ":" ++ fmt_0d 2 (n mod 3600 / 60) ++ ":"
  ++ fmt_0d 2 (n mod 60) ++ "," ++ fmt_0d 3 ms.

(** The window of the flash for an onset at [t], in binary64:
    [max(0, t - 0.02)] and 0.25 s later. *)
Definition window_start (t : spec_float) : spec_float :=
  if F64.gtb (F64.sub t (F64.lit 2 100)) f64_zero
  then F64.sub t (F64.lit 2 100) else f64_zero.

Definition window_end (t : spec_float) : spec_float :=
  F64.add (window_start t) FLASH_DURATION.

(** [text] is the written form of the time [x]: [x] is a finite
    nonnegative number and, when it is below [2 ^ 53] seconds, the text
    is the stamp of its whole seconds and of a millisecond count within
    half a millisecond (and the [2 ^ -44] of a binary64 rounding) of its
    fractional part. *)
Definition stamped (x : spec_float) (text : string) : Prop :=
  is_finite x = true /\ 0 <= exact64 x
  /\ (exact64 x < 2 ^ 53 * unit64 ->
      exists ms,
        text = stamp_text (exact64 x / unit64) ms
        /\ 0 <= ms <= 1000
        /\ 2 * Z.abs (ms * unit64 - 1000 * (exact64 x mod unit64))
           <= unit64 + 2 ^ 1031).

(** An onset at 75.5 s, on the full path. *)
Definition minute_onset_job : option output :=
  @run_pipeline pitch_services silence [F64.lit 755 10] true false.

(** The CSV columns the interface description lists: [time_sec],
    [predicted_strings], [top1], [top1_prob], [prob_S1..prob_S16],
    [pred_S1..pred_S16] and, in hybrid mode, [used]. *)
Definition csv_columns (use_yin_fallback : bool) : list string :=
  (["time_sec"; "predicted_strings"; "top1"; "top1_prob"]
   ++ map (fun i => prob_key (i + 1)) (range 16)
   ++ map (fun i => pred_key (i + 1)) (range 16)
   ++ (if use_yin_fallback then ["used"] else []))%list.

(** A job without any raw onset. *)
Definition silent_job (use_yin_fallback fast_mode : bool) : option output :=
  @run_pipeline pitch_services silence [] use_yin_fallback fast_mode.

(** ** Further definitions: the remaining steps of [inference.py] *)

(** The first lines of [clip_to_mel_and_vec]: a clip shorter than
    [CLIP_SAMPLES] is padded with zeros on the right, a longer one is cut. *)
Definition fit_clip (y : list spec_float) : list spec_float :=
  if len y <? CLIP_SAMPLES
  then (y ++ repeat (S754_zero false) (Z.to_nat (CLIP_SAMPLES - len y)))%list
  else firstn (Z.to_nat CLIP_SAMPLES) y.

(** [l] is [l'] with some elements left out, the order kept. *)
Inductive subseq {A : Type} : list A -> list A -> Prop :=
| subseq_nil : subseq [] []
| subseq_skip x l l' : subseq l l' -> subseq l (x :: l')
| subseq_keep x l l' : subseq l l' -> subseq (x :: l) (x :: l').

(** The JSON objects of a list of records, from the locals, the onset
    times and the classifier's vectors. *)
Definition record_entries (tr : list locals) (onsets : list spec_float)
    (all_probs : list (list spec_float)) : list json_obj :=
  List.concat
    (map (fun x => map (json_entry (fst (snd x)) (snd (snd x))) (active (fst x)))
       (combine tr (combine onsets all_probs))).

(** [predicted_strings] of a list of active strings, and the list the
    fast path reads back from it. *)
Definition join_strings (l : list Z) : string :=
  if 0 <? len l then String.concat "," (map str_of_Z l) else "".

Definition parse_strings (s : string) : option (list Z) :=
  if String.eqb s "" then Some [] else mapM int_of_str (split_on "," s).

(** What a subtitle shows for an active set: the joined strings, or
    [None] for the empty set. *)
Definition shown_strings (l : list Z) : string :=
  match l with
  | [] => "None"
  | _ => join_strings l
  end.

(** * The job server ([app.py]) *)

(** ** Job records

    A job record is a dict from strings to [None], strings, integers and
    nested dicts; [jobs] maps job ids to records. *)

#[warnings="-register-all"]
Inductive jval :=
| JNone
| JStr (s : string)
| JInt (n : Z)
| JDict (d : list (string * jval)).

Definition jdict := list (string * jval).

(** [d.get(k)]: [None] for a missing key. *)
Fixpoint dict_get (k : string) (d : jdict) : jval :=
  match d with
  | [] => JNone
  | (k', v) :: r => if String.eqb k k' then v else dict_get k r
  end.

(** [k in d] *)
Fixpoint dict_has (k : string) (d : jdict) : bool :=
  match d with
  | [] => false
  | (k', _) :: r => String.eqb k k' || dict_has k r
  end.

(** The truth value of an object. *)
Definition truthy (v : jval) : bool :=
  match v with
  | JNone => false
  | JStr s => negb (String.eqb s "")
  | JInt n => negb (n =? 0)
  | JDict d => match d with [] => false | _ => true end
  end.

(** [v == s] for a string [s]. *)
Definition is_str (s : string) (v : jval) : bool :=
  match v with
  | JStr s' => String.eqb s' s
  | _ => false
  end.

Definition store := list (string * jdict).

(** [jobs[job_id]], if present, and [jobs[job_id] = record]. *)
Fixpoint store_get (job_id : string) (jobs : store) : option jdict :=
  match jobs with
  | [] => None
  | (k, v) :: r => if String.eqb job_id k then Some v else store_get job_id r
  end.

Fixpoint store_set (job_id : string) (record : jdict) (jobs : store) : store :=
  match jobs with
  | [] => [(job_id, record)]
  | (k, v) :: r =>
      if String.eqb job_id k then (k, record) :: r
      else (k, v) :: store_set job_id record r
  end.

(** ** Exceptions of the request handlers *)

Inductive exn :=
| HTTPException (status_code : Z) (detail : string)
| AttributeError
| OtherError.

Inductive res (A : Type) :=
| Ok (a : A)
| Raise (e : exn).
Arguments Ok {A} a.
Arguments Raise {A} e.

(** [v.get(k)] on an object that may not be a dict. *)
Definition obj_get (v : jval) (k : string) : res jval :=
  match v with
  | JDict d => Ok (dict_get k d)
  | _ => Raise AttributeError
  end.

(** ** [_get_result_path] *)

Definition _get_result_path (job : jdict) (kind : string)
    (type_key : option string) : res (jval * string) :=
  let csv := String.eqb kind "csv" in
  if dict_has "audio" job then
    match type_key with
    | Some "combined" =>
        let combined := dict_get "combined" job in
        if negb (truthy combined)
        then Raise (HTTPException 404 "No combined video available")
        else
          match obj_get combined "video_path" with
          | Ok path => Ok (path, "harp_combined.mp4")
          | Raise e => Raise e
          end
    | None | Some "" =>
        Raise (HTTPException 400
                 "For this job, use ?type=audio, ?type=hand, or ?type=combined")
    | Some type_key =>
        let part := dict_get type_key job in
        if negb (truthy part)
        then Raise (HTTPException 404 ("No " ++ type_key ++ " result"))
        else
          match obj_get part (if csv then "csv_path" else "video_path") with
          | Ok path =>
              Ok (path,
                  "harp_" ++ type_key ++ "_"
                  ++ (if csv then "predictions" else "video") ++ "."
                  ++ (if csv then "csv" else "mp4"))
          | Raise e => Raise e
          end
    end
  else
    Ok (dict_get (if csv then "csv_path" else "video_path") job,
        if csv then "harp_predictions.csv" else "harp_labeled.mp4").

(** ** The status and download handlers *)

Record file_response := {
  fr_path : jval;
  fr_filename : string;
  fr_media_type : string
}.

Definition get_status (jobs : store) (job_id : string) : res jdict :=
  match store_get job_id jobs with
  | None => Raise (HTTPException 404 "Job not found")
  | Some job => Ok job
  end.

Section Downloads.
(** [os.path.isfile] at the time of the request: on a path string, and
    on any other object (where it may raise). *)
Variable isfile : string -> bool.
Variable isfile_other : jval -> res bool.

Definition os_path_isfile (v : jval) : res bool :=
  match v with
  | JStr s => Ok (isfile s)
  | _ => isfile_other v
  end.

Definition download_csv (jobs : store) (job_id : string)
    (type : option string) : res file_response :=
  match store_get job_id jobs with
  | None => Raise (HTTPException 404 "Job not ready or not found")
  | Some job =>
      if negb (is_str "done" (dict_get "status" job))
      then Raise (HTTPException 404 "Job not ready or not found")
      else
        match _get_result_path job "csv" type with
        | Raise e => Raise e
        | Ok (path, filename) =>
            if negb (truthy path)
            then Raise (HTTPException 404 "CSV not found")
            else
              match os_path_isfile path with
              | Raise e => Raise e
              | Ok false => Raise (HTTPException 404 "CSV not found")
              | Ok true =>
                  Ok {| fr_path := path; fr_filename := filename;
                        fr_media_type := "text/csv" |}
              end
        end
  end.

Definition download_video (jobs : store) (job_id : string)
    (type : option string) : res file_response :=
  match store_get job_id jobs with
  | None => Raise (HTTPException 404 "Job not ready or not found")
  | Some job =>
      if negb (is_str "done" (dict_get "status" job))
      then Raise (HTTPException 404 "Job not ready or not found")
      else
        match _get_result_path job "video" type with
        | Raise e => Raise e
        | Ok (path, filename) =>
            if negb (truthy path)
            then Raise (HTTPException 404 "Video not found")
            else
              match os_path_isfile path with
              | Raise e => Raise e
              | Ok false => Raise (HTTPException 404 "Video not found")
              | Ok true =>
                  Ok {| fr_path := path; fr_filename := filename;
                        fr_media_type := "video/mp4" |}
              end
        end
  end.
End Downloads.

(** ** The background jobs

    What lies outside the server's own logic enters as an outcome: the
    audio pipeline, the hand detector (not part of these sources; it
    returns two path strings), the file system and the transcoder.  An
    [Exception] is represented by its [str]. *)

Inductive outcome (A : Type) :=
| Returned (a : A)
| Raised (message : string).
Arguments Returned {A} a.
Arguments Raised {A} message.

Inductive ffmpeg_outcome :=
| Completed
| CalledProcessError (stderr : string) (str_e : string)
| Failed (message : string).

Record world := {
  (** [run_pipeline(...)]: [(csv_path, video_path, df)] *)
  audio_run : outcome (string * string * list row);
  (** [run_hand_detector], [None] when the import failed, and the
      outcome of its call *)
  hand_run : option (outcome (string * string));
  (** [os.path.isfile] once the detector has run *)
  isfile_then : string -> bool;
  (** opening a file and counting its lines *)
  count_lines : string -> outcome nat;
  (** the transcoder call, and [os.path.isfile] after it *)
  ffmpeg_run : ffmpeg_outcome;
  isfile_after : string -> bool
}.

Definition run_job_audio (w : world) (job_id : string) (jobs : store)
  : store :=
  let jobs :=
    store_set job_id
      [("status", JStr "running"); ("message", JStr "Processing (audio)...")]
      jobs in
  match audio_run w with
  | Returned (csv_path, video_out_path, df) =>
      store_set job_id
        [("status", JStr "done"); ("csv_path", JStr csv_path);
         ("video_path", JStr video_out_path); ("rows", JInt (len df))]
        jobs
  | Raised e =>
      store_set job_id [("status", JStr "error"); ("message", JStr e)] jobs
  end.

(** [max(0, sum(1 for _ in f) - 1)] *)
Definition data_rows (lines : nat) : Z := Z.max 0 (Z.of_nat lines - 1).

Definition run_job_hand (w : world) (job_id : string) (jobs : store)
  : store :=
  match hand_run w with
  | None =>
      store_set job_id
        [("status", JStr "error");
         ("message",
          JStr "Hand detector not available (harp_hand_detector not found).")]
        jobs
  | Some run =>
      let jobs :=
        store_set job_id
          [("status", JStr "running");
           ("message", JStr "Processing (hand detection)...")]
          jobs in
      match run with
      | Raised e =>
          store_set job_id [("status", JStr "error"); ("message", JStr e)] jobs
      | Returned (csv_path, video_out_path) =>
          let counted :=
            if isfile_then w csv_path then
              match count_lines w csv_path with
              | Returned n => Returned (data_rows n)
              | Raised e => Raised e
              end
            else Returned 0 in
          match counted with
          | Raised e =>
              store_set job_id
                [("status", JStr "error"); ("message", JStr e)] jobs
          | Returned rows =>
              store_set job_id
                [("status", JStr "done"); ("csv_path", JStr csv_path);
                 ("video_path", JStr video_out_path); ("rows", JInt rows)]
                jobs
          end
      end
  end.

(** [s[:n]] of a [str] held as its UTF-8 bytes: the first [n] code
    points, each with its continuation bytes. *)
Definition is_continuation (c : ascii) : bool :=
  let n := nat_of_ascii c in ((128 <=? n) && (n <? 192))%nat.

Fixpoint str_prefix (n : nat) (s : string) : string :=
  match s with
  | EmptyString => EmptyString
  | String c r =>
      if is_continuation c then String c (str_prefix n r)
      else match n with
           | O => EmptyString
           | S k => String c (str_prefix k r)
           end
  end.

Section Both.
(** [str(OUTPUT_DIR / job_id)] and [os.path.join], which depend on the
    platform. *)
Variable output_dir : string -> string.
Variable path_join : string -> string -> string.

(** [(combined_result, combined_error)] after the combining step. *)
Definition combine_videos (w : world) (out_dir video_hand : string)
  : jval * jval :=
  let srt_path := path_join out_dir "overlay.srt" in
  let combined_video := path_join out_dir "video_combined.mp4" in
  if negb (isfile_then w srt_path)
  then (JNone, JStr ("SRT file not found: " ++ srt_path))
  else if negb (isfile_then w video_hand)
  then (JNone, JStr ("Hand video not found: " ++ video_hand))
  else
    match ffmpeg_run w with
    | Completed =>
        if isfile_after w combined_video
        then (JDict [("video_path", JStr combined_video)], JNone)
        else (JNone, JStr "Combined video file was not created")
    | CalledProcessError stderr str_e =>
        (JNone,
         JStr ("FFmpeg error: "
               ++ (if negb (String.eqb stderr "")
                   then str_prefix 200 stderr else str_e)))
    | Failed e => (JNone, JStr ("Error creating combined video: " ++ e))
    end.

Definition run_job_both (w : world) (job_id : string) (jobs : store)
  : store :=
  let out_dir := output_dir job_id in
  let jobs :=
    store_set job_id
      [("status", JStr "running"); ("message", JStr "Processing (audio)...")]
      jobs in
  match audio_run w with
  | Raised e =>
      store_set job_id [("status", JStr "error"); ("message", JStr e)] jobs
  | Returned (csv_audio, video_audio, df) =>
      let audio_result :=
        JDict [("csv_path", JStr csv_audio); ("video_path", JStr video_audio);
               ("rows", JInt (len df))] in
      match hand_run w with
      | None =>
          store_set job_id
            [("status", JStr "done"); ("audio", audio_result);
             ("hand", JNone);
             ("hand_error",
              JStr "Hand detector not available (install ultralytics, mediapipe, opencv-python and put best.pt in backend/weights/).")]
            jobs
      | Some run =>
          let jobs :=
            store_set job_id
              [("status", JStr "running");
               ("message", JStr "Processing (hand)...")]
              jobs in
          let hand_failed hand_err :=
            store_set job_id
              [("status", JStr "done"); ("audio", audio_result);
               ("hand", JNone); ("hand_error", JStr hand_err)]
              jobs in
          match run with
          | Raised hand_err => hand_failed hand_err
          | Returned (csv_hand, video_hand) =>
              let counted :=
                if isfile_then w csv_hand then
                  match count_lines w csv_hand with
                  | Returned n => Returned (data_rows n)
                  | Raised e => Raised e
                  end
                else Returned 0 in
              match counted with
              | Raised hand_err => hand_failed hand_err
              | Returned hand_rows =>
                  let hand_result :=
                    JDict [("csv_path", JStr csv_hand);
                           ("video_path", JStr video_hand);
                           ("rows", JInt hand_rows)] in
                  let jobs :=
                    store_set job_id
                      [("status", JStr "running");
                       ("message", JStr "Combining results...")]
                      jobs in
                  let (combined_result, combined_error) :=
                    combine_videos w out_dir video_hand in
                  store_set job_id
                    [("status", JStr "done"); ("audio", audio_result);
                     ("hand", hand_result); ("combined", combined_result);
                     ("combined_error", combined_error)]
                    jobs
              end
          end
      end
  end.

(** What the full path of [run_pipeline] returns for the output [out]
    of the model, in the directory [dir]. *)
Definition pipeline_returns (dir : string) (out : output)
  : string * string * list row :=
  (path_join dir (csv_name out), path_join dir "video_labeled.mp4", df out).
End Both.

(** The hand part of a job, as both runners obtain it: the detector's
    two paths and the number of data rows of its CSV, or the text of the
    exception; [missing] is the text used when there is no detector. *)
Definition hand_outcome (missing : string) (w : world)
  : outcome (string * string * Z) :=
  match hand_run w with
  | None => Raised missing
  | Some (Raised e) => Raised e
  | Some (Returned (csv_path, video_path)) =>
      if isfile_then w csv_path then
        match count_lines w csv_path with
        | Returned n => Returned (csv_path, video_path, data_rows n)
        | Raised e => Raised e
        end
      else Returned (csv_path, video_path, 0)
  end.

(** The answer of a download handler for the path string [path]: the
    file, or 404 with [detail] when the path is empty or names no file. *)
Definition serve (isfile : string -> bool) (path filename media detail : string)
  : res file_response :=
  if negb (String.eqb path "") && isfile path
  then Ok {| fr_path := JStr path; fr_filename := filename;
             fr_media_type := media |}
  else Raise (HTTPException 404 detail).

(** The text recorded for a job of both kinds without a detector. *)
Definition no_detector : string :=
  "Hand detector not available (install ultralytics, mediapipe, opencv-python and put best.pt in backend/weights/).".

(** Whether the combining step produced a video: the subtitle file and
    the hand video exist, the transcoder completed and its output
    exists. *)
Definition combined_made (path_join : string -> string -> string)
    (w : world) (out_dir video_hand : string) : bool :=
  isfile_then w (path_join out_dir "overlay.srt")
  && isfile_then w video_hand
  && match ffmpeg_run w with Completed => true | _ => false end
  && isfile_after w (path_join out_dir "video_combined.mp4").

(** ** Concrete instances for the server

    A job whose two parts and the combining step all succeed, on a file
    system where every path names a file; [sample_join] joins with a
    slash and [sample_dir] is the output directory of a job. *)
Definition sample_world : world :=
  {| audio_run :=
       Returned ("outputs/j1/predictions_hybrid.csv",
                 "outputs/j1/video_labeled.mp4", []);
     hand_run := Some (Returned ("outputs/j1/hand.csv", "outputs/j1/hand.mp4"));
     isfile_then := fun _ => true;
     count_lines := fun _ => Returned 3%nat;
     ffmpeg_run := Completed;
     isfile_after := fun _ => true |}.

Definition sample_join (a b : string) : string := a ++ "/" ++ b.

Definition sample_dir (job_id : string) : string := "outputs/" ++ job_id.

(** An audio job whose pipeline returned the output [out]. *)
Definition audio_world (out : output) : world :=
  {| audio_run := Returned (pipeline_returns sample_join "outputs/j1" out);
     hand_run := None;
     isfile_then := fun _ => true;
     count_lines := fun _ => Returned 0%nat;
     ffmpeg_run := Completed;
     isfile_after := fun _ => true |}.

(** * Properties *)

(** ** Facts about the float operations used by the pipeline *)

Section FloatFacts.
Variables prec emax : Z.
Hypothesis prec_pos : 0 < prec.
Hypothesis prec_lt_emax : prec < emax.

Lemma digits2_pos_bounds (m : positive) :
  2 ^ (Zpos (digits2_pos m) - 1) <= Zpos m < 2 ^ Zpos (digits2_pos m).
Proof.
  induction m as [m IH | m IH |]; simpl digits2_pos.
  - rewrite Pos2Z.inj_succ.
    replace (Z.succ (Zpos (digits2_pos m)) - 1) with (Z.succ (Zpos (digits2_pos m) - 1)) by lia.
    rewrite !Z.pow_succ_r by lia. lia.
  - rewrite Pos2Z.inj_succ.
    replace (Z.succ (Zpos (digits2_pos m)) - 1) with (Z.succ (Zpos (digits2_pos m) - 1)) by lia.
    rewrite !Z.pow_succ_r by lia. lia.
  - simpl. lia.
Qed.

Lemma bounded_inv m e :
  bounded prec emax m e = true ->
  emin prec emax <= e <= emax - prec /\
  Zpos (digits2_pos m) <= prec /\
  (emin prec emax < e -> Zpos (digits2_pos m) = prec).
Proof.
  unfold bounded, canonical_mantissa, fexp.
  rewrite andb_true_iff, Z.eqb_eq, Z.leb_le. lia.
Qed.

Lemma pow2_split a b : 0 <= a -> 0 <= b -> 2 ^ (a + b) = 2 ^ a * 2 ^ b.
Proof. intros. apply Z.pow_add_r; lia. Qed.

Lemma scaled_lt m1 e1 m2 e2 :
  bounded prec emax m1 e1 = true -> bounded prec emax m2 e2 = true ->
  e1 < e2 ->
  Zpos m1 * 2 ^ (e1 - emin prec emax) < Zpos m2 * 2 ^ (e2 - emin prec emax).
Proof.
  intros H1 H2 Hlt.
  apply bounded_inv in H1, H2.
  destruct H1 as (He1 & Hd1 & _), H2 as (He2 & _ & Hd2).
  specialize (Hd2 ltac:(lia)).
  pose proof (digits2_pos_bounds m1) as B1.
  pose proof (digits2_pos_bounds m2) as B2.
  rewrite Hd2 in B2.
  assert (Zpos m1 < 2 ^ prec).
  { eapply Z.lt_le_trans; [apply B1|]. apply Z.pow_le_mono_r; lia. }
  replace (e2 - emin prec emax) with ((e1 - emin prec emax) + (e2 - e1)) by lia.
  rewrite pow2_split by lia.
  assert (0 < 2 ^ (e1 - emin prec emax)) by (apply Z.pow_pos_nonneg; lia).
  assert (2 ^ 1 <= 2 ^ (e2 - e1)) as HP by (apply Z.pow_le_mono_r; lia).
  assert (2 ^ prec = 2 ^ (prec - 1) * 2 ^ 1) as Hp.
  { rewrite <- pow2_split by lia. f_equal. lia. }
  change (2 ^ 1) with 2 in HP, Hp.
  assert (Zpos m1 < Zpos m2 * 2 ^ (e2 - e1)) by nia.
  rewrite Z.mul_assoc, (Z.mul_comm (Zpos m2)), <- Z.mul_assoc.
  rewrite (Z.mul_comm (Zpos m1)).
  apply Z.mul_lt_mono_pos_l; assumption.
Qed.

Lemma cmp_finite m1 e1 m2 e2 :
  bounded prec emax m1 e1 = true -> bounded prec emax m2 e2 = true ->
  match e1 ?= e2 with
  | Lt => Lt
  | Gt => Gt
  | Eq => Pos.compare_cont Eq m1 m2
  end = (Zpos m1 * 2 ^ (e1 - emin prec emax) ?= Zpos m2 * 2 ^ (e2 - emin prec emax)).
Proof.
  intros H1 H2.
  destruct (Z.compare_spec e1 e2) as [-> | Hlt | Hgt].
  - pose proof (bounded_inv _ _ H2) as (He & _).
    rewrite <- Zmult_compare_compat_r by (apply Z.lt_gt, Z.pow_pos_nonneg; lia).
    reflexivity.
  - symmetry. apply Z.compare_lt_iff. now apply scaled_lt.
  - symmetry. apply Z.compare_gt_iff. now apply scaled_lt.
Qed.

Lemma scaled_lt_inf m e :
  bounded prec emax m e = true ->
  0 < Zpos m * 2 ^ (e - emin prec emax) < 2 ^ (emax - emin prec emax).
Proof.
  intros H. apply bounded_inv in H. destruct H as (He & Hd & _).
  pose proof (digits2_pos_bounds m) as B.
  assert (Zpos m < 2 ^ prec).
  { eapply Z.lt_le_trans; [apply B|]. apply Z.pow_le_mono_r; lia. }
  assert (0 < 2 ^ (e - emin prec emax)) by (apply Z.pow_pos_nonneg; lia).
  split; [lia|].
  assert (0 < prec) by lia.
  replace (emax - emin prec emax) with (prec + (emax - prec - emin prec emax)) by lia.
  rewrite pow2_split by lia.
  assert (2 ^ (e - emin prec emax) <= 2 ^ (emax - prec - emin prec emax))
    by (apply Z.pow_le_mono_r; lia).
  nia.
Qed.

Lemma inf_pos : 0 < 2 ^ (emax - emin prec emax).
Proof. apply Z.pow_pos_nonneg; unfold emin; lia. Qed.

Theorem SFcompare_ord x y :
  valid_binary prec emax x = true -> valid_binary prec emax y = true ->
  is_nan x = false -> is_nan y = false ->
  SFcompare x y = Some (float_ord prec emax x ?= float_ord prec emax y).
Proof.
  intros Vx Vy Nx Ny. pose proof inf_pos as Hinf.
  destruct x as [sx | sx | | sx mx ex], y as [sy | sy | | sy my ey];
    try discriminate; simpl in Vx, Vy; simpl SFcompare; unfold float_ord; f_equal;
    try pose proof (scaled_lt_inf _ _ Vx) as Bx;
    try pose proof (scaled_lt_inf _ _ Vy) as By'.
  all: try match goal with
    | |- context [Pos.compare_cont] =>
        destruct sx, sy; cbn [cond_Zopp];
        [ rewrite Z.compare_opp, (Z.compare_antisym (Zpos mx * _));
          rewrite <- (cmp_finite _ _ _ _ Vx Vy);
          now destruct (ex ?= ey)
        | symmetry; apply Z.compare_lt_iff; lia
        | symmetry; apply Z.compare_gt_iff; lia
        | now apply cmp_finite ]
    end.
  all: repeat match goal with s : bool |- _ => destruct s end;
    cbn [cond_Zopp]; symmetry;
    first [ reflexivity
          | apply Z.compare_lt_iff; lia
          | apply Z.compare_gt_iff; lia
          | apply Z.compare_eq_iff; lia ].
Qed.

Lemma iter_xO m d : Zpos (Pos.iter xO m d) = Zpos m * 2 ^ Zpos d.
Proof.
  induction d as [| d IH] using Pos.peano_ind.
  - simpl. lia.
  - rewrite Pos.iter_succ, Pos2Z.inj_succ, Z.pow_succ_r by lia.
    rewrite Pos2Z.inj_xO, IH. lia.
Qed.

Lemma shl_align_fst m e e' :
  e' <= e -> Zpos (fst (shl_align m e e')) = Zpos m * 2 ^ (e - e').
Proof.
  intros He. unfold shl_align.
  destruct (e' - e) as [| d | d] eqn:Hd; try lia; simpl fst.
  - replace (e - e') with 0 by lia. lia.
  - rewrite iter_xO. f_equal. f_equal. lia.
Qed.

Lemma round_aux_neg_not_ge mc ec m e l :
  SFleb (S754_finite false mc ec) (binary_round_aux prec emax true m e l) = false.
Proof.
  unfold binary_round_aux.
  destruct (shr_fexp prec emax m e l) as [mrs' e'].
  destruct (shr_fexp prec emax _ e' loc_Exact) as [mrs'' e''].
  destruct (shr_m mrs''); try reflexivity.
  destruct (e'' <=? emax - prec); reflexivity.
Qed.

Lemma normalize_ge_pos mc ec D e :
  SFleb (S754_finite false mc ec) (binary_normalize prec emax D e false) = true ->
  0 < D.
Proof.
  destruct D as [| p | p]; simpl; intros H; try lia; try discriminate.
  unfold binary_round in H.
  destruct (shl_align p e _) as [mz ez].
  now rewrite round_aux_neg_not_ge in H.
Qed.

Theorem sub_ge_pos_lt mc ec x y :
  valid_binary prec emax x = true -> valid_binary prec emax y = true ->
  SFleb (S754_finite false mc ec) (SFsub prec emax x y) = true ->
  SFltb y x = true.
Proof.
  intros Vx Vy H.
  destruct x as [sx | sx | | sx mx ex], y as [sy | sy | | sy my ey];
    try discriminate H;
    try (destruct sx; try destruct sy; simpl in H; try discriminate H; reflexivity);
    try (destruct sy; try destruct sx; simpl in H; try discriminate H; reflexivity).
  unfold SFltb. rewrite SFcompare_ord by (assumption || reflexivity).
  cbn [SFsub] in H. apply normalize_ge_pos in H.
  simpl in Vx, Vy.
  pose proof (bounded_inv _ _ Vx) as (Hex & _).
  pose proof (bounded_inv _ _ Vy) as (Hey & _).
  rewrite !shl_align_fst in H by lia.
  assert (0 < 2 ^ (Z.min ex ey - emin prec emax)) as Hk
    by (apply Z.pow_pos_nonneg; lia).
  assert (float_ord prec emax (S754_finite sx mx ex) - float_ord prec emax (S754_finite sy my ey)
          = (cond_Zopp sx (Zpos mx * 2 ^ (ex - Z.min ex ey))
             - cond_Zopp sy (Zpos my * 2 ^ (ey - Z.min ex ey)))
            * 2 ^ (Z.min ex ey - emin prec emax)) as Hord.
  { unfold float_ord.
    replace (ex - emin prec emax)
      with ((ex - Z.min ex ey) + (Z.min ex ey - emin prec emax)) by lia.
    replace (ey - emin prec emax)
      with ((ey - Z.min ex ey) + (Z.min ex ey - emin prec emax)) by lia.
    rewrite !pow2_split by lia.
    destruct sx, sy; cbn [cond_Zopp]; ring. }
  assert (float_ord prec emax (S754_finite sy my ey) < float_ord prec emax (S754_finite sx mx ex)) as Hlt by nia.
  apply Z.compare_lt_iff in Hlt. now rewrite Hlt.
Qed.

Lemma Zdigits2_bounds m :
  0 < m -> 0 < Zdigits2 m /\ 2 ^ (Zdigits2 m - 1) <= m < 2 ^ Zdigits2 m.
Proof.
  destruct m as [| p | p]; try lia. intros _. simpl Zdigits2.
  split; [lia | apply digits2_pos_bounds].
Qed.

Lemma Zdigits2_unique m d :
  0 < m -> 2 ^ (d - 1) <= m < 2 ^ d -> Zdigits2 m = d.
Proof.
  intros Hm [Hlo Hhi].
  destruct (Zdigits2_bounds m Hm) as (Hd & Blo & Bhi).
  assert (0 < d).
  { destruct (Z.lt_ge_cases 0 d) as [|Hneg]; [assumption|].
    destruct (Z.eq_dec d 0) as [->|]; [simpl in Hhi; lia|].
    rewrite Z.pow_neg_r in Hhi by lia. lia. }
  assert (Zdigits2 m - 1 < d).
  { apply (Z.pow_lt_mono_r_iff 2); lia. }
  assert (d - 1 < Zdigits2 m).
  { apply (Z.pow_lt_mono_r_iff 2); lia. }
  lia.
Qed.

Lemma Zdigits2_mono m n : 0 < m -> m <= n -> Zdigits2 m <= Zdigits2 n.
Proof.
  intros Hm Hmn.
  destruct (Zdigits2_bounds m Hm) as (Hd & Blo & Bhi).
  destruct (Zdigits2_bounds n ltac:(lia)) as (Hd' & Blo' & Bhi').
  assert (Zdigits2 m - 1 < Zdigits2 n).
  { apply (Z.pow_lt_mono_r_iff 2); lia. }
  lia.
Qed.

Lemma iter_pos_swap {A} (f : A -> A) n x :
  iter_pos f n (f x) = f (iter_pos f n x).
Proof.
  revert x. induction n as [n IH | n IH |]; intros x; simpl.
  - now rewrite !IH.
  - now rewrite !IH.
  - reflexivity.
Qed.

Lemma iter_pos_succ {A} (f : A -> A) n x :
  iter_pos f (Pos.succ n) x = f (iter_pos f n x).
Proof.
  revert x. induction n as [n IH | n IH |]; intros x; simpl.
  - rewrite !IH. now rewrite !iter_pos_swap.
  - now rewrite !iter_pos_swap.
  - reflexivity.
Qed.

Lemma shr_1_m mrs : 0 <= shr_m mrs -> shr_m (shr_1 mrs) = shr_m mrs / 2.
Proof.
  destruct mrs as [m r s]. simpl shr_m. intros Hm.
  destruct m as [| [p | p |] | p]; try lia; simpl shr_m.
  - reflexivity.
  - rewrite Pos2Z.inj_xI. apply Z.div_unique with 1; lia.
  - rewrite Pos2Z.inj_xO. apply Z.div_unique with 0; lia.
  - reflexivity.
Qed.

Lemma shr_iter_m n mrs :
  0 <= shr_m mrs -> shr_m (iter_pos shr_1 n mrs) = shr_m mrs / 2 ^ Zpos n.
Proof.
  intros Hm. induction n as [| n IH] using Pos.peano_ind.
  - simpl iter_pos. rewrite shr_1_m by assumption. reflexivity.
  - rewrite iter_pos_succ, shr_1_m, IH.
    + rewrite Pos2Z.inj_succ, Z.pow_succ_r by lia.
      rewrite Z.div_div by (try apply Z.pow_pos_nonneg; lia).
      f_equal. lia.
    + rewrite IH. apply Z.div_pos; [assumption | apply Z.pow_pos_nonneg; lia].
Qed.

Lemma shr_record_of_loc_m m l : shr_m (shr_record_of_loc m l) = m.
Proof. destruct l as [| []]; reflexivity. Qed.

Lemma shr_fexp_spec m e l :
  0 <= m ->
  let n := Z.max 0 (fexp prec emax (Zdigits2 m + e) - e) in
  shr_m (fst (shr_fexp prec emax m e l)) = m / 2 ^ n /\
  snd (shr_fexp prec emax m e l) = e + n.
Proof.
  intros Hm n. unfold shr_fexp, shr. subst n.
  destruct (fexp prec emax (Zdigits2 m + e) - e) as [| p | p] eqn:Hn; simpl fst; simpl snd.
  - rewrite shr_record_of_loc_m. simpl. rewrite Z.div_1_r. lia.
  - rewrite shr_iter_m by (rewrite shr_record_of_loc_m; assumption).
    rewrite shr_record_of_loc_m. replace (Z.max 0 (Zpos p)) with (Zpos p) by lia.
    split; reflexivity.
  - rewrite shr_record_of_loc_m. replace (Z.max 0 (Zneg p)) with 0 by lia.
    simpl. rewrite Z.div_1_r. lia.
Qed.

Lemma fexp_mono a b : a <= b -> fexp prec emax a <= fexp prec emax b.
Proof. unfold fexp. lia. Qed.

Lemma fexp_ge_emin a : emin prec emax <= fexp prec emax a.
Proof. unfold fexp. lia. Qed.

(** After the right shift the mantissa is canonical for its exponent. *)
Lemma shifted_canonical m e :
  0 < m -> e <= fexp prec emax (Zdigits2 m + e) ->
  let e' := fexp prec emax (Zdigits2 m + e) in
  let m' := m / 2 ^ (e' - e) in
  0 <= m' /\
  (0 < m' -> fexp prec emax (Zdigits2 m' + e') = e') /\
  (m' = 0 -> e' = emin prec emax).
Proof.
  intros Hm He e' m'.
  destruct (Zdigits2_bounds m Hm) as (Hd & Blo & Bhi).
  assert (0 < 2 ^ (e' - e)) as Hp by (apply Z.pow_pos_nonneg; lia).
  assert (0 <= m') as Hm' by (apply Z.div_pos; lia).
  split; [assumption|]. split.
  - intros Hpos.
    assert (e' - e < Zdigits2 m) as Hn.
    { destruct (Z.lt_ge_cases (e' - e) (Zdigits2 m)) as [|Hge]; [assumption|].
      assert (2 ^ Zdigits2 m <= 2 ^ (e' - e)) by (apply Z.pow_le_mono_r; lia).
      unfold m' in Hpos. rewrite Z.div_small in Hpos by lia. lia. }
    assert (Zdigits2 m' = Zdigits2 m - (e' - e)) as Hdig.
    { apply Zdigits2_unique; [assumption|]. unfold m'. split.
      - apply Z.div_le_lower_bound; [assumption|].
        rewrite <- Z.pow_add_r by lia.
        replace (e' - e + (Zdigits2 m - (e' - e) - 1)) with (Zdigits2 m - 1) by lia.
        assumption.
      - apply Z.div_lt_upper_bound; [assumption|].
        rewrite <- Z.pow_add_r by lia.
        replace (e' - e + (Zdigits2 m - (e' - e))) with (Zdigits2 m) by lia.
        assumption. }
    rewrite Hdig. replace (Zdigits2 m - (e' - e) + e') with (Zdigits2 m + e) by lia.
    reflexivity.
  - intros Hz.
    assert (Zdigits2 m <= e' - e) as Hn.
    { destruct (Z.lt_ge_cases (e' - e) (Zdigits2 m)) as [Hlt|]; [|lia].
      assert (2 ^ (e' - e) <= 2 ^ (Zdigits2 m - 1)) by (apply Z.pow_le_mono_r; lia).
      assert (1 <= m') by (unfold m'; apply Z.div_le_lower_bound; lia).
      lia. }
    unfold e', fexp in *. lia.
Qed.

Lemma round_nearest_even_range m l :
  round_nearest_even m l = m \/ round_nearest_even m l = m + 1.
Proof.
  destruct l as [| []]; simpl; auto. destruct (Z.even m); auto.
Qed.

Theorem binary_round_aux_valid sx mx ex lx :
  0 < mx -> ex <= fexp prec emax (Zdigits2 mx + ex) ->
  valid_binary prec emax (binary_round_aux prec emax sx mx ex lx) = true.
Proof.
  intros Hm He. unfold binary_round_aux.
  destruct (shr_fexp_spec mx ex lx ltac:(lia)) as [Hm1 He1].
  destruct (shr_fexp prec emax mx ex lx) as [mrs' e'].
  simpl fst in Hm1; simpl snd in He1.
  replace (Z.max 0 (fexp prec emax (Zdigits2 mx + ex) - ex))
    with (fexp prec emax (Zdigits2 mx + ex) - ex) in Hm1, He1 by lia.
  destruct (shifted_canonical mx ex Hm He) as (Hm'0 & Hcan & Hzero).
  rewrite <- Hm1 in Hm'0, Hcan, Hzero.
  replace (fexp prec emax (Zdigits2 mx + ex)) with e' in Hcan, Hzero by lia.
  set (m2 := round_nearest_even (shr_m mrs') (loc_of_shr_record mrs')).
  assert (shr_m mrs' <= m2 <= shr_m mrs' + 1) as Hm2.
  { destruct (round_nearest_even_range (shr_m mrs') (loc_of_shr_record mrs'))
      as [H | H]; fold m2 in H; lia. }
  destruct (shr_fexp_spec m2 e' loc_Exact ltac:(lia)) as [Hm3 He3].
  destruct (shr_fexp prec emax m2 e' loc_Exact) as [mrs'' e''].
  simpl fst in Hm3; simpl snd in He3.
  destruct (shr_m mrs'') as [| p | p] eqn:Hp; try reflexivity.
  destruct (Z.leb_spec e'' (emax - prec)) as [Hle|]; [|reflexivity].
  simpl. unfold bounded, canonical_mantissa.
  rewrite andb_true_iff, Z.eqb_eq, Z.leb_le. split; [|assumption].
  assert (0 < m2) as Hm2pos.
  { destruct (Z.eq_dec m2 0) as [Hz|]; [|lia].
    rewrite Hz in Hm3. rewrite Z.div_0_l in Hm3; [lia|].
    apply Z.pow_nonzero; lia. }
  assert (e' <= fexp prec emax (Zdigits2 m2 + e')) as He2.
  { destruct (Z.eq_dec (shr_m mrs') 0) as [Hz|Hnz].
    - rewrite (Hzero Hz). apply fexp_ge_emin.
    - rewrite <- (Hcan ltac:(lia)) at 1. apply fexp_mono.
      pose proof (Zdigits2_mono (shr_m mrs') m2 ltac:(lia) ltac:(lia)). lia. }
  destruct (shifted_canonical m2 e' Hm2pos He2) as (_ & Hcan2 & _).
  replace (Z.max 0 (fexp prec emax (Zdigits2 m2 + e') - e'))
    with (fexp prec emax (Zdigits2 m2 + e') - e') in Hm3, He3 by lia.
  rewrite <- Hm3 in Hcan2.
  replace (fexp prec emax (Zdigits2 m2 + e')) with e'' in Hcan2 by lia.
  apply (Hcan2 ltac:(lia)).
Qed.

Theorem binary_round_valid sx mx ex :
  valid_binary prec emax (binary_round prec emax sx mx ex) = true.
Proof.
  unfold binary_round, shl_align.
  set (fe := fexp prec emax (Zpos (digits2_pos mx) + ex)).
  destruct (fe - ex) as [| d | d] eqn:Hd.
  - apply binary_round_aux_valid; [lia|]. simpl Zdigits2. fold fe. lia.
  - apply binary_round_aux_valid; [lia|]. simpl Zdigits2. fold fe. lia.
  - apply binary_round_aux_valid; [lia|].
    assert (Zdigits2 (Zpos (Pos.iter xO mx d)) = Zpos (digits2_pos mx) + Zpos d) as Hdig.
    { apply Zdigits2_unique; [lia|]. rewrite iter_xO.
      pose proof (digits2_pos_bounds mx) as [Blo Bhi].
      assert (0 < 2 ^ Zpos d) by (apply Z.pow_pos_nonneg; lia).
      replace (Zpos (digits2_pos mx) + Zpos d - 1)
        with ((Zpos (digits2_pos mx) - 1) + Zpos d) by lia.
      rewrite !Z.pow_add_r by lia. nia. }
    rewrite Hdig.
    replace (Zpos (digits2_pos mx) + Zpos d + fe) with (Zpos (digits2_pos mx) + ex) by lia.
    fold fe. lia.
Qed.

Theorem binary_normalize_valid m e s :
  valid_binary prec emax (binary_normalize prec emax m e s) = true.
Proof.
  destruct m; simpl; [reflexivity | apply binary_round_valid ..].
Qed.

Theorem SFsub_valid x y :
  valid_binary prec emax x = true -> valid_binary prec emax y = true ->
  valid_binary prec emax (SFsub prec emax x y) = true.
Proof.
  intros Vx Vy.
  destruct x as [sx | sx | | sx mx ex], y as [sy | sy | | sy my ey];
    try reflexivity; try assumption;
    try (destruct sx, sy; reflexivity).
  apply binary_normalize_valid.
Qed.

Theorem binary_round_aux_not_nan sx mx ex lx :
  0 < mx -> is_nan (binary_round_aux prec emax sx mx ex lx) = false.
Proof.
  intros Hm. unfold binary_round_aux.
  destruct (shr_fexp_spec mx ex lx ltac:(lia)) as [Hm1 _].
  destruct (shr_fexp prec emax mx ex lx) as [mrs' e']. simpl fst in Hm1.
  assert (0 <= shr_m mrs') as Hm1'.
  { rewrite Hm1. apply Z.div_pos; [lia | apply Z.pow_pos_nonneg; lia]. }
  set (m2 := round_nearest_even (shr_m mrs') (loc_of_shr_record mrs')).
  assert (0 <= m2) as Hm2.
  { destruct (round_nearest_even_range (shr_m mrs') (loc_of_shr_record mrs'))
      as [H | H]; fold m2 in H; lia. }
  destruct (shr_fexp_spec m2 e' loc_Exact Hm2) as [Hm3 _].
  destruct (shr_fexp prec emax m2 e' loc_Exact) as [mrs'' e'']. simpl fst in Hm3.
  assert (0 <= shr_m mrs'') as Hm3'.
  { rewrite Hm3. apply Z.div_pos; [lia | apply Z.pow_pos_nonneg; lia]. }
  destruct (shr_m mrs'') as [| p | p]; [reflexivity | | lia].
  destruct (e'' <=? emax - prec); reflexivity.
Qed.

Theorem binary_normalize_not_nan m e s :
  is_nan (binary_normalize prec emax m e s) = false.
Proof.
  destruct m as [| p | p]; simpl; [reflexivity | |];
    unfold binary_round; destruct (shl_align p e _) as [mz ez];
    apply binary_round_aux_not_nan; lia.
Qed.

Theorem SFsub_not_nan x y :
  is_finite x = true -> is_nan y = false ->
  is_nan (SFsub prec emax x y) = false.
Proof.
  intros Fx Ny.
  destruct x as [sx | sx | | sx mx ex], y as [sy | sy | | sy my ey];
    try discriminate; try reflexivity;
    try (destruct sx, sy; reflexivity).
  apply binary_normalize_not_nan.
Qed.
End FloatFacts.

(** ** Constants *)

(** The constants are the expected bit patterns ([0.18] is
    [0x1.70a3d70a3d70ap-3], and so on). *)
Example HOLD_SEC_bits : HOLD_SEC = S754_finite false 6485183463413514 (-55).
Proof. vm_compute. reflexivity. Qed.
Example MODEL_CONF_MIN_bits :
  MODEL_CONF_MIN = S754_finite false 7205759403792794 (-55).
Proof. vm_compute. reflexivity. Qed.
Example YIN_WIN_SEC_bits :
  YIN_WIN_SEC = S754_finite false 5404319552844595 (-55).
Proof. vm_compute. reflexivity. Qed.
Example OFFSET_SEC_bits :
  OFFSET_SEC = S754_finite false 8646911284551352 (-58).
Proof. vm_compute. reflexivity. Qed.
Example FLASH_DURATION_bits :
  FLASH_DURATION = S754_finite false 4503599627370496 (-54).
Proof. vm_compute. reflexivity. Qed.
Example f32_003_bits : F32.lit 3 100 = S754_finite false 16106127 (-29).
Proof. vm_compute. reflexivity. Qed.
Example f32_78399_bits : F32.lit 78399 100 = S754_finite false 12844892 (-14).
Proof. vm_compute. reflexivity. Qed.

Example FREQS_bits :
  FREQS
  = [ S754_finite false 12844892 (-14); S754_finite false 10801152 (-14);
      S754_finite false 9622815 (-14); S754_finite false 8572928 (-14);
      S754_finite false 14417920 (-15); S754_finite false 12845056 (-15);
      S754_finite false 10801316 (-15); S754_finite false 9622651 (-15);
      S754_finite false 8573092 (-15); S754_finite false 14417920 (-16);
      S754_finite false 12845056 (-16); S754_finite false 10800988 (-16);
      S754_finite false 9622651 (-16); S754_finite false 8572764 (-16);
      S754_finite false 14417920 (-17); S754_finite false 12845056 (-17) ].
Proof. vm_compute. reflexivity. Qed.

Example THR_ARRAY_bits :
  THR_ARRAY
  = list_set (repeat (S754_finite false 8388608 (-25)) 16) 11
      (S754_finite false 16106127 (-29)).
Proof. vm_compute. reflexivity. Qed.

Example CLIP_SAMPLES_value : CLIP_SAMPLES = 12800.
Proof. vm_compute. reflexivity. Qed.

Lemma f64_compare x y :
  F64.valid x = true -> F64.valid y = true ->
  is_nan x = false -> is_nan y = false ->
  SFcompare x y
  = Some (float_ord F64.prec F64.emax x ?= float_ord F64.prec F64.emax y).
Proof. apply SFcompare_ord; reflexivity. Qed.

Lemma f32_compare x y :
  F32.valid x = true -> F32.valid y = true ->
  is_nan x = false -> is_nan y = false ->
  SFcompare x y
  = Some (float_ord F32.prec F32.emax x ?= float_ord F32.prec F32.emax y).
Proof. apply SFcompare_ord; reflexivity. Qed.

(** ** The value a rounding returns *)

Section RoundingValue.
Variables prec emax : Z.
Hypothesis prec_pos : 0 < prec.
Hypothesis prec_lt_emax : prec < emax.

Lemma shr_1_spec m r s :
  0 <= m ->
  shr_1 {| shr_m := m; shr_r := r; shr_s := s |}
  = {| shr_m := m / 2; shr_r := Z.odd m; shr_s := r || s |}.
Proof.
  intros Hm. destruct m as [| [p | p |] | p]; try lia.
  - reflexivity.
  - assert (Z.pos p~1 / 2 = Z.pos p) as ->
      by (symmetry; apply Z.div_unique with 1; lia).
    reflexivity.
  - assert (Z.pos p~0 / 2 = Z.pos p) as ->
      by (symmetry; apply Z.div_unique with 0; lia).
    reflexivity.
  - reflexivity.
Qed.

(** After [n] right shifts of [m] the record holds the quotient and how
    the remainder compares with half the divisor. *)
Lemma shr_iter_flags n m :
  0 <= m ->
  iter_pos shr_1 n {| shr_m := m; shr_r := false; shr_s := false |}
  = {| shr_m := m / 2 ^ Zpos n;
       shr_r := 2 ^ (Zpos n - 1) <=? m mod 2 ^ Zpos n;
       shr_s := negb (m mod 2 ^ Zpos n =? 0)
                && negb (m mod 2 ^ Zpos n =? 2 ^ (Zpos n - 1)) |}.
Proof.
  intros Hm. induction n as [| n IH] using Pos.peano_ind.
  - cbn [iter_pos]. rewrite shr_1_spec by assumption.
    change (2 ^ 1) with 2. change (2 ^ (1 - 1)) with 1.
    rewrite (Zmod_odd m). destruct (Z.odd m); reflexivity.
  - rewrite iter_pos_succ, IH.
    assert (0 < 2 ^ Zpos n) as Hp by (apply Z.pow_pos_nonneg; lia).
    assert (0 < 2 ^ (Zpos n - 1)) as Hh by (apply Z.pow_pos_nonneg; lia).
    assert (2 ^ Zpos n = 2 * 2 ^ (Zpos n - 1)) as Hd.
    { rewrite <- Z.pow_succ_r by lia. f_equal. lia. }
    rewrite shr_1_spec by (apply Z.div_pos; lia).
    rewrite Pos2Z.inj_succ.
    replace (Z.succ (Zpos n) - 1) with (Zpos n) by lia.
    rewrite Z.pow_succ_r by lia.
    rewrite (Z.mul_comm 2 (2 ^ Zpos n)).
    rewrite Z.div_div by lia.
    rewrite (Z.rem_mul_r m (2 ^ Zpos n) 2) by lia.
    rewrite (Zmod_odd (m / 2 ^ Zpos n)).
    pose proof (Z.mod_pos_bound m (2 ^ Zpos n) Hp) as Hr.
    set (rho := m mod 2 ^ Zpos n) in *.
    set (half := 2 ^ (Zpos n - 1)) in *.
    f_equal.
    + destruct (Z.odd (m / 2 ^ Zpos n)).
      * symmetry. apply Z.leb_le. lia.
      * symmetry. apply Z.leb_gt. lia.
    + destruct (Z.odd (m / 2 ^ Zpos n));
        destruct (Z.leb_spec half rho), (Z.eqb_spec rho 0),
          (Z.eqb_spec rho half);
        cbn [negb andb orb]; try lia;
        repeat match goal with
               | |- context [?a =? ?b] => destruct (Z.eqb_spec a b)
               end; cbn [negb andb]; try reflexivity; lia.
Qed.

(** Rounding the shifted mantissa to nearest, ties to even, stays within
    half a unit of the last place and is exact on multiples. *)
Lemma round_shift n m :
  0 <= m ->
  let mrs := iter_pos shr_1 n {| shr_m := m; shr_r := false; shr_s := false |} in
  let m1 := round_nearest_even (shr_m mrs) (loc_of_shr_record mrs) in
  2 * Z.abs (m1 * 2 ^ Zpos n - m) <= 2 ^ Zpos n
  /\ (m mod 2 ^ Zpos n = 0 -> m1 * 2 ^ Zpos n = m)
  /\ m / 2 ^ Zpos n <= m1 <= m / 2 ^ Zpos n + 1.
Proof.
  intros Hm mrs m1. subst m1 mrs. rewrite shr_iter_flags by assumption.
  assert (0 < 2 ^ Zpos n) as Hp by (apply Z.pow_pos_nonneg; lia).
  assert (0 < 2 ^ (Zpos n - 1)) as Hh by (apply Z.pow_pos_nonneg; lia).
  assert (2 ^ Zpos n = 2 * 2 ^ (Zpos n - 1)) as Hd.
  { rewrite <- Z.pow_succ_r by lia. f_equal. lia. }
  pose proof (Z.mod_pos_bound m (2 ^ Zpos n) Hp) as Hr.
  pose proof (Z.div_mod m (2 ^ Zpos n) ltac:(lia)) as Hdm.
  set (rho := m mod 2 ^ Zpos n) in *.
  set (q := m / 2 ^ Zpos n) in *.
  set (half := 2 ^ (Zpos n - 1)) in *.
  cbn [shr_m loc_of_shr_record].
  destruct (Z.leb_spec half rho), (Z.eqb_spec rho 0), (Z.eqb_spec rho half);
    cbn [negb andb round_nearest_even]; try lia;
    try (destruct (Z.even q)); nia.
Qed.

Lemma fexp_succ_le a : fexp prec emax (a + 1) <= fexp prec emax a + 1.
Proof. unfold fexp. lia. Qed.

(** The renormalisation after rounding loses nothing: the rounded
    mantissa either keeps its number of digits or is a power of two. *)
Lemma carry_exact m' m1 E :
  0 <= m' -> (0 < m' -> fexp prec emax (Zdigits2 m' + E) = E) ->
  (m' = 0 -> E = emin prec emax) ->
  m' <= m1 <= m' + 1 -> 0 < m1 ->
  E <= fexp prec emax (Zdigits2 m1 + E)
  /\ m1 mod 2 ^ (fexp prec emax (Zdigits2 m1 + E) - E) = 0.
Proof.
  intros Hm' Hcan Hzero Hm1 Hpos.
  destruct (Z.eq_dec m' 0) as [Hz | Hnz].
  - assert (m1 = 1) as -> by lia. rewrite (Hzero Hz).
    change (Zdigits2 1) with 1. unfold fexp.
    replace (Z.max (1 + emin prec emax - prec) (emin prec emax))
      with (emin prec emax) by lia.
    rewrite Z.sub_diag. split; [lia | reflexivity].
  - specialize (Hcan ltac:(lia)).
    destruct (Zdigits2_bounds m' ltac:(lia)) as (Hd & Blo & Bhi).
    destruct (Z.eq_dec m1 (2 ^ Zdigits2 m')) as [Hpow | Hnp].
    + assert (Zdigits2 m1 = Zdigits2 m' + 1) as Hdig.
      { apply Zdigits2_unique; [lia|]. rewrite Hpow.
        replace (Zdigits2 m' + 1 - 1) with (Zdigits2 m') by lia.
        rewrite Z.pow_add_r by lia. lia. }
      rewrite Hdig.
      replace (Zdigits2 m' + 1 + E) with (Zdigits2 m' + E + 1) by lia.
      pose proof (fexp_succ_le (Zdigits2 m' + E)) as Hs.
      pose proof (fexp_mono prec emax (Zdigits2 m' + E) (Zdigits2 m' + E + 1)
                    ltac:(lia)) as Hm.
      rewrite Hcan in Hs, Hm. split; [assumption|].
      set (n2 := fexp prec emax (Zdigits2 m' + E + 1) - E).
      assert (n2 = 0 \/ n2 = 1) as [-> | ->] by lia.
      * apply Z.mod_1_r.
      * rewrite Hpow. change (2 ^ 1) with 2.
        replace (Zdigits2 m') with (Z.succ (Zdigits2 m' - 1)) by lia.
        rewrite Z.pow_succ_r by lia. rewrite Z.mul_comm. apply Z.mod_mul. lia.
    + assert (Zdigits2 m1 = Zdigits2 m') as Hdig.
      { apply Zdigits2_unique; [lia|]. lia. }
      rewrite Hdig, Hcan, Z.sub_diag. split; [lia | apply Z.mod_1_r].
Qed.

(** [binary_round_aux] on an exact input: the result is the nearest
    multiple of the unit in the last place, and the input itself when it
    is such a multiple. *)
Lemma round_aux_value m e :
  0 < m -> e <= fexp prec emax (Zdigits2 m + e) ->
  exists m1,
    0 <= m1
    /\ 2 * Z.abs (m1 * 2 ^ (fexp prec emax (Zdigits2 m + e) - e) - m)
       <= 2 ^ (fexp prec emax (Zdigits2 m + e) - e)
    /\ (m mod 2 ^ (fexp prec emax (Zdigits2 m + e) - e) = 0 ->
        m1 * 2 ^ (fexp prec emax (Zdigits2 m + e) - e) = m)
    /\ (m1 * 2 ^ (fexp prec emax (Zdigits2 m + e) - emin prec emax)
        < 2 ^ (emax - emin prec emax) ->
        is_finite (binary_round_aux prec emax false m e loc_Exact) = true
        /\ sign_bit (binary_round_aux prec emax false m e loc_Exact) = false
        /\ float_ord prec emax (binary_round_aux prec emax false m e loc_Exact)
           = m1 * 2 ^ (fexp prec emax (Zdigits2 m + e) - emin prec emax)).
Proof.
  intros Hm He.
  set (E := fexp prec emax (Zdigits2 m + e)) in *.
  destruct (shifted_canonical prec emax prec_pos m e Hm He) as (Hm'0 & Hcan & Hzero).
  fold E in Hm'0, Hcan, Hzero.
  assert (emin prec emax <= E) as HE by apply fexp_ge_emin.
  assert (0 < 2 ^ (E - e)) as Hpn by (apply Z.pow_pos_nonneg; lia).
  (* the first shift and the rounding *)
  assert (exists mrs',
            shr_fexp prec emax m e loc_Exact = (mrs', E)
            /\ let m1 := round_nearest_even (shr_m mrs') (loc_of_shr_record mrs') in
               2 * Z.abs (m1 * 2 ^ (E - e) - m) <= 2 ^ (E - e)
               /\ (m mod 2 ^ (E - e) = 0 -> m1 * 2 ^ (E - e) = m)
               /\ m / 2 ^ (E - e) <= m1 <= m / 2 ^ (E - e) + 1) as (mrs' & Hshr & Hround).
  { unfold shr_fexp, shr. fold E.
    destruct (E - e) as [| p | p] eqn:Hn; [| | lia].
    - eexists. split; [f_equal; lia|].
      cbn [shr_record_of_loc shr_m loc_of_shr_record round_nearest_even].
      change (2 ^ 0) with 1. rewrite Z.div_1_r. split; [lia|]. split; lia.
    - eexists. split; [f_equal; lia|].
      apply (round_shift p m). lia. }
  rewrite <- (Z.abs_eq (2 ^ (E - e))) in Hpn at 1 by lia.
  set (m1 := round_nearest_even (shr_m mrs') (loc_of_shr_record mrs')) in *.
  destruct Hround as (Hb & Hex & Hrange).
  exists m1. split; [lia|]. split; [assumption|]. split; [assumption|].
  intros Hov. unfold binary_round_aux. rewrite Hshr. fold m1.
  destruct (shr_fexp_spec prec emax m1 E loc_Exact ltac:(lia)) as [Hm3 He3].
  destruct (Z.eq_dec m1 0) as [Hz | Hnz].
  - destruct (shr_fexp prec emax m1 E loc_Exact) as [mrs'' e''].
    cbn [fst snd] in Hm3. rewrite Hz, Z.div_0_l in Hm3
      by (apply Z.pow_nonzero; lia).
    rewrite Hm3, Hz. cbn. repeat split.
  - assert (0 < m1) as Hpos by lia.
    destruct (carry_exact (m / 2 ^ (E - e)) m1 E Hm'0 Hcan Hzero Hrange Hpos)
      as [He2 Hdiv].
    destruct (shifted_canonical prec emax prec_pos m1 E Hpos He2) as (_ & Hcan2 & _).
    set (E2 := fexp prec emax (Zdigits2 m1 + E)) in *.
    replace (Z.max 0 (E2 - E)) with (E2 - E) in Hm3, He3 by lia.
    destruct (shr_fexp prec emax m1 E loc_Exact) as [mrs'' e''].
    cbn [fst snd] in Hm3, He3.
    assert (0 < 2 ^ (E2 - E)) as Hp2 by (apply Z.pow_pos_nonneg; lia).
    assert (shr_m mrs'' * 2 ^ (E2 - E) = m1) as Hval.
    { rewrite Hm3. pose proof (Z.div_mod m1 (2 ^ (E2 - E)) ltac:(lia)). lia. }
    assert (0 < shr_m mrs'') as Hmf by nia.
    rewrite <- Hm3 in Hcan2. specialize (Hcan2 Hmf).
    assert (e'' = E2) as -> by lia.
    destruct (shr_m mrs'') as [| p | p] eqn:Hp; try lia.
    assert (m1 * 2 ^ (E - emin prec emax)
            = Zpos p * 2 ^ (E2 - emin prec emax)) as Hsame.
    { rewrite <- Hval.
      replace (E2 - emin prec emax) with ((E2 - E) + (E - emin prec emax)) by lia.
      rewrite Z.pow_add_r by lia. ring. }
    assert (E2 <= emax - prec) as Hle.
    { destruct (Zdigits2_bounds (Zpos p) ltac:(lia)) as (Hd & Blo & _).
      rewrite Hsame in Hov.
      assert (0 < 2 ^ (E2 - emin prec emax)) by (apply Z.pow_pos_nonneg; lia).
      assert (2 ^ (Zdigits2 (Zpos p) - 1 + (E2 - emin prec emax))
              < 2 ^ (emax - emin prec emax)) as Hlt.
      { rewrite Z.pow_add_r by lia. nia. }
      apply Z.pow_lt_mono_r_iff in Hlt; [|lia|unfold emin; lia].
      unfold fexp, emin in *. lia. }
    destruct (Z.leb_spec E2 (emax - prec)); [|lia].
    cbn [is_finite sign_bit float_ord cond_Zopp]. repeat split.
    symmetry. exact Hsame.
Qed.

Lemma Zdigits2_shift m k :
  0 < m -> 0 <= k -> Zdigits2 (m * 2 ^ k) = Zdigits2 m + k.
Proof.
  intros Hm Hk. destruct (Zdigits2_bounds m Hm) as (Hd & Blo & Bhi).
  assert (0 < 2 ^ k) by (apply Z.pow_pos_nonneg; lia).
  apply Zdigits2_unique; [nia|].
  replace (Zdigits2 m + k - 1) with ((Zdigits2 m - 1) + k) by lia.
  rewrite !Z.pow_add_r by lia. nia.
Qed.

Lemma Zdigits2_le m d : 0 < m -> 0 <= d -> m < 2 ^ d -> Zdigits2 m <= d.
Proof.
  intros Hm Hd Hlt. destruct (Zdigits2_bounds m Hm) as (Hp & Blo & _).
  assert (2 ^ (Zdigits2 m - 1) < 2 ^ d) as H by lia.
  apply Z.pow_lt_mono_r_iff in H; lia.
Qed.

Lemma Zdigits2_mul a b :
  0 < a -> 0 < b -> Zdigits2 a <= Zdigits2 (a * b) <= Zdigits2 a + Zdigits2 b.
Proof.
  intros Ha Hb.
  destruct (Zdigits2_bounds a Ha) as (Hda & _ & Bha).
  destruct (Zdigits2_bounds b Hb) as (Hdb & _ & Bhb).
  split.
  - apply Zdigits2_mono; nia.
  - apply Zdigits2_le; [nia | lia |]. rewrite Z.pow_add_r by lia. nia.
Qed.

Lemma fits_multiple a k :
  0 <= a -> 0 <= k -> a < 2 ^ prec -> fits_in prec (a * 2 ^ k).
Proof.
  intros Ha Hk Hlt. unfold fits_in.
  destruct (Z.eq_dec a 0) as [-> | Hnz]; [now rewrite Z.mul_0_l, Zmod_0_l|].
  rewrite Zdigits2_shift by lia.
  assert (Zdigits2 a <= prec) by (apply Zdigits2_le; lia).
  set (n := Z.max 0 (Zdigits2 a + k - prec)).
  replace k with ((k - n) + n) at 1 by lia.
  rewrite Z.pow_add_r by lia. rewrite Z.mul_assoc. apply Z.mod_mul.
  apply Z.pow_nonzero; lia.
Qed.

Lemma fin_value x :
  nonneg_finite prec emax x -> 0 <= float_ord prec emax x < 2 ^ (emax - emin prec emax).
Proof.
  intros (V & F & S). destruct x as [s | s | | s m e]; try discriminate.
  - cbn. split; [lia | apply Z.pow_pos_nonneg; unfold emin; lia].
  - cbn in S. subst s. cbn [float_ord cond_Zopp].
    pose proof (scaled_lt_inf prec emax prec_pos m e V). lia.
Qed.

Lemma emin_nonpos : emin prec emax <= 0.
Proof. unfold emin. lia. Qed.

(** [binary_normalize] returns the nearest value of the format, and the
    value itself when the format holds it. *)
Lemma normalize_value m e :
  0 <= m -> emin prec emax <= e ->
  exists v1,
    0 <= v1
    /\ 2 * Z.abs (v1 - m * 2 ^ (e - emin prec emax))
       <= 2 ^ Z.max 0 (Zdigits2 (m * 2 ^ (e - emin prec emax)) - prec)
    /\ (fits_in prec (m * 2 ^ (e - emin prec emax)) ->
        v1 = m * 2 ^ (e - emin prec emax))
    /\ (v1 < 2 ^ (emax - emin prec emax) ->
        nonneg_finite prec emax (binary_normalize prec emax m e false)
        /\ float_ord prec emax (binary_normalize prec emax m e false) = v1).
Proof.
  intros Hm He.
  destruct m as [| p | p]; [| | lia].
  - exists 0. rewrite Z.mul_0_l. cbn [binary_normalize].
    split; [lia|]. split.
    { rewrite Z.sub_diag. cbn [Z.abs]. 
      assert (0 < 2 ^ Z.max 0 (Zdigits2 0 - prec))
        by (apply Z.pow_pos_nonneg; lia). lia. }
    split; [reflexivity|]. intros _. repeat split.
  - cbn [binary_normalize]. unfold binary_round, shl_align.
    set (fe := fexp prec emax (Zpos (digits2_pos p) + e)).
    assert (emin prec emax <= fe) as Hfe by apply fexp_ge_emin.
    assert (0 < 2 ^ (e - emin prec emax)) as Hpe
      by (apply Z.pow_pos_nonneg; lia).
    assert (Z.max 0 (Zdigits2 (Zpos p * 2 ^ (e - emin prec emax)) - prec)
            = Z.max 0 (fe - emin prec emax) ) as Hulp.
    { rewrite Zdigits2_shift by lia. cbn [Zdigits2]. unfold fe, fexp. lia. }
    rewrite Hulp.
    destruct (fe - e) as [| d | d] eqn:Hd.
    + (* already aligned *)
      assert (fe = e) as Hfe' by lia.
      destruct (round_aux_value (Zpos p) e ltac:(lia)) as (m1 & H0 & Hb & Hex & Hres).
      { cbn [Zdigits2]. fold fe. lia. }
      cbn [Zdigits2] in Hb, Hex, Hres. fold fe in Hb, Hex, Hres.
      rewrite Hfe', Z.sub_diag in Hb, Hex. change (2 ^ 0) with 1 in Hb, Hex.
      rewrite Z.mul_1_r in Hb, Hex. rewrite Z.mod_1_r in Hex.
      specialize (Hex eq_refl). subst m1. rewrite Hfe' in Hres.
      exists (Zpos p * 2 ^ (e - emin prec emax)).
      split; [lia|]. split.
      { rewrite Z.sub_diag. cbn [Z.abs].
        assert (0 < 2 ^ Z.max 0 (fe - emin prec emax))
          by (apply Z.pow_pos_nonneg; lia). lia. }
      split; [reflexivity|]. intros Hov. destruct (Hres Hov) as (F & S & Vv).
      split; [|exact Vv]. split; [|split; assumption].
      apply binary_round_aux_valid; [assumption | lia |].
      cbn [Zdigits2]. fold fe. lia.
    + (* the mantissa is shifted right *)
      destruct (round_aux_value (Zpos p) e ltac:(lia)) as (m1 & H0 & Hb & Hex & Hres).
      { cbn [Zdigits2]. fold fe. lia. }
      cbn [Zdigits2] in Hb, Hex, Hres. fold fe in Hb, Hex, Hres.
      assert (0 < 2 ^ (fe - e)) as Hpn by (apply Z.pow_pos_nonneg; lia).
      assert (2 ^ (fe - emin prec emax)
              = 2 ^ (fe - e) * 2 ^ (e - emin prec emax)) as Hsplit.
      { rewrite <- Z.pow_add_r by lia. f_equal. lia. }
      exists (m1 * 2 ^ (fe - emin prec emax)).
      split; [apply Z.mul_nonneg_nonneg; [lia | apply Z.pow_nonneg; lia]|].
      replace (Z.max 0 (fe - emin prec emax)) with (fe - emin prec emax) by lia.
      split.
      { rewrite Hsplit.
        replace (m1 * (2 ^ (fe - e) * 2 ^ (e - emin prec emax))
                 - Zpos p * 2 ^ (e - emin prec emax))
          with ((m1 * 2 ^ (fe - e) - Zpos p) * 2 ^ (e - emin prec emax)) by ring.
        rewrite Z.abs_mul, (Z.abs_eq (2 ^ (e - emin prec emax))) by lia. nia. }
      split.
      { intros Hfit. unfold fits_in in Hfit. rewrite Hulp in Hfit.
        replace (Z.max 0 (fe - emin prec emax)) with (fe - emin prec emax)
          in Hfit by lia.
        rewrite Hsplit in Hfit.
        rewrite Z.mul_mod_distr_r in Hfit by lia.
        assert (Zpos p mod 2 ^ (fe - e) = 0) as Hdiv by nia.
        rewrite Hsplit, Z.mul_assoc, (Hex Hdiv). reflexivity. }
      intros Hov. destruct (Hres Hov) as (F & S & Vv).
      split; [|exact Vv]. split; [|split; assumption].
      apply binary_round_aux_valid; [assumption | lia |].
      cbn [Zdigits2]. fold fe. lia.
    + (* the mantissa is shifted left *)
      assert (Zpos (Pos.iter xO p d) = Zpos p * 2 ^ (e - fe)) as Hmz.
      { rewrite iter_xO. f_equal. f_equal. lia. }
      assert (Zdigits2 (Zpos (Pos.iter xO p d)) + fe = Zpos (digits2_pos p) + e)
        as Hdig.
      { rewrite Hmz, Zdigits2_shift by lia. cbn [Zdigits2]. lia. }
      destruct (round_aux_value (Zpos (Pos.iter xO p d)) fe ltac:(lia))
        as (m1 & H0 & Hb & Hex & Hres).
      { rewrite Hdig. fold fe. lia. }
      rewrite Hdig in Hb, Hex, Hres. fold fe in Hb, Hex, Hres.
      rewrite Z.sub_diag in Hb, Hex. change (2 ^ 0) with 1 in Hb, Hex.
      rewrite Z.mul_1_r in Hb, Hex. rewrite Z.mod_1_r in Hex.
      specialize (Hex eq_refl). subst m1.
      assert (Zpos (Pos.iter xO p d) * 2 ^ (fe - emin prec emax)
              = Zpos p * 2 ^ (e - emin prec emax)) as Hv.
      { rewrite Hmz, <- Z.mul_assoc, <- Z.pow_add_r by lia.
        f_equal. f_equal. lia. }
      rewrite Hv in Hres.
      exists (Zpos p * 2 ^ (e - emin prec emax)).
      split; [lia|]. split.
      { rewrite Z.sub_diag. cbn [Z.abs].
        assert (0 < 2 ^ Z.max 0 (fe - emin prec emax))
          by (apply Z.pow_pos_nonneg; lia). lia. }
      split; [reflexivity|]. intros Hov. destruct (Hres Hov) as (F & S & Vv).
      split; [|exact Vv]. split; [|split; assumption].
      apply binary_round_aux_valid; [assumption | lia |].
      rewrite Hdig. fold fe. lia.
Qed.

Lemma normalize_exact m e :
  0 <= m -> emin prec emax <= e ->
  fits_in prec (m * 2 ^ (e - emin prec emax)) ->
  m * 2 ^ (e - emin prec emax) < 2 ^ (emax - emin prec emax) ->
  nonneg_finite prec emax (binary_normalize prec emax m e false)
  /\ float_ord prec emax (binary_normalize prec emax m e false)
     = m * 2 ^ (e - emin prec emax).
Proof.
  intros Hm He Hfit Hov.
  destruct (normalize_value m e Hm He) as (v1 & _ & _ & Hex & Hres).
  rewrite (Hex Hfit) in Hres. apply Hres, Hov.
Qed.

Lemma finite_value s m e :
  emin prec emax <= e ->
  float_ord prec emax (S754_finite s m e)
  = cond_Zopp s (Zpos m * 2 ^ (e - emin prec emax)).
Proof. reflexivity. Qed.

(** Subtraction is exact when the format holds the difference. *)
Lemma sub_exact x y :
  nonneg_finite prec emax x -> nonneg_finite prec emax y ->
  float_ord prec emax y <= float_ord prec emax x ->
  fits_in prec (float_ord prec emax x - float_ord prec emax y) ->
  nonneg_finite prec emax (SFsub prec emax x y)
  /\ float_ord prec emax (SFsub prec emax x y)
     = float_ord prec emax x - float_ord prec emax y.
Proof.
  intros Fx Fy Hle Hfit.
  pose proof (fin_value x Fx) as Bx. pose proof (fin_value y Fy) as By'.
  destruct Fx as (Vx & Fx & Sx), Fy as (Vy & Fy & Sy).
  destruct x as [sx | sx | | sx mx ex], y as [sy | sy | | sy my ey];
    try discriminate; cbn in Sx, Sy; subst.
  - cbn. repeat split.
  - cbn in Vy. pose proof (scaled_lt_inf prec emax prec_pos _ _ Vy).
    cbn [float_ord cond_Zopp] in *. lia.
  - cbn [SFsub]. change (float_ord prec emax (S754_zero false)) with 0.
    rewrite Z.sub_0_r.
    split; [repeat split; assumption | reflexivity].
  - cbn [SFsub]. cbn [cond_Zopp].
    cbn in Vx, Vy.
    pose proof (bounded_inv prec emax _ _ Vx) as (Hex & _).
    pose proof (bounded_inv prec emax _ _ Vy) as (Hey & _).
    rewrite !shl_align_fst by lia.
    set (ez := Z.min ex ey) in *.
    assert (float_ord prec emax (S754_finite false mx ex)
            - float_ord prec emax (S754_finite false my ey)
            = (Zpos mx * 2 ^ (ex - ez) - Zpos my * 2 ^ (ey - ez))
              * 2 ^ (ez - emin prec emax)) as Hval.
    { cbn [float_ord cond_Zopp].
      replace (ex - emin prec emax) with ((ex - ez) + (ez - emin prec emax)) by lia.
      replace (ey - emin prec emax) with ((ey - ez) + (ez - emin prec emax)) by lia.
      rewrite !Z.pow_add_r by lia. ring. }
    rewrite Hval in *.
    assert (0 < 2 ^ (ez - emin prec emax)) by (apply Z.pow_pos_nonneg; lia).
    apply normalize_exact; [nia | lia | assumption | lia].
Qed.

(** Division is exact when the quotient is a whole number of fewer than
    [prec] digits. *)
Lemma div_exact x w q :
  nonneg_finite prec emax x -> nonneg_finite prec emax w -> 0 < float_ord prec emax w ->
  0 < q -> q < 2 ^ prec ->
  float_ord prec emax x = q * float_ord prec emax w ->
  nonneg_finite prec emax (SFdiv prec emax x w)
  /\ float_ord prec emax (SFdiv prec emax x w) = q * 2 ^ (- emin prec emax).
Proof.
  intros (Vx & Fx & Sx) (Vw & Fw & Sw) Hw Hq Hqlt Hval.
  pose proof emin_nonpos as Hemin.
  destruct w as [sw | sw | | sw mw ew]; try discriminate;
    try (cbn in Hw; lia).
  destruct x as [sx | sx | | sx mx ex]; try discriminate;
    try (cbn [float_ord] in Hval, Hw; nia).
  cbn in Sx, Sw. subst sx sw. cbn in Vx, Vw.
  pose proof (bounded_inv prec emax _ _ Vx) as (Hex & _).
  pose proof (bounded_inv prec emax _ _ Vw) as (Hew & _).
  cbn [float_ord cond_Zopp] in Hval.
  assert (0 < 2 ^ (ex - emin prec emax)) as Hpx by (apply Z.pow_pos_nonneg; lia).
  assert (0 < 2 ^ (ew - emin prec emax)) as Hpw by (apply Z.pow_pos_nonneg; lia).
  assert (Zdigits2 q <= prec) as Hdq by (apply Zdigits2_le; lia).
  (* the exponent the division works at *)
  assert (Zpos (digits2_pos mx) + ex - (Zpos (digits2_pos mw) + ew)
          <= Zdigits2 q) as Hdig.
  { pose proof (Zdigits2_shift (Zpos mx) (ex - emin prec emax) ltac:(lia) ltac:(lia)) as H1.
    pose proof (Zdigits2_shift (Zpos mw) (ew - emin prec emax) ltac:(lia) ltac:(lia)) as H2.
    pose proof (Zdigits2_mul (Zpos mw * 2 ^ (ew - emin prec emax)) q
                  ltac:(nia) Hq) as [_ H3].
    rewrite Hval, (Z.mul_comm q) in H1. cbn [Zdigits2] in H1, H2. lia. }
  cbn [SFdiv xorb]. unfold SFdiv_core_binary. cbn [Zdigits2].
  set (e' := Z.min (fexp prec emax (Zpos (digits2_pos mx) + ex
                                     - (Zpos (digits2_pos mw) + ew))) (ex - ew)).
  assert (e' <= fexp prec emax (Zdigits2 q)) as He'q.
  { etransitivity; [apply Z.le_min_l|]. apply fexp_mono. lia. }
  assert (fexp prec emax (Zdigits2 q) <= 0) as Hfq by (unfold fexp; lia).
  assert (e' <= 0) as He'0 by lia.
  assert (0 <= ex - ew - e') as Hs by (unfold e'; lia).
  assert (match ex - ew - e' with
          | Zpos _ => Z.shiftl (Zpos mx) (ex - ew - e')
          | 0 => Zpos mx
          | Zneg _ => 0
          end = Zpos mx * 2 ^ (ex - ew - e')) as ->.
  { destruct (ex - ew - e') as [| p | p] eqn:E; [| | lia].
    - change (2 ^ 0) with 1. lia.
    - apply Z.shiftl_mul_pow2. lia. }
  assert (0 < 2 ^ (- e')) as Hpe by (apply Z.pow_pos_nonneg; lia).
  assert (Zpos mx * 2 ^ (ex - ew - e') = Zpos mw * (q * 2 ^ (- e'))) as Hm'.
  { apply (Z.mul_reg_r _ _ (2 ^ (ew - emin prec emax))); [lia|].
    rewrite <- Z.mul_assoc, <- Z.pow_add_r by lia.
    replace (ex - ew - e' + (ew - emin prec emax))
      with ((ex - emin prec emax) + (- e')) by lia.
    rewrite Z.pow_add_r by lia. rewrite Z.mul_assoc, Hval. ring. }
  rewrite Hm'.
  destruct (Z.div_eucl (Zpos mw * (q * 2 ^ (- e'))) (Zpos mw)) as [qq rr] eqn:Hde.
  assert (qq = q * 2 ^ (- e') /\ rr = 0) as [-> ->].
  { split.
    - change qq with (fst (qq, rr)). rewrite <- Hde.
      change (fst (Z.div_eucl ?a ?b)) with (a / b).
      rewrite Z.mul_comm. apply Z.div_mul. lia.
    - change rr with (snd (qq, rr)). rewrite <- Hde.
      change (snd (Z.div_eucl ?a ?b)) with (a mod b).
      rewrite Z.mul_comm. apply Z.mod_mul. lia. }
  assert (new_location (Zpos mw) 0 = loc_Exact) as ->.
  { unfold new_location, new_location_even, new_location_odd.
    destruct (Z.even (Zpos mw)); reflexivity. }
  assert (Zdigits2 (q * 2 ^ (- e')) + e' = Zdigits2 q) as Hdqq
    by (rewrite Zdigits2_shift by lia; lia).
  destruct (round_aux_value (q * 2 ^ (- e')) e' ltac:(nia))
    as (m1 & H0 & _ & Hexact & Hres).
  { rewrite Hdqq. assumption. }
  rewrite Hdqq in Hexact, Hres.
  set (E := fexp prec emax (Zdigits2 q)) in *.
  assert (emin prec emax <= E) as HE by apply fexp_ge_emin.
  assert (0 < 2 ^ (E - e')) as HpE by (apply Z.pow_pos_nonneg; lia).
  assert (2 ^ (- e') = 2 ^ (- E) * 2 ^ (E - e')) as Hsplit.
  { rewrite <- Z.pow_add_r by lia. f_equal. lia. }
  assert (m1 = q * 2 ^ (- E)) as Hm1.
  { apply (Z.mul_reg_r _ _ (2 ^ (E - e'))); [lia|].
    rewrite Hexact.
    - rewrite Hsplit. ring.
    - rewrite Hsplit, Z.mul_assoc. apply Z.mod_mul. lia. }
  assert (m1 * 2 ^ (E - emin prec emax) = q * 2 ^ (- emin prec emax)) as Hv.
  { rewrite Hm1, <- Z.mul_assoc, <- Z.pow_add_r by lia. f_equal. f_equal. lia. }
  rewrite Hv in Hres.
  destruct Hres as (F & S & Vv).
  { replace (emax - emin prec emax) with (emax + (- emin prec emax)) by lia.
    rewrite Z.pow_add_r by lia.
    assert (0 < 2 ^ (- emin prec emax)) by (apply Z.pow_pos_nonneg; lia).
    assert (2 ^ prec <= 2 ^ emax) by (apply Z.pow_le_mono_r; lia).
    nia. }
  split; [|exact Vv]. split; [|split; assumption].
  apply binary_round_aux_valid; [assumption | nia |].
  rewrite Hdqq. assumption.
Qed.

(** Multiplication by a whole number [k] returns the nearest value of
    the format to the exact product. *)
Lemma mul_whole x my ey k :
  nonneg_finite prec emax x -> bounded prec emax my ey = true ->
  ey <= 0 -> 0 < k -> Zpos my = k * 2 ^ (- ey) ->
  exists v1,
    0 <= v1
    /\ 2 * Z.abs (v1 - k * float_ord prec emax x)
       <= 2 ^ Z.max 0 (Zdigits2 (k * float_ord prec emax x) - prec)
    /\ (v1 < 2 ^ (emax - emin prec emax) ->
        nonneg_finite prec emax (SFmul prec emax x (S754_finite false my ey))
        /\ float_ord prec emax (SFmul prec emax x (S754_finite false my ey))
           = v1).
Proof.
  intros (Vx & Fx & Sx) Vy Hey Hk Hmy.
  destruct x as [sx | sx | | sx mx ex]; try discriminate;
    cbn in Sx; subst sx.
  - exists 0. cbn [float_ord SFmul xorb]. rewrite Z.mul_0_r, Z.sub_diag.
    split; [lia|]. split.
    { cbn [Z.abs].
      assert (0 < 2 ^ Z.max 0 (Zdigits2 0 - prec))
        by (apply Z.pow_pos_nonneg; lia). lia. }
    intros _. repeat split.
  - cbn in Vx. pose proof (bounded_inv prec emax _ _ Vx) as (Hex & _).
    assert (fexp prec emax (Zpos (digits2_pos mx) + ex) = ex) as Hcan.
    { unfold bounded, canonical_mantissa in Vx.
      apply andb_true_iff in Vx. destruct Vx as [Vx _].
      now apply Z.eqb_eq in Vx. }
    cbn [SFmul xorb float_ord cond_Zopp]. rewrite Pos2Z.inj_mul, Hmy.
    assert (0 < 2 ^ (- ey)) as Hpy by (apply Z.pow_pos_nonneg; lia).
    assert (0 < 2 ^ (ex - emin prec emax)) as Hpx
      by (apply Z.pow_pos_nonneg; lia).
    set (P := Zpos mx * k).
    assert (0 < P) as HP by (unfold P; nia).
    replace (Zpos mx * (k * 2 ^ (- ey))) with (P * 2 ^ (- ey))
      by (unfold P; ring).
    assert (Zdigits2 (P * 2 ^ (- ey)) + (ex + ey) = Zdigits2 P + ex) as Hd
      by (rewrite Zdigits2_shift by lia; lia).
    assert (ex <= fexp prec emax (Zdigits2 P + ex)) as HE.
    { rewrite <- Hcan at 1. apply fexp_mono.
      pose proof (Zdigits2_mul (Zpos mx) k ltac:(lia) Hk) as [H _].
      fold P in H. cbn [Zdigits2] in H. lia. }
    destruct (round_aux_value (P * 2 ^ (- ey)) (ex + ey) ltac:(nia))
      as (m1 & H0 & Hb & _ & Hres).
    { rewrite Hd. lia. }
    rewrite Hd in Hb, Hres.
    set (E := fexp prec emax (Zdigits2 P + ex)) in *.
    assert (0 < 2 ^ (E - ex)) as HpE by (apply Z.pow_pos_nonneg; lia).
    assert (2 ^ (E - (ex + ey)) = 2 ^ (E - ex) * 2 ^ (- ey)) as Hsplit.
    { rewrite <- Z.pow_add_r by lia. f_equal. lia. }
    assert (2 ^ (E - emin prec emax)
            = 2 ^ (E - ex) * 2 ^ (ex - emin prec emax)) as Hsplit2.
    { rewrite <- Z.pow_add_r by lia. f_equal. lia. }
    exists (m1 * 2 ^ (E - emin prec emax)).
    split; [apply Z.mul_nonneg_nonneg; [lia | apply Z.pow_nonneg; lia]|].
    split.
    { replace (k * (Zpos mx * 2 ^ (ex - emin prec emax)))
        with (P * 2 ^ (ex - emin prec emax)) by (unfold P; ring).
      rewrite Zdigits2_shift by lia.
      replace (Z.max 0 (Zdigits2 P + (ex - emin prec emax) - prec))
        with (E - emin prec emax) by (unfold E, fexp; lia).
      rewrite Hsplit2.
      replace (m1 * (2 ^ (E - ex) * 2 ^ (ex - emin prec emax))
               - P * 2 ^ (ex - emin prec emax))
        with ((m1 * 2 ^ (E - ex) - P) * 2 ^ (ex - emin prec emax)) by ring.
      rewrite Z.abs_mul, (Z.abs_eq (2 ^ (ex - emin prec emax))) by lia.
      rewrite Hsplit in Hb.
      replace (m1 * (2 ^ (E - ex) * 2 ^ (- ey)) - P * 2 ^ (- ey))
        with ((m1 * 2 ^ (E - ex) - P) * 2 ^ (- ey)) in Hb by ring.
      rewrite Z.abs_mul, (Z.abs_eq (2 ^ (- ey))) in Hb by lia.
      nia. }
    intros Hov. destruct (Hres Hov) as (F & S & Vv).
    split; [|exact Vv]. split; [|split; assumption].
    apply binary_round_aux_valid; [assumption | nia |].
    rewrite Hd. fold E. lia.
Qed.
Lemma round_aux_sign m e l :
  sign_bit (binary_round_aux prec emax false m e l) = false.
Proof.
  unfold binary_round_aux.
  destruct (shr_fexp prec emax m e l) as [mrs' e'].
  destruct (shr_fexp prec emax _ e' loc_Exact) as [mrs'' e''].
  destruct (shr_m mrs''); try reflexivity.
  destruct (e'' <=? emax - prec); reflexivity.
Qed.

Lemma normalize_sign m e :
  0 <= m -> sign_bit (binary_normalize prec emax m e false) = false.
Proof.
  intros Hm. destruct m as [| p | p]; [reflexivity | | lia].
  cbn [binary_normalize]. unfold binary_round.
  destruct (shl_align p e _) as [mz ez]. apply round_aux_sign.
Qed.

Lemma fin_zero x :
  nonneg_finite prec emax x -> float_ord prec emax x = 0 -> x = S754_zero false.
Proof.
  intros (V & F & S) H0. destruct x as [s | s | | s m e]; try discriminate.
  - cbn in S. now subst.
  - cbn in S. subst s. cbn in V.
    pose proof (scaled_lt_inf prec emax prec_pos m e V).
    cbn [float_ord cond_Zopp] in H0. lia.
Qed.

Lemma fin_pos_finite x :
  nonneg_finite prec emax x -> 0 < float_ord prec emax x ->
  exists m e, x = S754_finite false m e /\ bounded prec emax m e = true.
Proof.
  intros (V & F & S) H0. destruct x as [s | s | | s m e]; try discriminate.
  cbn in S. subst s. eauto.
Qed.

(** A finite sum of two nonnegative numbers is a nonnegative number of
    the format. *)
Lemma add_fin x y :
  nonneg_finite prec emax x -> nonneg_finite prec emax y -> is_finite (SFadd prec emax x y) = true ->
  nonneg_finite prec emax (SFadd prec emax x y).
Proof.
  intros (Vx & Fx & Sx) (Vy & Fy & Sy) F.
  destruct x as [sx | sx | | sx mx ex], y as [sy | sy | | sy my ey];
    try discriminate; cbn in Sx, Sy; subst.
  - repeat split.
  - repeat split; assumption.
  - repeat split; assumption.
  - cbn [SFadd] in *. repeat split; [| assumption |].
    + apply binary_normalize_valid; assumption.
    + apply normalize_sign. cbn [cond_Zopp]. lia.
Qed.

(** A valid number that compares above another nonnegative one is
    nonnegative. *)
Lemma valid_nonneg_fin x :
  valid_binary prec emax x = true -> is_finite x = true ->
  0 <= float_ord prec emax x -> (x = S754_zero true -> False) -> nonneg_finite prec emax x.
Proof.
  intros V F H0 Hz. destruct x as [s | s | | s m e]; try discriminate.
  - destruct s; [now elim Hz|]. repeat split.
  - destruct s; [|repeat split; assumption].
    cbn in V. pose proof (scaled_lt_inf prec emax prec_pos m e V).
    cbn [float_ord cond_Zopp] in H0. lia.
Qed.

End RoundingValue.

(** ** Signed results: negation and subtraction *)

Section SignedValue.
Variables prec emax : Z.
Hypothesis prec_pos : 0 < prec.
Hypothesis prec_lt_emax : prec < emax.

Lemma round_aux_opp m e l :
  binary_round_aux prec emax true m e l
  = SFopp (binary_round_aux prec emax false m e l).
Proof.
  unfold binary_round_aux.
  destruct (shr_fexp prec emax m e l) as [mrs' e'].
  destruct (shr_fexp prec emax _ e' loc_Exact) as [mrs'' e''].
  destruct (shr_m mrs''); try reflexivity.
  destruct (e'' <=? emax - prec); reflexivity.
Qed.

Lemma normalize_neg p e :
  binary_normalize prec emax (Zneg p) e false
  = SFopp (binary_normalize prec emax (Zpos p) e false).
Proof.
  cbn [binary_normalize]. unfold binary_round.
  destruct (shl_align p e _) as [mz ez]. apply round_aux_opp.
Qed.

Lemma float_ord_opp x :
  float_ord prec emax (SFopp x) = - float_ord prec emax x.
Proof.
  destruct x as [s | s | | s m e]; cbn [SFopp float_ord]; try lia;
    destruct s; cbn [negb cond_Zopp]; lia.
Qed.

Lemma float_ord_abs x :
  float_ord prec emax (SFabs x) = Z.abs (float_ord prec emax x).
Proof.
  destruct x as [s | s | | s m e]; cbn [SFabs float_ord]; try reflexivity.
  - assert (0 <= 2 ^ (emax - emin prec emax)) by (apply Z.pow_nonneg; lia).
    destruct s; cbn [cond_Zopp]; lia.
  - assert (0 <= 2 ^ (e - emin prec emax)) by (apply Z.pow_nonneg; lia).
    destruct s; cbn [cond_Zopp]; nia.
Qed.

(** The difference of two nonnegative numbers of the format is rounded
    to a nearest value. *)
Lemma sub_value x y :
  nonneg_finite prec emax x -> nonneg_finite prec emax y ->
  2 * float_ord prec emax x <= 2 ^ (emax - emin prec emax) ->
  2 * float_ord prec emax y <= 2 ^ (emax - emin prec emax) ->
  2 * Z.abs (float_ord prec emax (SFsub prec emax x y)
             - (float_ord prec emax x - float_ord prec emax y))
  <= 2 ^ Z.max 0 (Zdigits2 (Z.abs (float_ord prec emax x
                                    - float_ord prec emax y)) - prec).
Proof.
  intros Fx Fy Bx By'.
  pose proof (fin_value _ _ prec_pos prec_lt_emax x Fx) as Rx.
  pose proof (fin_value _ _ prec_pos prec_lt_emax y Fy) as Ry.
  assert (forall n, 0 < 2 ^ Z.max 0 n) as Hpow
    by (intros n; apply Z.pow_pos_nonneg; lia).
  destruct Fx as (Vx & Fx & Sx), Fy as (Vy & Fy & Sy).
  destruct x as [sx | sx | | sx mx ex], y as [sy | sy | | sy my ey];
    try discriminate; cbn in Sx, Sy; subst.
  - cbn [SFsub float_ord]. specialize (Hpow (Zdigits2 (Z.abs (0 - 0)) - prec)).
    cbn [Z.sub Z.add Z.opp Z.abs] in *. lia.
  - cbn [SFsub negb]. cbn [float_ord cond_Zopp].
    specialize (Hpow (Zdigits2 (Z.abs (0 - Zpos my * 2 ^ (ey - emin prec emax)))
                      - prec)).
    replace (- (Zpos my * 2 ^ (ey - emin prec emax))
             - (0 - Zpos my * 2 ^ (ey - emin prec emax))) with 0 by ring.
    cbn [Z.abs]. lia.
  - cbn [SFsub]. cbn [float_ord cond_Zopp].
    specialize (Hpow (Zdigits2 (Z.abs (Zpos mx * 2 ^ (ex - emin prec emax) - 0))
                      - prec)).
    replace (Zpos mx * 2 ^ (ex - emin prec emax)
             - (Zpos mx * 2 ^ (ex - emin prec emax) - 0)) with 0 by ring.
    cbn [Z.abs]. lia.
  - cbn [SFsub cond_Zopp]. cbn in Vx, Vy.
    pose proof (bounded_inv prec emax _ _ Vx) as (Hex & _).
    pose proof (bounded_inv prec emax _ _ Vy) as (Hey & _).
    rewrite !shl_align_fst by lia.
    set (ez := Z.min ex ey) in *.
    assert (float_ord prec emax (S754_finite false mx ex)
            - float_ord prec emax (S754_finite false my ey)
            = (Zpos mx * 2 ^ (ex - ez) - Zpos my * 2 ^ (ey - ez))
              * 2 ^ (ez - emin prec emax)) as Hval.
    { cbn [float_ord cond_Zopp].
      replace (ex - emin prec emax) with ((ex - ez) + (ez - emin prec emax)) by lia.
      replace (ey - emin prec emax) with ((ey - ez) + (ez - emin prec emax)) by lia.
      rewrite !Z.pow_add_r by lia. ring. }
    rewrite Hval.
    assert (0 < 2 ^ (ez - emin prec emax)) as Hc by (apply Z.pow_pos_nonneg; lia).
    set (c := 2 ^ (ez - emin prec emax)) in *.
    set (ax := float_ord prec emax (S754_finite false mx ex)) in *.
    set (ay := float_ord prec emax (S754_finite false my ey)) in *.
    assert (ez <= emax) as Hez by lia.
    destruct (Zpos mx * 2 ^ (ex - ez) - Zpos my * 2 ^ (ey - ez))
      as [| p | p] eqn:Hd.
    + cbn [binary_normalize float_ord]. rewrite Z.mul_0_l.
      specialize (Hpow (Zdigits2 (Z.abs 0) - prec)).
      cbn [Z.sub Z.add Z.opp Z.abs] in *. lia.
    + destruct (normalize_value _ _ prec_pos prec_lt_emax (Zpos p) ez
                  ltac:(lia) ltac:(lia)) as (v1 & Hv0 & Hv & _ & Hres).
      fold c in Hv.
      rewrite (Z.abs_eq (Zpos p * c)) by nia.
      assert (2 ^ Z.max 0 (Zdigits2 (Zpos p * c) - prec) <= Zpos p * c
              \/ Zdigits2 (Zpos p * c) - prec <= 0) as Hsmall.
      { destruct (Z.le_gt_cases (Zdigits2 (Zpos p * c) - prec) 0) as [L | L];
          [now right | left].
        destruct (Zdigits2_bounds (Zpos p * c) ltac:(nia)) as (_ & Blo & _).
        rewrite Z.max_r by lia.
        eapply Z.le_trans; [|exact Blo]. apply Z.pow_le_mono_r; lia. }
      assert (v1 < 2 ^ (emax - emin prec emax)) as Hlt.
      { destruct Hsmall as [Hs | Hs].
        - assert (Zpos p * c <= ax) by lia. lia.
        - rewrite Z.max_l in Hv by lia. change (2 ^ 0) with 1 in Hv.
          assert (Zpos p * c <= ax) by lia.
          assert (1 < 2 ^ (emax - emin prec emax)).
          { apply (Z.pow_lt_mono_r 2 0); unfold emin; lia. }
          lia. }
      destruct (Hres Hlt) as (_ & ->). exact Hv.
    + rewrite normalize_neg, float_ord_opp.
      destruct (normalize_value _ _ prec_pos prec_lt_emax (Zpos p) ez
                  ltac:(lia) ltac:(lia)) as (v1 & Hv0 & Hv & _ & Hres).
      fold c in Hv.
      replace (Z.abs (Zneg p * c)) with (Zpos p * c)
        by (rewrite Z.abs_neq by nia; lia).
      assert (2 ^ Z.max 0 (Zdigits2 (Zpos p * c) - prec) <= Zpos p * c
              \/ Zdigits2 (Zpos p * c) - prec <= 0) as Hsmall.
      { destruct (Z.le_gt_cases (Zdigits2 (Zpos p * c) - prec) 0) as [L | L];
          [now right | left].
        destruct (Zdigits2_bounds (Zpos p * c) ltac:(nia)) as (_ & Blo & _).
        rewrite Z.max_r by lia.
        eapply Z.le_trans; [|exact Blo]. apply Z.pow_le_mono_r; lia. }
      assert (Zpos p * c <= ay) as Hay by lia.
      assert (v1 < 2 ^ (emax - emin prec emax)) as Hlt.
      { destruct Hsmall as [Hs | Hs].
        - lia.
        - rewrite Z.max_l in Hv by lia. change (2 ^ 0) with 1 in Hv.
          assert (1 < 2 ^ (emax - emin prec emax)).
          { apply (Z.pow_lt_mono_r 2 0); unfold emin; lia. }
          lia. }
      destruct (Hres Hlt) as (_ & ->).
      replace (- v1 - Zneg p * c) with (- (v1 - Zpos p * c)) by lia.
      rewrite Z.abs_opp. exact Hv.
Qed.

End SignedValue.

(** ** Time stamps: the value [srt_time] writes *)

Lemma prec64_pos : 0 < F64.prec.
Proof. reflexivity. Qed.

Lemma prec64_emax : F64.prec < F64.emax.
Proof. reflexivity. Qed.

Lemma unit64_pos : 0 < unit64.
Proof. apply Z.pow_pos_nonneg; lia. Qed.

Lemma fin64_value x : fin64 x -> 0 <= exact64 x < 2 ^ 1024 * unit64.
Proof. apply (fin_value _ _ prec64_pos prec64_emax). Qed.

Lemma sub64_exact x y :
  fin64 x -> fin64 y -> exact64 y <= exact64 x ->
  fits_in 53 (exact64 x - exact64 y) ->
  fin64 (F64.sub x y) /\ exact64 (F64.sub x y) = exact64 x - exact64 y.
Proof. apply (sub_exact _ _ prec64_pos prec64_emax). Qed.

Lemma div64_exact x w q :
  fin64 x -> fin64 w -> 0 < exact64 w -> 0 < q -> q < 2 ^ 53 ->
  exact64 x = q * exact64 w ->
  fin64 (F64.div x w) /\ exact64 (F64.div x w) = q * unit64.
Proof. apply (div_exact _ _ prec64_pos prec64_emax). Qed.

Lemma fits64_multiple a k :
  0 <= a -> 0 <= k -> a < 2 ^ 53 -> fits_in 53 (a * 2 ^ k).
Proof. apply (fits_multiple _ prec64_pos). Qed.

Lemma fin64_zero x : fin64 x -> exact64 x = 0 -> x = S754_zero false.
Proof. apply (fin_zero _ _ prec64_pos). Qed.

Lemma fin64_pos x :
  fin64 x -> 0 < exact64 x ->
  exists m e, x = S754_finite false m e
              /\ bounded F64.prec F64.emax m e = true.
Proof. apply fin_pos_finite. Qed.

Lemma exact64_finite m e :
  exact64 (S754_finite false m e) = Zpos m * 2 ^ (e + 1074).
Proof. reflexivity. Qed.

Lemma unit64_split e :
  -1074 <= e <= 0 -> unit64 = 2 ^ (- e) * 2 ^ (e + 1074).
Proof.
  intros He. rewrite <- Z.pow_add_r by lia. unfold unit64. f_equal. lia.
Qed.

Lemma bounded64_inv m e :
  bounded F64.prec F64.emax m e = true ->
  -1074 <= e /\ Zpos m < 2 ^ 53.
Proof.
  intros V. pose proof (bounded_inv _ _ _ _ V) as (He & Hd & _).
  split; [exact (proj1 He)|].
  pose proof (digits2_pos_bounds m) as B.
  eapply Z.lt_le_trans; [apply B|]. apply Z.pow_le_mono_r; [lia | exact Hd].
Qed.

(** [int(x)] is the whole part. *)
Lemma py_int_value x : fin64 x -> py_int x = Some (exact64 x / unit64).
Proof.
  intros (V & F & S). destruct x as [s | s | | s m e]; try discriminate.
  - reflexivity.
  - cbn in S. subst s. cbn in V.
    pose proof (bounded64_inv _ _ V) as (He & _).
    rewrite exact64_finite. cbn [py_int cond_Zopp]. f_equal.
    pose proof unit64_pos as HU.
    destruct (0 <=? e) eqn:E.
    + apply Z.leb_le in E. rewrite Z.pow_add_r by lia. fold unit64.
      rewrite Z.mul_assoc, Z.div_mul; [reflexivity | lia].
    + apply Z.leb_gt in E. rewrite (unit64_split e) by lia.
      assert (0 < 2 ^ (e + 1074)) by (apply Z.pow_pos_nonneg; lia).
      assert (0 < 2 ^ (- e)) by (apply Z.pow_pos_nonneg; lia).
      rewrite Z.div_mul_cancel_r by lia. reflexivity.
Qed.

(** [round(x)] is a nearest whole number. *)
Lemma py_round_value x :
  fin64 x ->
  exists r, py_round x = Some r /\ 0 <= r
            /\ 2 * Z.abs (r * unit64 - exact64 x) <= unit64.
Proof.
  intros (V & F & S). pose proof unit64_pos as HU.
  destruct x as [s | s | | s m e]; try discriminate.
  - exists 0. split; [reflexivity|]. split; [lia|].
    change (exact64 (S754_zero s)) with 0. lia.
  - cbn in S. subst s. cbn in V.
    pose proof (bounded64_inv _ _ V) as (He & _).
    rewrite exact64_finite. cbn [py_round cond_Zopp].
    destruct (0 <=? e) eqn:E.
    + apply Z.leb_le in E. exists (Zpos m * 2 ^ e).
      split; [reflexivity|].
      assert (0 < 2 ^ e) by (apply Z.pow_pos_nonneg; lia).
      split; [lia|]. rewrite Z.pow_add_r by lia. fold unit64.
      rewrite Z.mul_assoc, Z.sub_diag. cbn [Z.abs]. lia.
    + apply Z.leb_gt in E. rewrite (unit64_split e) by lia.
      set (d := 2 ^ (- e)). set (c := 2 ^ (e + 1074)).
      assert (0 < c) by (apply Z.pow_pos_nonneg; lia).
      assert (0 < d) as Hd by (apply Z.pow_pos_nonneg; lia).
      pose proof (Z.div_mod (Zpos m) d ltac:(lia)) as Hdm.
      pose proof (Z.mod_pos_bound (Zpos m) d Hd) as Hr.
      assert (0 <= Zpos m / d) as Hq by (apply Z.div_pos; lia).
      set (q := Zpos m / d) in *. set (r := Zpos m mod d) in *.
      eexists. split; [reflexivity|].
      assert (2 * Z.abs (q * (d * c) - Zpos m * c) = 2 * r * c) as Hlo.
      { replace (q * (d * c) - Zpos m * c) with (- (r * c)) by (rewrite Hdm; ring).
        rewrite Z.abs_opp, Z.abs_eq by nia. ring. }
      assert (2 * Z.abs ((q + 1) * (d * c) - Zpos m * c) = 2 * (d - r) * c)
        as Hhi.
      { replace ((q + 1) * (d * c) - Zpos m * c) with ((d - r) * c)
          by (rewrite Hdm; ring).
        rewrite Z.abs_eq by nia. ring. }
      clearbody q r c d.
      destruct (2 * r ?= d) eqn:C.
      * apply Z.compare_eq in C.
        destruct (Z.odd q); (split; [lia|]); [rewrite Hhi | rewrite Hlo];
          apply Z.mul_le_mono_nonneg_r; lia.
      * rewrite Z.compare_lt_iff in C. split; [lia|]. rewrite Hlo.
        apply Z.mul_le_mono_nonneg_r; lia.
      * rewrite Z.compare_gt_iff in C. split; [lia|]. rewrite Hhi.
        apply Z.mul_le_mono_nonneg_r; lia.
Qed.

(** A whole number below [2 ^ 53] is a binary64. *)
Lemma of_Z_value n :
  0 <= n < 2 ^ 53 ->
  fin64 (F64.of_Z n) /\ exact64 (F64.of_Z n) = n * unit64.
Proof.
  intros Hn.
  apply (normalize_exact _ _ prec64_pos prec64_emax n 0); [lia | discriminate | |].
  - apply (fits_multiple _ prec64_pos); [lia | discriminate | apply Hn].
  - change (2 ^ (0 - emin F64.prec F64.emax)) with unit64.
    change (2 ^ (F64.emax - emin F64.prec F64.emax)) with (2 ^ 1024 * unit64).
    pose proof unit64_pos.
    assert (2 ^ 53 < 2 ^ 1024) by (apply Z.pow_lt_mono_r; lia).
    nia.
Qed.

Lemma ltb_zero_fin x : fin64 x -> F64.ltb x f64_zero = false.
Proof.
  intros (V & F & S). destruct x as [s | s | | s m e]; try discriminate.
  - reflexivity.
  - cbn in S. subst s. reflexivity.
Qed.

(** C's [fmod] is the remainder of the exact values. *)
Lemma c_fmod_value x w :
  fin64 x -> fin64 w -> 0 < exact64 w ->
  fin64 (c_fmod x w) /\ exact64 (c_fmod x w) = exact64 x mod exact64 w.
Proof.
  intros Fx Fw Hw.
  destruct (fin64_pos w Fw Hw) as (mw & ew & -> & Vw).
  destruct Fx as (Vx & Fx & Sx).
  destruct x as [sx | sx | | sx mx ex]; try discriminate;
    cbn in Sx; subst sx.
  - cbn [c_fmod]. split; [repeat split|].
    change (exact64 (S754_zero false)) with 0. now rewrite Zmod_0_l.
  - cbn in Vx. cbn [c_fmod cond_Zopp].
    pose proof (bounded64_inv _ _ Vx) as (Hex & Hmx).
    pose proof (bounded64_inv _ _ Vw) as (Hew & Hmw).
    rewrite !shl_align_fst by lia.
    set (ez := Z.min ex ew).
    rewrite !exact64_finite in *.
    assert (0 < 2 ^ (ez + 1074)) as Hc by (apply Z.pow_pos_nonneg; lia).
    assert (0 < 2 ^ (ex - ez)) as Hcx by (apply Z.pow_pos_nonneg; lia).
    assert (0 < 2 ^ (ew - ez)) as Hcw by (apply Z.pow_pos_nonneg; lia).
    assert (Zpos mx * 2 ^ (ex + 1074)
            = Zpos mx * 2 ^ (ex - ez) * 2 ^ (ez + 1074)) as Ex.
    { rewrite <- Z.mul_assoc, <- Z.pow_add_r by lia. do 2 f_equal. lia. }
    assert (Zpos mw * 2 ^ (ew + 1074)
            = Zpos mw * 2 ^ (ew - ez) * 2 ^ (ez + 1074)) as Ew.
    { rewrite <- Z.mul_assoc, <- Z.pow_add_r by lia. do 2 f_equal. lia. }
    rewrite Ex, Ew. rewrite Z.mul_mod_distr_r by lia.
    set (X := Zpos mx * 2 ^ (ex - ez)) in *.
    set (W := Zpos mw * 2 ^ (ew - ez)) in *.
    assert (0 < W) as HW by (unfold W; nia).
    assert (0 <= X) as HX by (unfold X; nia).
    pose proof (Z.mod_pos_bound X W HW) as Hr.
    assert (X mod W <= X) as Hle by (apply Z.mod_le; lia).
    apply (normalize_exact _ _ prec64_pos prec64_emax (X mod W) ez).
    + lia.
    + change (emin F64.prec F64.emax) with (-1074). lia.
    + apply (fits_multiple _ prec64_pos); [lia | | ].
      * change (emin F64.prec F64.emax) with (-1074). lia.
      * change (2 ^ F64.prec) with (2 ^ 53).
        destruct (Z.le_ge_cases ex ew) as [L | L].
        -- assert (ex - ez = 0) as E0 by lia.
           assert (X = Zpos mx) as EX
             by (unfold X; rewrite E0; change (2 ^ 0) with 1; lia).
           clearbody X W. lia.
        -- assert (ew - ez = 0) as E0 by lia.
           assert (W = Zpos mw) as EW
             by (unfold W; rewrite E0; change (2 ^ 0) with 1; lia).
           clearbody X W. lia.
    + pose proof (scaled_lt_inf _ _ prec64_pos _ _ Vx) as Bx.
      change (ex - emin F64.prec F64.emax) with (ex + 1074) in Bx.
      change (ez - emin F64.prec F64.emax) with (ez + 1074).
      rewrite Ex in Bx. fold X in Bx. nia.
Qed.

(** Python's [%] on nonnegative floats, positive divisor. *)
Lemma py_float_mod_value x w :
  fin64 x -> fin64 w -> 0 < exact64 w ->
  fin64 (py_float_mod x w)
  /\ exact64 (py_float_mod x w) = exact64 x mod exact64 w.
Proof.
  intros Fx Fw Hw. destruct (c_fmod_value x w Fx Fw Hw) as (Fm & Hm).
  unfold py_float_mod. rewrite (ltb_zero_fin w Fw), (ltb_zero_fin _ Fm).
  cbn [xorb].
  destruct (is_zero (c_fmod x w)) eqn:Z0; [|split; assumption].
  destruct Fw as (_ & _ & ->). split; [repeat split|].
  rewrite <- Hm. destruct (c_fmod x w); try discriminate. reflexivity.
Qed.

Lemma div_sign x w :
  fin64 x -> fin64 w -> 0 < exact64 w -> sign_bit (F64.div x w) = false.
Proof.
  intros (Vx & Fx & Sx) Fw Hw.
  destruct (fin64_pos w Fw Hw) as (mw & ew & -> & Vw).
  destruct x as [sx | sx | | sx mx ex]; try discriminate;
    cbn in Sx; subst sx; [reflexivity|].
  unfold F64.div. cbn [SFdiv xorb].
  destruct (SFdiv_core_binary _ _ _ _ _ _) as [[mz ez] lz].
  apply round_aux_sign.
Qed.

(** [math.floor] of a whole number. *)
Lemma c_floor_whole x q :
  fin64 x -> 0 < q < 2 ^ 53 -> exact64 x = q * unit64 ->
  fin64 (c_floor x) /\ exact64 (c_floor x) = q * unit64.
Proof.
  intros Fx Hq Hx.
  assert (0 < exact64 x) as Hpos by (pose proof unit64_pos; nia).
  destruct (fin64_pos x Fx Hpos) as (m & e & -> & V).
  cbn [c_floor cond_Zopp].
  destruct (0 <=? e) eqn:E; [split; assumption|].
  apply Z.leb_gt in E. pose proof (bounded64_inv _ _ V) as (He & _).
  rewrite exact64_finite in Hx. rewrite (unit64_split e) in Hx by lia.
  assert (0 < 2 ^ (e + 1074)) by (apply Z.pow_pos_nonneg; lia).
  assert (0 < 2 ^ (- e)) by (apply Z.pow_pos_nonneg; lia).
  assert (Zpos m = q * 2 ^ (- e)) as -> by nia.
  rewrite Z.div_mul by lia.
  apply (of_Z_value q). lia.
Qed.

(** Python's [//] on nonnegative floats below [2 ^ 53], for a whole
    positive divisor: the quotient of the exact values. *)
Lemma py_float_floordiv_value x w k :
  fin64 x -> fin64 w -> 0 < k -> exact64 w = k * unit64 ->
  exact64 x < 2 ^ 53 * unit64 ->
  fin64 (py_float_floordiv x w)
  /\ exact64 (py_float_floordiv x w) = exact64 x / exact64 w * unit64.
Proof.
  intros Fx Fw Hk Hw Hx. pose proof unit64_pos as HU.
  assert (0 < exact64 w) as Hwpos by nia.
  destruct (c_fmod_value x w Fx Fw Hwpos) as (Fm & Hm).
  pose proof (fin64_value x Fx) as (Hx0 & _).
  pose proof (Z.div_mod (exact64 x) (exact64 w) ltac:(lia)) as Hdm.
  pose proof (Z.mod_pos_bound (exact64 x) (exact64 w) Hwpos) as Hr.
  assert (0 <= exact64 x / exact64 w) as Hq0 by (apply Z.div_pos; lia).
  set (q := exact64 x / exact64 w) in *. clearbody q.
  assert (q * k < 2 ^ 53) as Hqk.
  { apply (Z.mul_lt_mono_pos_r unit64); [assumption|]. nia. }
  destruct (sub64_exact x (c_fmod x w) Fx Fm) as (Fs & Hs).
  { lia. }
  { replace (exact64 x - exact64 (c_fmod x w)) with (q * k * 2 ^ 1074).
    - apply fits64_multiple; [nia | lia | exact Hqk].
    - fold unit64. rewrite Hm. lia. }
  assert (exact64 (F64.sub x (c_fmod x w)) = q * exact64 w) as Hs'
    by (rewrite Hs, Hm; lia).
  unfold py_float_floordiv.
  rewrite (ltb_zero_fin w Fw), (ltb_zero_fin _ Fm). cbn [xorb].
  rewrite andb_false_r.
  destruct (Z.eq_dec q 0) as [Hq | Hq].
  - rewrite Hq, Z.mul_0_l in Hs'.
    rewrite (fin64_zero _ Fs Hs').
    destruct (fin64_pos w Fw Hwpos) as (mw & ew & Ew & Vw).
    assert (F64.div (S754_zero false) w = S754_zero false) as ->
      by (rewrite Ew; reflexivity).
    cbn [is_zero]. rewrite div_sign by assumption. rewrite Hq.
    split; [repeat split | reflexivity].
  - assert (0 < q) as Hqpos by lia.
    assert (q < 2 ^ 53) as Hqlt by nia.
    destruct (div64_exact _ w q Fs Fw Hwpos Hqpos Hqlt Hs') as (Fd & Hd).
    set (dv := F64.div (F64.sub x (c_fmod x w)) w) in *. clearbody dv.
    assert (0 < exact64 dv) as Hdpos by nia.
    destruct (c_floor_whole dv q Fd (conj Hqpos Hqlt) Hd) as (Ffl & Hfl).
    destruct (sub64_exact dv (c_floor dv) Fd Ffl) as (Fz & Hz).
    { lia. }
    { rewrite Hd, Hfl, Z.sub_diag. unfold fits_in. apply Zmod_0_l. }
    rewrite Hd, Hfl, Z.sub_diag in Hz.
    apply (fin64_zero _ Fz) in Hz.
    assert (is_zero dv = false) as ->.
    { destruct (fin64_pos dv Fd Hdpos) as (md & ed & -> & _).
      reflexivity. }
    rewrite Hz.
    assert (F64.gtb (S754_zero false) (F64.lit 5 10) = false) as ->
      by (vm_compute; reflexivity).
    split; [assumption|]. rewrite Hfl. reflexivity.
Qed.

Lemma fits64_frac x : fin64 x -> fits_in 53 (exact64 x mod unit64).
Proof.
  intros (V & F & S). pose proof unit64_pos as HU.
  destruct x as [s | s | | s m e]; try discriminate.
  - change (exact64 (S754_zero s)) with 0. rewrite Zmod_0_l. apply Zmod_0_l.
  - cbn in S. subst s. cbn in V.
    pose proof (bounded64_inv _ _ V) as (He & Hm).
    rewrite exact64_finite.
    destruct (Z.le_gt_cases 0 e) as [E | E].
    + rewrite Z.pow_add_r by lia. fold unit64.
      rewrite Z.mul_assoc, Z.mod_mul by lia. apply Zmod_0_l.
    + rewrite (unit64_split e) by lia.
      assert (0 < 2 ^ (e + 1074)) by (apply Z.pow_pos_nonneg; lia).
      assert (0 < 2 ^ (- e)) as Hd by (apply Z.pow_pos_nonneg; lia).
      rewrite Z.mul_mod_distr_r by lia.
      pose proof (Z.mod_pos_bound (Zpos m) (2 ^ (- e)) Hd).
      assert (Zpos m mod 2 ^ (- e) <= Zpos m) by (apply Z.mod_le; lia).
      apply fits64_multiple; lia.
Qed.

Lemma div_scaled a k U : 0 < U -> 0 < k -> a / (k * U) * U / U = a / U / k.
Proof.
  intros HU Hk. rewrite Z.div_mul by lia.
  rewrite Z.div_div by lia. now rewrite Z.mul_comm.
Qed.

Lemma mod_scaled a k U : 0 < U -> 0 < k -> a mod (k * U) / U = (a / U) mod k.
Proof.
  intros HU Hk. rewrite (Z.mul_comm k U), Z.rem_mul_r by lia.
  rewrite (Z.mul_comm U), Z.div_add by lia.
  rewrite Z.div_small by (apply Z.mod_pos_bound; lia). reflexivity.
Qed.

(** The product of a fraction of a second with 1000, in binary64. *)
Lemma mul64_1000 x :
  fin64 x -> exact64 x < unit64 ->
  fin64 (F64.mul x (F64.of_Z 1000))
  /\ 2 * Z.abs (exact64 (F64.mul x (F64.of_Z 1000)) - 1000 * exact64 x)
     <= 2 ^ 1031.
Proof.
  intros Fx Hx. pose proof unit64_pos as HU.
  pose proof (fin64_value x Fx) as (Hx0 & _).
  change (F64.of_Z 1000) with (S754_finite false 8796093022208000 (-43)).
  destruct (mul_whole _ _ prec64_pos prec64_emax x 8796093022208000 (-43) 1000
              Fx eq_refl ltac:(lia) ltac:(lia) eq_refl)
    as (v1 & Hv0 & Hv & Hres).
  fold (exact64 x) in Hv.
  assert (2 ^ Z.max 0 (Zdigits2 (1000 * exact64 x) - F64.prec) <= 2 ^ 1031)
    as Hb.
  { apply Z.pow_le_mono_r; [lia|].
    destruct (Z.eq_dec (exact64 x) 0) as [-> | Hnz]; [cbn; lia|].
    assert (Zdigits2 (1000 * exact64 x) <= 1084).
    { apply Zdigits2_le; [lia | lia |].
      change (2 ^ 1084) with (1024 * unit64). lia. }
    change F64.prec with 53. lia. }
  assert (2 ^ 1031 <= unit64) as Hu by (apply Z.pow_le_mono_r; lia).
  assert (v1 < 2 ^ (F64.emax - emin F64.prec F64.emax)) as Hlt.
  { change (2 ^ (F64.emax - emin F64.prec F64.emax)) with (2 ^ 1024 * unit64).
    assert (1001 < 2 ^ 1024) by reflexivity.
    assert (v1 < 1001 * unit64) by lia. nia. }
  destruct (Hres Hlt) as (Fp & Hp).
  fold (F64.mul x (S754_finite false 8796093022208000 (-43))) in Fp, Hp.
  fold (exact64 (F64.mul x (S754_finite false 8796093022208000 (-43)))) in Hp.
  split; [assumption|]. rewrite Hp. lia.
Qed.

(** [srt_time] writes the whole seconds of a time below [2 ^ 53] s as
    hours, minutes and seconds, and its fraction as a millisecond count
    rounded to nearest. *)
Lemma srt_time_stamp t :
  fin64 t -> exact64 t < 2 ^ 53 * unit64 ->
  exists ms,
    srt_time t = Some (stamp_text (exact64 t / unit64) ms)
    /\ 0 <= ms <= 1000
    /\ 2 * Z.abs (ms * unit64 - 1000 * (exact64 t mod unit64))
       <= unit64 + 2 ^ 1031.
Proof.
  intros Ft Ht. pose proof unit64_pos as HU.
  pose proof (fin64_value t Ft) as (H0 & _).
  assert (0 <= 3600 < 2 ^ 53) as B36 by (split; [discriminate | reflexivity]).
  assert (0 <= 60 < 2 ^ 53) as B60 by (split; [discriminate | reflexivity]).
  destruct (of_Z_value 3600 B36) as (F36 & V36).
  destruct (of_Z_value 60 B60) as (F60 & V60).
  destruct (py_float_floordiv_value t _ 3600 Ft F36 ltac:(lia) V36 Ht)
    as (Fh & Vh).
  destruct (py_float_mod_value t _ Ft F36 ltac:(lia)) as (Fm1 & Vm1).
  assert (exact64 (py_float_mod t (F64.of_Z 3600)) < 2 ^ 53 * unit64) as Hm1.
  { rewrite Vm1, V36.
    pose proof (Z.mod_pos_bound (exact64 t) (3600 * unit64) ltac:(lia)).
    assert (3600 < 2 ^ 53) by reflexivity. nia. }
  destruct (py_float_floordiv_value _ _ 60 Fm1 F60 ltac:(lia) V60 Hm1)
    as (Fm & Vm).
  destruct (py_float_mod_value t _ Ft F60 ltac:(lia)) as (Fs & Vs).
  assert (0 <= exact64 t / unit64 < 2 ^ 53) as BN.
  { split; [apply Z.div_pos; lia|]. apply Z.div_lt_upper_bound; lia. }
  destruct (of_Z_value _ BN) as (FN & VN).
  pose proof (Z.mod_pos_bound (exact64 t) unit64 HU) as Hfr.
  pose proof (Zmod_eq_full (exact64 t) unit64 ltac:(lia)) as Hmod.
  destruct (sub64_exact t (F64.of_Z (exact64 t / unit64)) Ft FN) as (Ff & Vf).
  { rewrite VN. lia. }
  { rewrite VN, <- Hmod. apply fits64_frac, Ft. }
  rewrite VN, <- Hmod in Vf.
  destruct (mul64_1000 _ Ff ltac:(lia)) as (Fp & Vp).
  rewrite Vf in Vp.
  destruct (py_round_value _ Fp) as (r & Hr & Hr0 & Hrv).
  exists r. split; [|split].
  - unfold srt_time.
    rewrite (py_int_value _ Fh), (py_int_value _ Fm), (py_int_value _ Fs),
      (py_int_value _ Ft), Hr.
    rewrite Vh, Vm, Vs, Vm1, V36, V60.
    rewrite !div_scaled, !mod_scaled by lia.
    reflexivity.
  - split; [assumption|].
    assert (2 ^ 1031 <= unit64) as Hu by (apply Z.pow_le_mono_r; lia).
    assert (r * unit64 < 1001 * unit64) as Hlt by lia.
    apply Z.mul_lt_mono_pos_r in Hlt; lia.
  - lia.
Qed.

Lemma srt_time_finite x text : srt_time x = Some text -> is_finite x = true.
Proof.
  destruct x as [s | [|] | | s m e]; try reflexivity;
    vm_compute; discriminate.
Qed.

Lemma stamped_of x text :
  fin64 x -> srt_time x = Some text -> stamped x text.
Proof.
  intros Fx Hx. split; [apply Fx|]. split; [apply (fin64_value x Fx)|].
  intros Hlt. destruct (srt_time_stamp x Fx Hlt) as (ms & E & Hms & Hv).
  exists ms. rewrite E in Hx. injection Hx as <-. auto.
Qed.

Lemma window_start_fin t :
  F64.valid t = true -> is_finite (window_start t) = true ->
  fin64 (window_start t).
Proof.
  intros Vt. unfold window_start.
  destruct (F64.gtb (F64.sub t (F64.lit 2 100)) f64_zero) eqn:G;
    [|intros _; repeat split].
  intros F.
  assert (F64.valid (F64.sub t (F64.lit 2 100)) = true) as V
    by (apply (SFsub_valid _ _ prec64_pos); [assumption | reflexivity]).
  unfold F64.gtb, SFltb in G.
  rewrite (f64_compare f64_zero _ eq_refl V eq_refl) in G
    by (destruct (F64.sub t (F64.lit 2 100)); try discriminate; reflexivity).
  change (float_ord F64.prec F64.emax f64_zero) with 0 in G.
  fold (exact64 (F64.sub t (F64.lit 2 100))) in G.
  destruct (0 ?= exact64 (F64.sub t (F64.lit 2 100))) eqn:C;
    try discriminate.
  rewrite Z.compare_lt_iff in C.
  apply (valid_nonneg_fin _ _ prec64_pos); [assumption | assumption | |].
  - fold (exact64 (F64.sub t (F64.lit 2 100))). lia.
  - intros E. rewrite E in C. change (exact64 (S754_zero true)) with 0 in C.
    lia.
Qed.

Lemma window_end_fin t :
  F64.valid t = true -> is_finite (window_start t) = true ->
  is_finite (window_end t) = true -> fin64 (window_end t).
Proof.
  intros Vt Fs Fe. apply (add_fin _ _ prec64_pos).
  - apply window_start_fin; assumption.
  - repeat split.
  - exact Fe.
Qed.

(** ** The onset filter *)

Lemma last_cons_default {A} (l : list A) : forall x d d',
  last (x :: l) d = last (x :: l) d'.
Proof.
  induction l as [| y r IH]; intros x d d'; [reflexivity|].
  change (last (y :: r) d = last (y :: r) d'). apply IH.
Qed.

Lemma fold_hold_step l : forall acc last_t,
  fold_left hold_step l (acc, last_t)
  = ((acc ++ hold_from last_t l)%list, last (hold_from last_t l) last_t).
Proof.
  induction l as [| t r IH]; intros acc last_t;
    cbn [fold_left hold_step hold_from last].
  - now rewrite app_nil_r.
  - destruct (F64.geb (F64.sub t last_t) HOLD_SEC).
    + rewrite IH, <- app_assoc. cbn [app]. f_equal.
      destruct (hold_from t r) as [| z w]; [reflexivity|].
      apply (last_cons_default (z :: w)).
    + apply IH.
Qed.

Lemma accept_onsets_hold_from raw :
  accept_onsets raw = hold_from (F64.of_Z (-1000000000)) raw.
Proof. unfold accept_onsets. now rewrite fold_hold_step. Qed.

Lemma hold_from_spaced l : forall last_t, spaced last_t (hold_from last_t l).
Proof.
  induction l as [| t r IH]; intros last_t; cbn [hold_from]; [exact I|].
  destruct (F64.geb (F64.sub t last_t) HOLD_SEC) eqn:E; cbn [spaced]; auto.
Qed.

Lemma hold_from_incl l : forall last_t x, In x (hold_from last_t l) -> In x l.
Proof.
  induction l as [| t r IH]; intros last_t x; cbn [hold_from In]; [tauto|].
  destruct (F64.geb (F64.sub t last_t) HOLD_SEC); cbn [In]; intros H.
  - destruct H; [now left | right; eauto].
  - right; eauto.
Qed.

Lemma spaced_consecutive l : forall prev i a b,
  spaced prev l ->
  nth_error l i = Some a -> nth_error l (S i) = Some b ->
  F64.geb (F64.sub b a) HOLD_SEC = true.
Proof.
  induction l as [| x r IH]; intros prev i a b Hs Ha Hb.
  - destruct i; discriminate.
  - destruct Hs as [_ Hs]. destruct i as [| i].
    + simpl in Ha. injection Ha as ->.
      destruct r as [| z r']; [discriminate|].
      simpl in Hb. injection Hb as ->. apply Hs.
    + simpl in Ha. apply (IH x i a b Hs Ha Hb).
Qed.

Lemma hold_from_burst burst : forall t0,
  Forall (fun b => F64.geb (F64.sub b t0) HOLD_SEC = false) burst ->
  forall rest, hold_from t0 (burst ++ rest) = hold_from t0 rest.
Proof.
  induction burst as [| b r IH]; intros t0 H rest; [reflexivity|].
  inversion H as [| ? ? Hb Hr]; subst. cbn [app hold_from]. rewrite Hb.
  now apply IH.
Qed.

Lemma hold_from_app l1 : forall last_t l2,
  hold_from last_t (l1 ++ l2)
  = (hold_from last_t l1
     ++ hold_from (last (hold_from last_t l1) last_t) l2)%list.
Proof.
  induction l1 as [| t r IH]; intros last_t l2; [reflexivity|].
  cbn [app hold_from]. destruct (F64.geb (F64.sub t last_t) HOLD_SEC).
  - rewrite IH. cbn [app]. do 2 f_equal.
    destruct (hold_from t r) as [| z w]; [reflexivity|].
    f_equal. apply (last_cons_default w z).
  - apply IH.
Qed.

Lemma hold_from_accept last_t t r :
  F64.geb (F64.sub t last_t) HOLD_SEC = true ->
  hold_from last_t (t :: r) = t :: hold_from t r.
Proof. intros H. cbn [hold_from]. now rewrite H. Qed.

Lemma last_accepted_hold_from pre :
  last_accepted pre
  = last (hold_from (F64.of_Z (-1000000000)) pre) (F64.of_Z (-1000000000)).
Proof. unfold last_accepted. now rewrite fold_hold_step. Qed.

(** C3. The accepted onsets are strictly increasing, consecutive ones are
    at least [HOLD_SEC] (0.18 s) apart as the loop measures it
    ([t - last_t >= HOLD_SEC]), a burst of raw onsets that all fall within
    the hold time of an accepted onset collapses to that first member,
    and raw onsets 1.0 s and 1.05 s give the single onset 1.0 s. *)
Theorem accept_onsets_spaced (raw : list spec_float) :
  Forall (fun t => F64.valid t = true) raw ->
  (forall i a b,
      nth_error (accept_onsets raw) i = Some a ->
      nth_error (accept_onsets raw) (S i) = Some b ->
      F64.geb (F64.sub b a) HOLD_SEC = true /\ F64.ltb a b = true)
  /\ (forall pre t0 burst rest,
         F64.geb (F64.sub t0 (last_accepted pre)) HOLD_SEC = true ->
         Forall (fun b => F64.geb (F64.sub b t0) HOLD_SEC = false) burst ->
         accept_onsets (pre ++ t0 :: burst ++ rest)%list
         = accept_onsets (pre ++ t0 :: rest)%list
         /\ accept_onsets (pre ++ t0 :: burst)%list
            = (accept_onsets pre ++ [t0])%list)
  /\ accept_onsets [F64.of_Z 1; F64.lit 105 100] = [F64.of_Z 1].
Proof.
  intros Hvalid. split; [|split].
  - intros i a b Ha Hb. rewrite accept_onsets_hold_from in Ha, Hb.
    assert (F64.geb (F64.sub b a) HOLD_SEC = true) as Hge.
    { eapply spaced_consecutive; eauto using hold_from_spaced. }
    split; [assumption|].
    rewrite Forall_forall in Hvalid.
    apply nth_error_In, hold_from_incl, Hvalid in Ha.
    apply nth_error_In, hold_from_incl, Hvalid in Hb.
    unfold F64.geb in Hge. rewrite HOLD_SEC_bits in Hge.
    apply (sub_ge_pos_lt F64.prec F64.emax eq_refl eq_refl _ _ b a Hb Ha Hge).
  - intros pre t0 burst rest Ht0 Hburst.
    rewrite !accept_onsets_hold_from, !hold_from_app.
    rewrite last_accepted_hold_from in Ht0.
    rewrite !(hold_from_accept _ _ _ Ht0).
    rewrite (hold_from_burst burst t0 Hburst rest).
    split; [reflexivity|].
    rewrite <- (app_nil_r burst), (hold_from_burst burst t0 Hburst []).
    reflexivity.
  - vm_compute. reflexivity.
Qed.

(** ** Thresholding *)

Lemma combine_seq_In {A} (l : list A) : forall s k v,
  In (k, v) (combine (map Z.of_nat (seq s (List.length l))) l)
  <-> exists i : nat, k = Z.of_nat (s + i) /\ nth_error l i = Some v.
Proof.
  induction l as [| x r IH]; intros s k v; simpl.
  - split; [tauto|]. intros (i & _ & H). destruct i; discriminate.
  - rewrite IH. split.
    + intros [H | (i & Hk & Hi)].
      * injection H as <- <-. exists 0%nat. split; [f_equal; lia | reflexivity].
      * exists (S i). split; [rewrite Hk; f_equal; lia | assumption].
    + intros ([| i] & Hk & Hi).
      * left. simpl in Hi. injection Hi as ->. rewrite Hk. do 2 f_equal. lia.
      * right. exists i. split; [rewrite Hk; f_equal; lia | assumption].
Qed.

Lemma where_active_In (pred : list Z) (k : Z) :
  In k (where_active pred)
  <-> exists i : nat, k = Z.of_nat i + 1 /\ nth_error pred i = Some 1.
Proof.
  unfold where_active, range, len. rewrite Nat2Z.id, in_map_iff. split.
  - intros ([j v] & Hk & Hin). apply filter_In in Hin. destruct Hin as [Hin Hv].
    simpl in Hk, Hv. apply Z.eqb_eq in Hv. subst v.
    apply combine_seq_In in Hin. destruct Hin as (i & Hj & Hi).
    exists i. split; [lia | assumption].
  - intros (i & Hk & Hi). exists (Z.of_nat i, 1). split; [simpl; lia|].
    apply filter_In. split; [|reflexivity].
    apply combine_seq_In. exists i. split; [reflexivity | assumption].
Qed.

Lemma threshold_pred_nth probs : forall thr i,
  nth_error (threshold_pred probs thr) i
  = match nth_error probs i, nth_error thr i with
    | Some p, Some t => Some (if F32.geb p t then 1 else 0)
    | _, _ => None
    end.
Proof.
  unfold threshold_pred.
  induction probs as [| p r IH]; intros thr i.
  - destruct i; reflexivity.
  - destruct thr as [| t thr'].
    + destruct i; simpl; [reflexivity|]. now destruct (nth_error r i).
    + destruct i; simpl; [reflexivity | apply IH].
Qed.

Lemma thresholds_nth (use_yin_fallback : bool) (i : nat) :
  (i < 16)%nat ->
  nth_error (thresholds use_yin_fallback) i
  = Some (string_threshold use_yin_fallback (Z.of_nat i + 1)).
Proof.
  intros Hi. destruct use_yin_fallback;
    do 16 (destruct i as [| i]; [vm_compute; reflexivity|]); lia.
Qed.

Lemma threshold_pred_length probs thr :
  List.length thr = List.length probs ->
  List.length (threshold_pred probs thr) = List.length probs.
Proof.
  intros H. unfold threshold_pred. rewrite length_map, length_combine. lia.
Qed.

Lemma thresholds_length b : List.length (thresholds b) = 16%nat.
Proof. destruct b; reflexivity. Qed.

(** C4. The active set of the threshold decision is exactly the set of
    strings whose probability is at least their threshold: 0.25 for every
    string in default mode, and in hybrid mode 0.25 except 0.03 for string
    12.  With string 12 at 0.04 and the others at 0.20 the set is {12} in
    hybrid mode and empty in default mode; in default mode all 0.26 gives
    all 16 strings and all 0.24 gives none. *)
Theorem threshold_active_set (use_yin_fallback : bool) (probs : list spec_float) :
  len probs = NUM_STRINGS ->
  (forall k,
      In k (where_active (threshold_pred probs (thresholds use_yin_fallback)))
      <-> 1 <= k <= 16
          /\ F32.geb (prob_of probs k) (string_threshold use_yin_fallback k)
             = true)
  /\ where_active
       (threshold_pred (probs_with_12 (F32.lit 20 100) (F32.lit 4 100))
          (thresholds true)) = [12]
  /\ where_active
       (threshold_pred (probs_with_12 (F32.lit 20 100) (F32.lit 4 100))
          (thresholds false)) = []
  /\ where_active
       (threshold_pred (repeat (F32.lit 26 100) 16) (thresholds false))
     = [1; 2; 3; 4; 5; 6; 7; 8; 9; 10; 11; 12; 13; 14; 15; 16]
  /\ where_active
       (threshold_pred (repeat (F32.lit 24 100) 16) (thresholds false)) = [].
Proof.
  intros Hlen.
  split; [| repeat split; vm_compute; reflexivity].
  assert (List.length probs = 16%nat) as Hlen'
    by (unfold len, NUM_STRINGS in Hlen; lia).
  intros k. rewrite where_active_In. unfold prob_of. split.
  - intros (i & -> & Hi). rewrite threshold_pred_nth in Hi.
    destruct (nth_error probs i) as [p |] eqn:Hp; [|discriminate].
    assert (i < 16)%nat as Hi16
      by (rewrite <- Hlen'; apply nth_error_Some; congruence).
    rewrite (thresholds_nth _ _ Hi16) in Hi.
    split; [lia|].
    replace (Z.to_nat (Z.of_nat i + 1 - 1)) with i by lia.
    rewrite (nth_error_nth _ _ _ Hp).
    destruct (F32.geb p _); [reflexivity | discriminate].
  - intros (Hk & Hge). exists (Z.to_nat (k - 1)). split; [lia|].
    rewrite threshold_pred_nth.
    assert (Z.to_nat (k - 1) < 16)%nat as Hi16 by lia.
    destruct (nth_error probs (Z.to_nat (k - 1))) as [p |] eqn:Hp.
    + rewrite (thresholds_nth _ _ Hi16).
      replace (Z.of_nat (Z.to_nat (k - 1)) + 1) with k by lia.
      rewrite (nth_error_nth _ _ _ Hp) in Hge. now rewrite Hge.
    + apply nth_error_None in Hp. lia.
Qed.

(** ** The structure of a run *)

Section PipelineFacts.
Context {Svc : Services}.

Lemma mapM_nth {A B} (f : A -> option B) l : forall l' j x,
  mapM f l = Some l' -> nth_error l j = Some x ->
  exists y, f x = Some y /\ nth_error l' j = Some y.
Proof.
  induction l as [| a r IH]; intros l' j x H Hj.
  - destruct j; discriminate.
  - simpl in H. destruct (f a) as [b |] eqn:Hb; [|discriminate].
    destruct (mapM f r) as [bs |] eqn:Hbs; [|discriminate].
    injection H as <-. destruct j as [| j]; simpl in *.
    + injection Hj as <-. eauto.
    + eapply IH; eauto.
Qed.

Lemma mapM_length {A B} (f : A -> option B) l : forall l',
  mapM f l = Some l' -> List.length l' = List.length l.
Proof.
  induction l as [| a r IH]; intros l' H; simpl in H.
  - now injection H as <-.
  - destruct (f a); [|discriminate].
    destruct (mapM f r) as [bs |]; [|discriminate].
    injection H as <-. simpl. f_equal. now apply IH.
Qed.

Lemma collect_spec h y sr onsets : forall b0 b,
  collect h y sr b0 onsets = Some b ->
  valid_onsets b = (valid_onsets b0 ++ onsets)%list
  /\ (exists feats, mapM (onset_features y sr) onsets = Some feats
      /\ mel_batch b = (mel_batch b0 ++ map fst feats)%list
      /\ vec_batch b = (vec_batch b0 ++ map snd feats)%list)
  /\ (if h
      then exists segs, mapM (yin_segment y sr) onsets = Some segs
           /\ fallback_segments b = (fallback_segments b0 ++ segs)%list
      else fallback_segments b = fallback_segments b0).
Proof.
  induction onsets as [| t r IH]; intros b0 b H; simpl in H.
  - injection H as <-. rewrite app_nil_r. split; [reflexivity|]. split.
    + exists []. simpl. now rewrite !app_nil_r.
    + destruct h; [exists []; now rewrite app_nil_r | reflexivity].
  - unfold collect_step in H. cbn [mapM]. unfold onset_features at 1.
    destruct (classifier_clip y sr t) as [clip |]; [|discriminate].
    destruct (clip_to_mel_and_vec clip sr) as [m v] eqn:Hmv.
    destruct h.
    + destruct (yin_segment y sr t) as [seg |] eqn:Hseg; [|discriminate].
      apply IH in H. simpl in H.
      destruct H as (Hv & (feats & Hf & Hm & Hvec) & segs & Hs & Hfs).
      rewrite <- app_assoc in Hv, Hm, Hvec, Hfs. split; [assumption|]. split.
      * exists ((m, v) :: feats). rewrite Hf. auto.
      * exists (seg :: segs). rewrite Hs. auto.
    + apply IH in H. simpl in H.
      destruct H as (Hv & (feats & Hf & Hm & Hvec) & Hfs).
      rewrite <- app_assoc in Hv, Hm, Hvec. split; [assumption|]. split.
      * exists ((m, v) :: feats). rewrite Hf. auto.
      * assumption.
Qed.

Lemma process_nth h thr ap segs sr onsets : forall i recs,
  process h thr ap segs sr i onsets = Some recs ->
  List.length recs = List.length onsets
  /\ forall j l r, nth_error recs j = Some (l, r) ->
       exists t probs,
         nth_error onsets j = Some t
         /\ nth_error ap (i + j) = Some probs
         /\ decide h thr segs sr (i + j) probs = Some l
         /\ r = make_row h t probs l.
Proof.
  induction onsets as [| t rest IH]; intros i recs H; simpl in H.
  - injection H as <-. split; [reflexivity|]. intros [|j]; discriminate.
  - destruct (nth_error ap i) as [probs |] eqn:Hp; [|discriminate].
    destruct (decide h thr segs sr i probs) as [l0 |] eqn:Hd; [|discriminate].
    destruct (process h thr ap segs sr (S i) rest) as [more |] eqn:Hm;
      [|discriminate].
    injection H as <-. apply IH in Hm. destruct Hm as [Hlen Hnth].
    split; [simpl; now f_equal|].
    intros [| j] l r Hj; simpl in Hj.
    + injection Hj as <- <-. exists t, probs.
      rewrite Nat.add_0_r. auto.
    + apply Hnth in Hj. destruct Hj as (t' & probs' & H1 & H2 & H3 & H4).
      exists t', probs'. rewrite <- plus_n_Sm. auto.
Qed.

Lemma decide_inv h thr segs sr i probs l :
  decide h thr segs sr i probs = Some l ->
  len probs = NUM_STRINGS
  /\ np_argmax probs = Some (top1 l - 1)
  /\ option_map F32.to_f64 (np_max probs) = Some (top1_prob l)
  /\ pred l = threshold_pred probs thr
  /\ (if fallback_condition h l
      then exists seg,
          nth_error segs i = Some seg /\ yin_input l = Some seg
          /\ match yin_string_from_segment seg sr with
             | Some (Some (s, _)) => active l = [s] /\ used l = "yin"
             | Some None =>
                 active l = where_active (pred l) /\ used l = "none"
             | None => False
             end
      else yin_input l = None /\ active l = where_active (pred l)
           /\ used l = "model").
Proof.
  unfold decide, fallback_condition.
  destruct (Z.eqb_spec (len probs) NUM_STRINGS) as [Hlen |]; [|discriminate].
  simpl negb. cbv iota.
  destruct (np_argmax probs) as [a |]; [|discriminate].
  destruct (np_max probs) as [mx |]; [|discriminate].
  set (c := h && _).
  destruct c eqn:Hc.
  - destruct (nth_error segs i) as [seg |]; [|discriminate].
    destruct (yin_string_from_segment seg sr) as [[[s p] |] |] eqn:Hy;
      [| |discriminate]; intros H; injection H as <-; simpl;
      fold c; rewrite Hc;
      (split; [assumption|]); (split; [f_equal; lia|]);
      (split; [reflexivity|]); (split; [reflexivity|]);
      exists seg; rewrite Hy; auto.
  - intros H; injection H as <-; simpl. fold c; rewrite Hc.
    split; [assumption|]. split; [f_equal; lia|]. auto.
Qed.

Lemma nth_error_split {A B} (l : list (A * B)) j a b :
  nth_error (map fst l) j = Some a -> nth_error (map snd l) j = Some b ->
  nth_error l j = Some (a, b).
Proof.
  rewrite !nth_error_map. destruct (nth_error l j) as [[a' b'] |]; simpl;
    [|discriminate]. now intros [= ->] [= ->].
Qed.

(** What a successful run consists of: one record per accepted onset,
    each the decision on the classifier's vector for that onset. *)
Lemma run_pipeline_inv y raw h fast out :
  run_pipeline y raw h fast = Some out ->
  exists all_probs segs,
    classify y (accept_onsets raw) = Some all_probs
    /\ segments h y (accept_onsets raw) = Some segs
    /\ List.length (df out) = List.length (accept_onsets raw)
    /\ List.length (trace out) = List.length (accept_onsets raw)
    /\ csv out = to_csv (df out)
    /\ Some (second out)
       = (if fast then option_map Json (json_results (df out))
          else option_map Srt (srt_entries h 1 (df out)))
    /\ forall j l r,
        nth_error (trace out) j = Some l -> nth_error (df out) j = Some r ->
        exists t probs,
          nth_error (accept_onsets raw) j = Some t
          /\ nth_error all_probs j = Some probs
          /\ decide h (thresholds h) segs SAMPLE_RATE j probs = Some l
          /\ r = make_row h t probs l.
Proof.
  unfold run_pipeline. intros H.
  destruct (collect h y SAMPLE_RATE no_batches (accept_onsets raw)) as [b |]
    eqn:Hc; [|discriminate].
  apply collect_spec in Hc. simpl in Hc.
  destruct Hc as (Hv & (feats & Hf & Hm & Hvec) & Hsegs).
  rewrite Hv, Hm, Hvec in H.
  destruct (process h (thresholds h) _ (fallback_segments b) SAMPLE_RATE 0
              (accept_onsets raw)) as [recs |] eqn:Hp; [|discriminate].
  apply process_nth in Hp. destruct Hp as [Hlen Hnth].
  set (art := if fast then _ else _) in H.
  destruct art as [a |] eqn:Ha; [|discriminate].
  injection H as <-. simpl.
  eexists. exists (fallback_segments b).
  split; [unfold classify; rewrite Hf; reflexivity|].
  split.
  { unfold segments. destruct h; [|now rewrite Hsegs].
    destruct Hsegs as (segs & Hs & ->). assumption. }
  rewrite !length_map. repeat (split; [auto|]).
  intros j l r Hl Hr.
  pose proof (nth_error_split _ _ _ _ Hl Hr) as Hj.
  apply Hnth in Hj. exact Hj.
Qed.
End PipelineFacts.

(** ** The arbitration between classifier and pitch fallback *)

Section Arbitration.
Context {Svc : Services}.

Lemma len_nil_iff {A} (l : list A) : (len l =? 0) = true <-> l = [].
Proof.
  unfold len. rewrite Z.eqb_eq. destruct l; simpl; split; intros H;
    try reflexivity; try discriminate; lia.
Qed.

Lemma fallback_condition_iff h l :
  fallback_condition h l = true
  <-> h = true
      /\ (F64.ltb (top1_prob l) MODEL_CONF_MIN = true
          \/ where_active (pred l) = []).
Proof.
  unfold fallback_condition.
  rewrite andb_true_iff, orb_true_iff, len_nil_iff. tauto.
Qed.

Lemma freq_dists_length pitch : List.length (freq_dists pitch) = 16%nat.
Proof. unfold freq_dists. rewrite length_map. reflexivity. Qed.

Lemma argext_from_range better l : forall bi b i,
  0 <= bi < i ->
  0 <= fst (argext_from better bi b i l) < i + len l.
Proof.
  unfold len.
  induction l as [| x r IH]; intros bi b i Hb; simpl argext_from.
  - simpl. lia.
  - destruct (is_nan b); [simpl; lia|].
    destruct (is_nan x || better x b).
    + specialize (IH i x (i + 1) ltac:(lia)). simpl List.length. lia.
    + specialize (IH bi b (i + 1) ltac:(lia)). simpl List.length. lia.
Qed.

Lemma nearest_string_range pitch :
  exists k, nearest_string pitch = Some k /\ 1 <= k <= 16.
Proof.
  unfold nearest_string, np_argmin.
  pose proof (freq_dists_length pitch) as Hlen.
  destruct (freq_dists pitch) as [| d r]; [discriminate|].
  eexists. split; [reflexivity|].
  pose proof (argext_from_range (fun a b => SFltb a b) r 0 d 1 ltac:(lia)) as H.
  unfold len in H. simpl in Hlen. lia.
Qed.

Lemma yin_string_from_segment_spec seg sr :
  match voiced (yin seg sr) with
  | [] => yin_string_from_segment seg sr = Some None
  | f0 =>
      exists s, nearest_string (median f0) = Some s /\ 1 <= s <= 16
                /\ yin_string_from_segment seg sr = Some (Some (s, median f0))
  end.
Proof.
  unfold yin_string_from_segment. fold (voiced (yin seg sr)).
  destruct (voiced (yin seg sr)) as [| x r] eqn:Hv; [reflexivity|].
  replace (len (x :: r) =? 0) with false
    by (symmetry; apply Z.eqb_neq; unfold len; simpl; lia).
  destruct (nearest_string_range (median (x :: r))) as (s & Hs & Hr).
  exists s. rewrite Hs. auto.
Qed.

(** When the fallback runs and no frame is voiced, the tag is ["none"]
    and [active] keeps the threshold decision. *)
Lemma fallback_exhausted h thr segs sr i probs l seg :
  decide h thr segs sr i probs = Some l ->
  yin_input l = Some seg -> voiced (yin seg sr) = [] ->
  used l = "none" /\ active l = where_active (pred l).
Proof.
  intros Hd Hy Hv. apply decide_inv in Hd.
  destruct Hd as (_ & _ & _ & _ & Hd).
  destruct (fallback_condition h l).
  - destruct Hd as (seg' & _ & Hy' & Hd). rewrite Hy in Hy'.
    injection Hy' as <-.
    pose proof (yin_string_from_segment_spec seg sr) as Hs.
    rewrite Hv in Hs. rewrite Hs in Hd. tauto.
  - destruct Hd as (Hn & _). congruence.
Qed.

End Arbitration.

(** ** The fields of a row *)

Lemma int_of_str_of_Z z : int_of_str (str_of_Z z) = Some z.
Proof.
  unfold int_of_str, str_of_Z. rewrite NilZero.isi.
  - simpl. now rewrite DecimalZ.of_to.
  - destruct z; simpl; try discriminate.
    intros [= H]. now apply DecimalPos.Unsigned.to_uint_nonnil in H.
  - destruct z; simpl; try discriminate.
    intros [= H]. now apply DecimalPos.Unsigned.to_uint_nonnil in H.
Qed.

Lemma str_of_Z_inj a b : str_of_Z a = str_of_Z b -> a = b.
Proof.
  intros H. pose proof (int_of_str_of_Z a) as Ha.
  rewrite H, int_of_str_of_Z in Ha. congruence.
Qed.

Lemma row_get_app k (a b : row) :
  row_get k (a ++ b)%list
  = match row_get k a with Some v => Some v | None => row_get k b end.
Proof.
  induction a as [| [k' v] a IH]; simpl; [reflexivity|].
  destruct (String.eqb k k'); [reflexivity | apply IH].
Qed.

Lemma row_get_fixed_fields h t probs l :
  row_get "time_sec" (make_row h t probs l) = Some (VFloat t)
  /\ row_get "predicted_strings" (make_row h t probs l)
     = Some (VStr (if 0 <? len (active l)
                   then String.concat "," (map str_of_Z (active l)) else ""))
  /\ row_get "top1" (make_row h t probs l) = Some (VInt (top1 l))
  /\ row_get "top1_prob" (make_row h t probs l) = Some (VFloat (top1_prob l)).
Proof. repeat split. Qed.

Lemma row_get_used t probs l :
  row_get "used" (make_row true t probs l) = Some (VStr (used l)).
Proof. reflexivity. Qed.

Lemma row_get_used_default t probs l :
  row_get "used" (make_row false t probs l) = None.
Proof. reflexivity. Qed.

Lemma append_inj_l p : forall a b, (p ++ a = p ++ b)%string -> a = b.
Proof.
  induction p as [| c p IH]; intros a b H; simpl in H; [assumption|].
  injection H as H. now apply IH.
Qed.

Lemma keyed_eqb p a b :
  String.eqb (p ++ str_of_Z a) (p ++ str_of_Z b) = (a =? b).
Proof.
  destruct (Z.eqb_spec a b) as [-> | Hne].
  - apply String.eqb_refl.
  - apply String.eqb_neq. intros H.
    apply append_inj_l, str_of_Z_inj in H. contradiction.
Qed.

(** Lookup of [prefix{s}] in the entries [prefix{i+1}: val i] for [i] in
    [range n]. *)
Lemma row_get_keyed p (val : Z -> value) s m : forall a : nat,
  row_get (p ++ str_of_Z s)
    (map (fun i => ((p ++ str_of_Z (i + 1))%string, val i))
         (map Z.of_nat (seq a m)))
  = if (Z.of_nat a + 1 <=? s) && (s <=? Z.of_nat a + Z.of_nat m)
    then Some (val (s - 1)) else None.
Proof.
  induction m as [| m IH]; intros a; simpl.
  - destruct (Z.leb_spec (Z.of_nat a + 1) s), (Z.leb_spec s (Z.of_nat a + 0));
      simpl; try reflexivity; lia.
  - rewrite keyed_eqb. destruct (Z.eqb_spec s (Z.of_nat a + 1)) as [-> | Hne].
    + replace (Z.of_nat a + 1 - 1) with (Z.of_nat a) by lia.
      destruct (Z.leb_spec (Z.of_nat a + 1) (Z.of_nat a + 1)); [|lia].
      destruct (Z.leb_spec (Z.of_nat a + 1) (Z.of_nat a + Z.pos (Pos.of_succ_nat m)));
        [reflexivity | lia].
    + rewrite IH.
      destruct (Z.leb_spec (Z.of_nat (S a) + 1) s),
               (Z.leb_spec s (Z.of_nat (S a) + Z.of_nat m)),
               (Z.leb_spec (Z.of_nat a + 1) s),
               (Z.leb_spec s (Z.of_nat a + Z.pos (Pos.of_succ_nat m)));
        simpl; try reflexivity; lia.
Qed.

Lemma row_get_other_keys k (key : Z -> string) (val : Z -> value) l :
  (forall i, String.eqb k (key i) = false) ->
  row_get k (map (fun i => (key i, val i)) l) = None.
Proof.
  intros H. induction l as [| i l IH]; simpl; [reflexivity|].
  now rewrite H.
Qed.

Lemma row_get_prob_key h t probs l s :
  row_get (prob_key s) (make_row h t probs l)
  = if (1 <=? s) && (s <=? 16)
    then Some (VFloat (F32.to_f64 (prob_of probs s))) else None.
Proof.
  unfold make_row. rewrite !row_get_app.
  replace (row_get (prob_key s) _) with (@None value) at 1 by reflexivity.
  unfold prob_key at 1 2, range.
  rewrite (row_get_keyed "prob_S"
             (fun i => VFloat (F32.to_f64 (nth (Z.to_nat i) probs S754_nan)))).
  change (Z.of_nat 0 + 1) with 1.
  change (Z.of_nat 0 + Z.of_nat (Z.to_nat NUM_STRINGS)) with 16.
  destruct ((1 <=? s) && (s <=? 16)); [reflexivity|].
  rewrite row_get_other_keys by (intros i; reflexivity).
  destruct h; reflexivity.
Qed.

Lemma row_get_pred_key h t probs l s :
  row_get (pred_key s) (make_row h t probs l)
  = if (1 <=? s) && (s <=? 16)
    then Some (VInt (nth (Z.to_nat (s - 1)) (pred l) 0)) else None.
Proof.
  unfold make_row. rewrite !row_get_app.
  replace (row_get (pred_key s) _) with (@None value) at 1 by reflexivity.
  rewrite row_get_other_keys by (intros i; reflexivity).
  unfold pred_key at 1 2, range.
  rewrite (row_get_keyed "pred_S"
             (fun i => VInt (nth (Z.to_nat i) (pred l) 0))).
  change (Z.of_nat 0 + 1) with 1.
  change (Z.of_nat 0 + Z.of_nat (Z.to_nat NUM_STRINGS)) with 16.
  destruct ((1 <=? s) && (s <=? 16)); [reflexivity|].
  destruct h; reflexivity.
Qed.

Lemma threshold_pred_value h probs k :
  len probs = NUM_STRINGS -> 1 <= k <= 16 ->
  nth (Z.to_nat (k - 1)) (threshold_pred probs (thresholds h)) 0
  = if F32.geb (prob_of probs k) (string_threshold h k) then 1 else 0.
Proof.
  intros Hlen Hk. unfold len, NUM_STRINGS in Hlen. unfold prob_of.
  assert (Z.to_nat (k - 1) < 16)%nat as Hi by lia.
  destruct (nth_error probs (Z.to_nat (k - 1))) as [p |] eqn:Hp.
  - apply nth_error_nth.
    rewrite threshold_pred_nth, Hp, (thresholds_nth _ _ Hi).
    rewrite (nth_error_nth _ _ _ Hp).
    replace (Z.of_nat (Z.to_nat (k - 1)) + 1) with k by lia. reflexivity.
  - apply nth_error_None in Hp. lia.
Qed.

Lemma make_row_frame h t probs l l' key :
  top1 l = top1 l' -> top1_prob l = top1_prob l' -> pred l = pred l' ->
  key <> "predicted_strings" -> key <> "used" ->
  row_get key (make_row h t probs l) = row_get key (make_row h t probs l').
Proof.
  intros H1 H2 H3 Hps Hused. unfold make_row.
  rewrite !row_get_app, H1, H2, H3.
  apply String.eqb_neq in Hps, Hused.
  cbn [row_get]. rewrite Hps.
  destruct (String.eqb key "time_sec"); [reflexivity|].
  destruct (String.eqb key "top1"); [reflexivity|].
  destruct (String.eqb key "top1_prob"); [reflexivity|].
  destruct (row_get key (map _ (range NUM_STRINGS))); [reflexivity|].
  destruct (row_get key (map _ (range NUM_STRINGS))); [reflexivity|].
  destruct h; [|reflexivity]. cbn [row_get]. now rewrite Hused.
Qed.

Section Records.
Context {Svc : Services}.

(** The decision the same iteration takes without the fallback. *)
Lemma decide_without_fallback h thr segs sr i probs l :
  decide h thr segs sr i probs = Some l ->
  exists l0,
    decide false thr [] sr i probs = Some l0
    /\ top1 l0 = top1 l /\ top1_prob l0 = top1_prob l /\ pred l0 = pred l
    /\ active l0 = where_active (pred l) /\ used l0 = "model".
Proof.
  unfold decide.
  destruct (negb (len probs =? NUM_STRINGS)); [discriminate|].
  destruct (np_argmax probs) as [a |]; [|discriminate].
  destruct (np_max probs) as [mx |]; [|discriminate].
  cbn [andb].
  destruct (h && _).
  - destruct (nth_error segs i) as [seg |]; [|discriminate].
    destruct (yin_string_from_segment seg sr) as [[[s p] |] |];
      [| |discriminate]; intros [= <-]; eexists; (split; [reflexivity|]);
      simpl; auto.
  - intros [= <-]. eexists. split; [reflexivity|]. simpl; auto.
Qed.

(** C9. In hybrid mode the fields [pred_S1..pred_S16], [top1] and
    [top1_prob] of a row are the threshold decision and the argmax of
    the classifier's probabilities, whatever the fallback does: the row
    agrees with the row of the decision without fallback on every key
    other than [predicted_strings] and [used]. *)
Theorem threshold_fields_unchanged y raw fast out j l r :
  run_pipeline y raw true fast = Some out ->
  nth_error (trace out) j = Some l -> nth_error (df out) j = Some r ->
  exists t probs all_probs a mx l0,
    classify y (accept_onsets raw) = Some all_probs
    /\ nth_error all_probs j = Some probs
    /\ np_argmax probs = Some a /\ np_max probs = Some mx
    /\ (forall k, 1 <= k <= 16 ->
          row_get (pred_key k) r
          = Some (VInt (if F32.geb (prob_of probs k) (string_threshold true k)
                        then 1 else 0)))
    /\ row_get "top1" r = Some (VInt (a + 1))
    /\ row_get "top1_prob" r = Some (VFloat (F32.to_f64 mx))
    /\ decide false (thresholds true) [] SAMPLE_RATE j probs = Some l0
    /\ active l0 = where_active (threshold_pred probs (thresholds true))
    /\ (forall key, key <> "predicted_strings" -> key <> "used" ->
          row_get key r = row_get key (make_row true t probs l0)).
Proof.
  intros Hrun Hl Hr. apply run_pipeline_inv in Hrun.
  destruct Hrun as (all_probs & segs & Hcl & _ & _ & _ & _ & _ & Hrec).
  destruct (Hrec j l r Hl Hr) as (t & probs & Ht & Hp & Hd & ->).
  pose proof (decide_inv _ _ _ _ _ _ _ Hd) as (Hlen & Ha & Hmax & Hpred & _).
  destruct (decide_without_fallback _ _ _ _ _ _ _ Hd)
    as (l0 & Hd0 & H1 & H2 & H3 & H4 & _).
  destruct (np_max probs) as [mx |] eqn:Hmx; [|discriminate].
  injection Hmax as Hmax.
  exists t, probs, all_probs, (top1 l - 1), mx, l0.
  repeat (split; [assumption || reflexivity|]).
  split.
  { intros k Hk. rewrite row_get_pred_key.
    destruct (Z.leb_spec 1 k); [|lia]. destruct (Z.leb_spec k 16); [|lia].
    simpl. rewrite Hpred, threshold_pred_value by assumption. reflexivity. }
  split.
  { replace (top1 l - 1 + 1) with (top1 l) by lia.
    apply (row_get_fixed_fields true t probs l). }
  split.
  { rewrite Hmax. apply (row_get_fixed_fields true t probs l). }
  split; [assumption|]. split; [now rewrite H4, Hpred|].
  intros key Hps Hu. apply make_row_frame; auto.
Qed.
End Records.

(** The example vector of the string-12 threshold through the whole
    decision: top-1 is 0.20 as a float32, not below [MODEL_CONF_MIN], so
    the fallback stays out and the record keeps {12}. *)
Example string12_decision (Svc : Services) (seg : list spec_float) :
  option_map (fun l => (active l, used l, yin_input l))
    (decide true (thresholds true) [seg] SAMPLE_RATE 0
       (probs_with_12 (F32.lit 20 100) (F32.lit 4 100)))
  = Some ([12], "model", None).
Proof. vm_compute. reflexivity. Qed.

(** ** Decision-source tags *)

(** C2, as stated, fails on [pitch_job]: the tag of a successful fallback
    is ["yin"], which is none of ["model"], ["pitch"], ["none"]. *)
Lemma pitch_job_tag_is_yin :
  exists out r,
    pitch_job = Some out /\ nth_error (df out) 0 = Some r
    /\ row_get "used" r = Some (VStr "yin")
    /\ ~ In "yin" ["model"; "pitch"; "none"].
Proof.
  do 2 eexists. split; [vm_compute; reflexivity|].
  split; [reflexivity|]. split; [reflexivity|].
  simpl. intros [H | [H | [H | []]]]; discriminate.
Qed.

Section Tags.
Context {Svc : Services}.

(** C2 (amended). In hybrid mode the tag of every record is one of
    ["model"], ["yin"], ["none"]; when the fallback runs and finds a
    voiced pitch the record has exactly one active string, the string
    nearest to the median pitch, and is tagged ["yin"]. *)
Theorem decision_source_tag y raw fast out j l r :
  run_pipeline y raw true fast = Some out ->
  nth_error (trace out) j = Some l -> nth_error (df out) j = Some r ->
  row_get "used" r = Some (VStr (used l))
  /\ (used l = "model" \/ used l = "yin" \/ used l = "none")
  /\ (forall seg,
        yin_input l = Some seg -> voiced (yin seg SAMPLE_RATE) <> [] ->
        exists s,
          nearest_string (median (voiced (yin seg SAMPLE_RATE))) = Some s
          /\ 1 <= s <= 16
          /\ active l = [s] /\ used l = "yin"
          /\ row_get "predicted_strings" r = Some (VStr (str_of_Z s))).
Proof.
  intros Hrun Hl Hr. apply run_pipeline_inv in Hrun.
  destruct Hrun as (all_probs & segs & _ & _ & _ & _ & _ & _ & Hrec).
  destruct (Hrec j l r Hl Hr) as (t & probs & _ & _ & Hd & ->).
  pose proof (decide_inv _ _ _ _ _ _ _ Hd) as (_ & _ & _ & _ & Hfb).
  split; [apply row_get_used|].
  pose proof (fun seg => yin_string_from_segment_spec seg SAMPLE_RATE) as Hy.
  destruct (fallback_condition true l).
  - destruct Hfb as (seg & _ & Hin & Hm). specialize (Hy seg).
    destruct (voiced (yin seg SAMPLE_RATE)) as [| x v] eqn:Hv.
    + rewrite Hy in Hm. destruct Hm as [_ Hu]. split; [auto|].
      intros seg' Hin'. rewrite Hin in Hin'. injection Hin' as <-.
      rewrite Hv. congruence.
    + destruct Hy as (s & Hs & Hr' & Hy). rewrite Hy in Hm.
      destruct Hm as [Ha Hu]. split; [auto|].
      intros seg' Hin' _. rewrite Hin in Hin'. injection Hin' as <-.
      rewrite Hv. exists s. repeat (split; [assumption|]).
      destruct (row_get_fixed_fields true t probs l) as (_ & Hps & _).
      rewrite Hps, Ha. reflexivity.
  - destruct Hfb as (Hn & _ & Hu). split; [auto|].
    intros seg Hin. congruence.
Qed.
End Tags.

(** ** The fast-path JSON *)

Section Json.
Context {Svc : Services}.

Lemma mapM_In {A B} (f : A -> option B) l : forall l' y,
  mapM f l = Some l' -> In y l' -> exists x, In x l /\ f x = Some y.
Proof.
  induction l as [| a r IH]; intros l' y H Hy; simpl in H.
  - injection H as <-. destruct Hy.
  - destruct (f a) as [b |] eqn:Hb; [|discriminate].
    destruct (mapM f r) as [bs |] eqn:Hbs; [|discriminate].
    injection H as <-. destruct Hy as [<- | Hy].
    + exists a. split; [now left | assumption].
    + destruct (IH bs y eq_refl Hy) as (x & Hx & Hfx).
      exists x. split; [now right | assumption].
Qed.

Lemma mapM_nth_inv {A B} (f : A -> option B) l : forall l' j y,
  mapM f l = Some l' -> nth_error l' j = Some y ->
  exists x, nth_error l j = Some x /\ f x = Some y.
Proof.
  induction l as [| a r IH]; intros l' j y H Hj; simpl in H.
  - injection H as <-. destruct j; discriminate.
  - destruct (f a) as [b |] eqn:Hb; [|discriminate].
    destruct (mapM f r) as [bs |] eqn:Hbs; [|discriminate].
    injection H as <-. destruct j as [| j]; simpl in *.
    + injection Hj as <-. eauto.
    + eapply IH; eauto.
Qed.

(** Every object of a row's JSON carries the row's time and, as
    [conf], the row's [prob_S{string}]. *)
Lemma json_of_row_In h t probs l objs o :
  json_of_row (make_row h t probs l) = Some objs -> In o objs ->
  j_t o = t /\ 1 <= j_string o <= 16
  /\ j_detections o
     = [ {| cls := "audio_onset";
            conf := F32.to_f64 (prob_of probs (j_string o)) |} ].
Proof.
  unfold json_of_row.
  destruct (row_get_fixed_fields h t probs l) as (Ht & Hps & _).
  rewrite Hps.
  destruct (if String.eqb _ "" then Some [] else _) as [strs |];
    [|discriminate].
  intros Hm Ho. destruct (mapM_In _ _ _ _ Hm Ho) as (n & _ & Hn).
  rewrite Ht, row_get_prob_key in Hn. simpl py_float in Hn.
  destruct (Z.leb_spec 1 n); [|discriminate].
  destruct (Z.leb_spec n 16); [|discriminate].
  simpl in Hn. injection Hn as <-. simpl. auto with zarith.
Qed.

(** C10. On the fast path every JSON object belongs to an accepted
    onset and its [conf] is the classifier's probability of the object's
    string for that onset, whatever the decision source.  In
    [pitch_job] the string comes from the pitch fallback and [conf] is
    the model's 0.01, below every threshold. *)
Theorem json_conf_is_model_probability :
  (forall y raw h out objs o,
      run_pipeline y raw h true = Some out ->
      second out = Json objs -> In o objs ->
      exists j t probs all_probs r,
        nth_error (accept_onsets raw) j = Some t
        /\ classify y (accept_onsets raw) = Some all_probs
        /\ nth_error all_probs j = Some probs
        /\ nth_error (df out) j = Some r
        /\ j_t o = t /\ 1 <= j_string o <= 16
        /\ row_get (prob_key (j_string o)) r
           = Some (VFloat (F32.to_f64 (prob_of probs (j_string o))))
        /\ j_detections o
           = [ {| cls := "audio_onset";
                  conf := F32.to_f64 (prob_of probs (j_string o)) |} ])
  /\ (exists out l,
        pitch_job = Some out /\ trace out = [l] /\ used l = "yin"
        /\ second out
           = Json [ {| j_t := F64.of_Z 0; j_string := 5;
                       j_detections :=
                         [ {| cls := "audio_onset";
                              conf := F32.to_f64 (F32.lit 1 100) |} ] |} ]
        /\ forall k, 1 <= k <= 16 ->
             F32.ltb (F32.lit 1 100) (string_threshold true k) = true).
Proof.
  split.
  - intros y raw h out objs o Hrun Hsec Ho.
    apply run_pipeline_inv in Hrun.
    destruct Hrun as (all_probs & segs & Hcl & _ & Hlen & Hlen' & _ & Hs & Hrec).
    rewrite Hsec in Hs. unfold json_results in Hs.
    destruct (mapM json_of_row (df out)) as [lists |] eqn:Hm; [|discriminate].
    simpl in Hs. injection Hs as ->.
    apply in_concat in Ho. destruct Ho as (objs_j & Hin & Ho).
    apply In_nth_error in Hin. destruct Hin as [j Hj].
    destruct (mapM_nth_inv _ _ _ _ _ Hm Hj) as (r & Hr & Hjson).
    assert (exists l, nth_error (trace out) j = Some l) as [l Hl].
    { destruct (nth_error (trace out) j) eqn:E; [eauto|].
      apply nth_error_None in E. rewrite Hlen', <- Hlen in E.
      apply nth_error_None in E. congruence. }
    destruct (Hrec j l r Hl Hr) as (t & probs & Ht & Hp & _ & ->).
    destruct (json_of_row_In _ _ _ _ _ _ Hjson Ho) as (H1 & H2 & H3).
    exists j, t, probs, all_probs, (make_row h t probs l).
    repeat (split; [assumption|]).
    split; [|assumption].
    rewrite row_get_prob_key.
    destruct (Z.leb_spec 1 (j_string o)); [|lia].
    destruct (Z.leb_spec (j_string o) 16); [|lia]. reflexivity.
  - do 2 eexists. split; [vm_compute; reflexivity|].
    split; [reflexivity|]. split; [reflexivity|].
    split; [vm_compute; reflexivity|].
    intros k Hk. assert (In k [1;2;3;4;5;6;7;8;9;10;11;12;13;14;15;16]) as H
      by (simpl; lia).
    simpl in H.
    repeat (destruct H as [<- | H]; [vm_compute; reflexivity|]).
    destruct H.
Qed.
End Json.

(** ** The CSV of a job *)

Lemma filter_seen (ks : list string) :
  filter (fun k => negb (existsb (String.eqb k) ks)) ks = [].
Proof.
  assert (forall l, incl l ks ->
            filter (fun k => negb (existsb (String.eqb k) ks)) l = []) as H.
  { induction l as [| k l IH]; intros Hl; [reflexivity|]. simpl.
    assert (existsb (String.eqb k) ks = true) as ->.
    { apply existsb_exists. exists k. split; [apply Hl; now left|].
      apply String.eqb_refl. }
    simpl. apply IH. intros x Hx. apply Hl. now right. }
  apply H, incl_refl.
Qed.

Lemma df_columns_same_keys ks (rows : list row) :
  rows <> [] -> (forall r, In r rows -> map fst r = ks) ->
  df_columns rows = ks.
Proof.
  intros Hne Hk. unfold df_columns.
  destruct rows as [| r0 rest]; [contradiction|]. simpl.
  rewrite (Hk r0 (or_introl eq_refl)).
  replace (filter _ ks) with ks by (symmetry; apply filter_true; reflexivity).
  assert (forall r, In r rest -> map fst r = ks) as Hrest
    by (intros r Hr; apply Hk; now right).
  clear Hk Hne. induction rest as [| r rest IH]; [reflexivity|]. simpl.
  rewrite (Hrest r (or_introl eq_refl)), filter_seen, app_nil_r.
  apply IH. intros r' Hr'. apply Hrest. now right.
Qed.

Lemma make_row_keys h t probs l : map fst (make_row h t probs l) = csv_columns h.
Proof. destruct h; reflexivity. Qed.

(** C7, as stated, fails on [silent_job]: with no accepted onset the CSV
    holds no column name, the header the interface lists is not written. *)
Lemma silent_job_csv_has_no_columns :
  exists out,
    silent_job true true = Some out
    /\ csv_header (csv out) = []
    /\ csv_header (csv out) <> csv_columns true.
Proof.
  eexists. split; [reflexivity|]. split; [reflexivity|]. discriminate.
Qed.

Section Csv.
Context {Svc : Services}.

(** C7 (amended). A job without accepted onsets completes: no record,
    a CSV without data rows whose header line names no column, an empty
    JSON array on the fast path and no subtitle block on the full path.
    The listed header ([csv_columns]) is what a job with at least one
    accepted onset writes, with one data row per onset. *)
Theorem empty_job_outputs y raw h fast :
  (accept_onsets raw = [] ->
   exists out,
     run_pipeline y raw h fast = Some out
     /\ df out = []
     /\ csv_header (csv out) = [] /\ csv_data (csv out) = []
     /\ second out = (if fast then Json [] else Srt []))
  /\ (forall out,
        run_pipeline y raw h fast = Some out -> accept_onsets raw <> [] ->
        csv_header (csv out) = csv_columns h
        /\ List.length (csv_data (csv out))
           = List.length (accept_onsets raw)).
Proof.
  split.
  - intros Hacc. unfold run_pipeline. rewrite Hacc. simpl.
    destruct fast; simpl; eexists; repeat split.
  - intros out Hrun Hne. apply run_pipeline_inv in Hrun.
    destruct Hrun as (all_probs & segs & _ & _ & Hlen & Hlen' & Hcsv & _ & Hrec).
    rewrite Hcsv. unfold to_csv. simpl. rewrite length_map. split; [|assumption].
    apply df_columns_same_keys.
    + intros E. rewrite E in Hlen. destruct (accept_onsets raw);
        [contradiction | discriminate].
    + intros r Hr. apply In_nth_error in Hr. destruct Hr as [j Hr].
      assert (exists l, nth_error (trace out) j = Some l) as [l Hl].
      { destruct (nth_error (trace out) j) eqn:E; [eauto|].
        apply nth_error_None in E. rewrite Hlen', <- Hlen in E.
        apply nth_error_None in E. congruence. }
      destruct (Hrec j l r Hl Hr) as (t & probs & _ & _ & _ & ->).
      apply make_row_keys.
Qed.
End Csv.

(** ** The subtitle track *)

(** C8, as stated, fails on [first_onset_job]: for an onset at 0 s the
    block runs from 0 s to 0.25 s, it does not start 0.02 s earlier. *)
Lemma first_onset_window_clamped :
  exists out b,
    first_onset_job = Some out /\ second out = Srt [b]
    /\ b_start b = "00:00:00,000" /\ b_end b = "00:00:00,250"
    /\ flash_window (F64.of_Z 0) = (f64_zero, FLASH_DURATION)
    /\ fst (flash_window (F64.of_Z 0)) <> F64.sub (F64.of_Z 0) (F64.lit 2 100).
Proof.
  do 2 eexists. split; [vm_compute; reflexivity|].
  split; [reflexivity|]. split; [reflexivity|]. split; [reflexivity|].
  split; [vm_compute; reflexivity|]. vm_compute. discriminate.
Qed.

Section Subtitles.
Context {Svc : Services}.

Lemma srt_entries_nth h rows : forall i blocks,
  srt_entries h i rows = Some blocks ->
  List.length blocks = List.length rows
  /\ forall j b, nth_error blocks j = Some b ->
       exists r, nth_error rows j = Some r
                 /\ srt_entry h (i + Z.of_nat j) r = Some b.
Proof.
  induction rows as [| r rest IH]; intros i blocks H; simpl in H.
  - injection H as <-. split; [reflexivity|]. intros [|j]; discriminate.
  - destruct (srt_entry h i r) as [b0 |] eqn:Hb; [|discriminate].
    destruct (srt_entries h (i + 1) rest) as [bs |] eqn:Hbs; [|discriminate].
    injection H as <-. apply IH in Hbs. destruct Hbs as [Hlen Hnth].
    split; [simpl; now f_equal|].
    intros [| j] b Hj; simpl in Hj.
    + injection Hj as <-. exists r. rewrite Z.add_0_r. auto.
    + apply Hnth in Hj. destruct Hj as (r' & Hr' & He).
      exists r'. split; [assumption|].
      replace (i + Z.of_nat (S j)) with (i + 1 + Z.of_nat j) by lia.
      assumption.
Qed.

Lemma srt_entry_make_row h i t probs l b :
  srt_entry h i (make_row h t probs l) = Some b ->
  b_index b = i
  /\ srt_time (fst (flash_window t)) = Some (b_start b)
  /\ srt_time (snd (flash_window t)) = Some (b_end b).
Proof.
  unfold srt_entry.
  destruct (row_get_fixed_fields h t probs l) as (Ht & Hps & _).
  rewrite Ht, Hps. simpl py_float. cbv iota.
  destruct (if h then _ else _) as [text |]; [|discriminate].
  destruct (flash_window t) as [start_t end_t]. simpl fst; simpl snd.
  destruct (srt_time start_t) as [a |]; [|discriminate].
  destruct (srt_time end_t) as [c |]; [|discriminate].
  intros [= <-]. auto.
Qed.

(** C8 (amended). On the full path there is one numbered block per
    accepted onset.  The block of the onset at [t] is stamped with the
    binary64 times [max(0, t - 0.02)] and that time plus
    [FLASH_DURATION] (0.25 s): both are finite and nonnegative, and a
    time below [2 ^ 53] s is written [HH:MM:SS,mmm] with its whole
    seconds split into hours, minutes and seconds and [mmm] the
    fraction in milliseconds rounded to nearest, a count from 0 to
    1000.  The onsets are canonical binary64 numbers. *)
Theorem subtitle_window_stamps y raw h out blocks :
  run_pipeline y raw h false = Some out -> second out = Srt blocks ->
  Forall (fun t => F64.valid t = true) raw ->
  List.length blocks = List.length (accept_onsets raw)
  /\ forall j b, nth_error blocks j = Some b ->
       exists t,
         nth_error (accept_onsets raw) j = Some t
         /\ b_index b = Z.of_nat j + 1
         /\ srt_time (window_start t) = Some (b_start b)
         /\ srt_time (window_end t) = Some (b_end b)
         /\ stamped (window_start t) (b_start b)
         /\ stamped (window_end t) (b_end b).
Proof.
  intros Hrun Hsec Hvalid. apply run_pipeline_inv in Hrun.
  destruct Hrun as (all_probs & segs & _ & _ & Hlen & Hlen' & _ & Hs & Hrec).
  rewrite Hsec in Hs.
  destruct (srt_entries h 1 (df out)) as [bs |] eqn:Hb; [|discriminate].
  simpl in Hs. injection Hs as ->.
  apply srt_entries_nth in Hb. destruct Hb as [Hbl Hnth].
  split; [congruence|].
  intros j b Hj. destruct (Hnth j b Hj) as (r & Hr & He).
  assert (exists l, nth_error (trace out) j = Some l) as [l Hl].
  { destruct (nth_error (trace out) j) eqn:E; [eauto|].
    apply nth_error_None in E. rewrite Hlen', <- Hlen in E.
    apply nth_error_None in E. congruence. }
  destruct (Hrec j l r Hl Hr) as (t & probs & Ht & _ & _ & ->).
  apply srt_entry_make_row in He. destruct He as (Hi & Ha & Hc).
  change (fst (flash_window t)) with (window_start t) in Ha.
  change (snd (flash_window t)) with (window_end t) in Hc.
  assert (F64.valid t = true) as Vt.
  { rewrite Forall_forall in Hvalid. apply Hvalid.
    apply nth_error_In in Ht. rewrite accept_onsets_hold_from in Ht.
    eapply hold_from_incl, Ht. }
  pose proof (srt_time_finite _ _ Ha) as Fa.
  pose proof (srt_time_finite _ _ Hc) as Fc.
  exists t. split; [assumption|]. split; [lia|].
  split; [assumption|]. split; [assumption|]. split.
  - apply stamped_of; [apply window_start_fin|]; assumption.
  - apply stamped_of; [apply window_end_fin|]; assumption.
Qed.
End Subtitles.

(** ** Pitch to string *)

Lemma f32_ltb_ord x y :
  number32 x -> number32 y ->
  F32.ltb x y = (float_ord F32.prec F32.emax x <? float_ord F32.prec F32.emax y).
Proof.
  intros [Vx Nx] [Vy Ny]. unfold F32.ltb, SFltb.
  rewrite (f32_compare x y Vx Vy Nx Ny), Z.ltb_compare.
  now destruct (_ ?= _).
Qed.

Lemma f32_leb_ord x y :
  number32 x -> number32 y ->
  F32.leb x y = (float_ord F32.prec F32.emax x <=? float_ord F32.prec F32.emax y).
Proof.
  intros [Vx Nx] [Vy Ny]. unfold F32.leb, SFleb.
  rewrite (f32_compare x y Vx Vy Nx Ny), Z.leb_compare.
  now destruct (_ ?= _).
Qed.

(** [np.argmin] returns the first index of a least element. *)
Lemma argmin_from_spec l : forall seen bi b,
  Forall number32 (seen ++ l) ->
  0 <= bi < len seen -> nth_error seen (Z.to_nat bi) = Some b ->
  (forall j x, nth_error seen j = Some x ->
     F32.leb b x = true /\ (Z.of_nat j < bi -> F32.ltb b x = true)) ->
  exists v,
    nth_error (seen ++ l)
      (Z.to_nat (fst (argext_from (fun a b => SFltb a b) bi b (len seen) l)))
    = Some v
    /\ forall j x, nth_error (seen ++ l) j = Some x ->
         F32.leb v x = true
         /\ (Z.of_nat j < fst (argext_from (fun a b => SFltb a b) bi b (len seen) l)
             -> F32.ltb v x = true).
Proof.
  induction l as [| x r IH]; intros seen bi b Hok Hbi Hb Hinv.
  - simpl. rewrite app_nil_r. eauto.
  - assert (number32 b) as Ob.
    { rewrite Forall_forall in Hok. apply Hok, in_or_app. left.
      eapply nth_error_In; eauto. }
    assert (number32 x) as Ox.
    { rewrite Forall_forall in Hok. apply Hok, in_or_app. right. now left. }
    assert (forall j z, nth_error seen j = Some z -> number32 z) as Oseen.
    { intros j z Hz. rewrite Forall_forall in Hok. apply Hok, in_or_app. left.
      eapply nth_error_In; eauto. }
    simpl argext_from.
    destruct Ob as [Vb Nb]. rewrite Nb.
    destruct Ox as [Vx Nx]. rewrite Nx. simpl orb.
    assert (number32 b) as Ob by (split; assumption).
    assert (number32 x) as Ox by (split; assumption).
    assert (len (seen ++ [x]) = len seen + 1) as Hlen
      by (unfold len; rewrite length_app; simpl; lia).
    replace (seen ++ x :: r)%list with ((seen ++ [x]) ++ r)%list in *
      by (rewrite <- app_assoc; reflexivity).
    rewrite <- Hlen.
    assert (forall j z, nth_error (seen ++ [x]) j = Some z ->
              (nth_error seen j = Some z /\ Z.of_nat j < len seen)
              \/ (z = x /\ Z.of_nat j = len seen)) as Hcase.
    { intros j z Hz. unfold len.
      destruct (Nat.lt_ge_cases j (List.length seen)) as [Hlt | Hge].
      - rewrite nth_error_app1 in Hz by assumption. left. split; [assumption | lia].
      - rewrite nth_error_app2 in Hz by assumption.
        destruct (j - List.length seen)%nat as [| n] eqn:En; simpl in Hz.
        + injection Hz as <-. right. split; [reflexivity | lia].
        + destruct n; discriminate. }
    destruct (SFltb x b) eqn:Hlt.
    + apply IH; try assumption.
      * unfold len in *. lia.
      * unfold len. rewrite Nat2Z.id, nth_error_app2, Nat.sub_diag by lia.
        reflexivity.
      * change (F32.ltb x b = true) in Hlt.
        rewrite (f32_ltb_ord x b Ox Ob), Z.ltb_lt in Hlt.
        intros j z Hz. destruct (Hcase j z Hz) as [[Hs Hj] | [-> Hj]].
        -- destruct (Hinv j z Hs) as [Hle _].
           pose proof (Oseen j z Hs) as Oz.
           rewrite (f32_leb_ord b z Ob Oz), Z.leb_le in Hle.
           rewrite (f32_leb_ord x z Ox Oz), (f32_ltb_ord x z Ox Oz).
           rewrite Z.leb_le, Z.ltb_lt. split; [lia|]. intros _. lia.
        -- rewrite (f32_leb_ord x x Ox Ox), Z.leb_le. split; lia.
    + apply IH; try assumption.
      * unfold len in *. lia.
      * rewrite nth_error_app1; [assumption|].
        apply nth_error_Some. congruence.
      * change (F32.ltb x b = false) in Hlt.
        rewrite (f32_ltb_ord x b Ox Ob), Z.ltb_ge in Hlt.
        intros j z Hz. destruct (Hcase j z Hz) as [[Hs Hj] | [-> Hj]].
        -- apply Hinv. assumption.
        -- rewrite (f32_leb_ord b x Ob Ox), Z.leb_le. split; lia.
Qed.

Lemma FREQS_numbers :
  Forall (fun f => F32.valid f = true /\ is_finite f = true) FREQS.
Proof. repeat (constructor; [split; vm_compute; reflexivity|]). constructor. Qed.

Lemma of_f64_number32 pitch : is_nan pitch = false -> number32 (F32.of_f64 pitch).
Proof.
  intros Hn. destruct pitch as [s | s | | s m e]; try discriminate;
    try (split; reflexivity).
  split.
  - apply binary_normalize_valid. reflexivity.
  - apply binary_normalize_not_nan.
Qed.

Lemma SFabs_number32 x : number32 x -> number32 (F32.abs x).
Proof. intros [V N]. destruct x; try discriminate; split; assumption. Qed.

Lemma freq_dists_numbers pitch :
  is_nan pitch = false -> Forall number32 (freq_dists pitch).
Proof.
  intros Hn. destruct (of_f64_number32 pitch Hn) as [Vp Np].
  unfold freq_dists. apply Forall_map.
  eapply Forall_impl; [|apply FREQS_numbers].
  intros f [Vf Ff]. apply SFabs_number32. split.
  - apply SFsub_valid; [reflexivity | assumption | assumption].
  - apply SFsub_not_nan; assumption.
Qed.

Lemma freq_dists_nth pitch k :
  1 <= k <= 16 ->
  nth (Z.to_nat (k - 1)) (freq_dists pitch) S754_nan = float32_distance pitch k.
Proof.
  intros Hk.
  assert (In k [1;2;3;4;5;6;7;8;9;10;11;12;13;14;15;16]) as H by (simpl; lia).
  simpl in H.
  repeat (destruct H as [<- | H]; [reflexivity|]).
  destruct H.
Qed.

(** ** The float32 distance against the exact one *)

Lemma prec32_pos : 0 < F32.prec.
Proof. reflexivity. Qed.

Lemma prec32_emax : F32.prec < F32.emax.
Proof. reflexivity. Qed.

(** A pitch between 1 Hz and 1024 Hz as a float32: off by at most
    [2 ^ -15] Hz. *)
Lemma of_f64_value pitch :
  F64.valid pitch = true -> is_finite pitch = true ->
  unit64 <= exact64 pitch < 1024 * unit64 ->
  exists X,
    exact64 pitch = X * 2 ^ 925 /\ 0 < X < 2 ^ 159
    /\ nonneg_finite F32.prec F32.emax (F32.of_f64 pitch)
    /\ 2 * Z.abs (float_ord F32.prec F32.emax (F32.of_f64 pitch) - X)
       <= 2 ^ 135.
Proof.
  intros V F [Hlo Hhi]. pose proof unit64_pos as HU.
  destruct pitch as [s | s | | s m e]; try discriminate;
    [change (exact64 (S754_zero s)) with 0 in Hlo; lia|].
  cbn in V. pose proof (bounded64_inv _ _ V) as (He & Hm).
  destruct s.
  { assert (exact64 (S754_finite true m e) < 0); [|lia].
    pose proof (scaled_lt_inf _ _ prec64_pos _ _ V).
    unfold exact64. cbn [float_ord cond_Zopp]. lia. }
  rewrite exact64_finite in *.
  assert (-52 <= e) as He52.
  { destruct (Z.le_gt_cases (-52) e) as [L | L]; [assumption | exfalso].
    assert (2 ^ (e + 1074) <= 2 ^ 1021) as Hp
      by (apply Z.pow_le_mono_r; lia).
    assert (0 < 2 ^ (e + 1074)) by (apply Z.pow_pos_nonneg; lia).
    assert (Zpos m * 2 ^ (e + 1074) < 2 ^ 53 * 2 ^ 1021) as Hlt.
    { eapply Z.lt_le_trans;
        [apply Z.mul_lt_mono_pos_r; [assumption | exact Hm]|].
      apply Z.mul_le_mono_nonneg_l; [apply Z.pow_nonneg|]; lia. }
    change (2 ^ 53 * 2 ^ 1021) with unit64 in Hlt. lia. }
  set (X := Zpos m * 2 ^ (e + 149)).
  assert (0 < 2 ^ (e + 149)) by (apply Z.pow_pos_nonneg; lia).
  assert (0 < 2 ^ 925) as HK by (apply Z.pow_pos_nonneg; lia).
  assert (Zpos m * 2 ^ (e + 1074) = X * 2 ^ 925) as HX.
  { unfold X. rewrite <- Z.mul_assoc, <- Z.pow_add_r by lia.
    do 2 f_equal. lia. }
  assert (0 < X) as HX0 by (unfold X; nia).
  assert (X < 2 ^ 159) as HX1.
  { apply (Z.mul_lt_mono_pos_r (2 ^ 925)); [assumption|].
    rewrite <- HX. change (2 ^ 159 * 2 ^ 925) with (1024 * unit64).
    exact Hhi. }
  exists X. split; [exact HX|]. split; [lia|].
  cbn [F32.of_f64 cond_Zopp].
  destruct (normalize_value _ _ prec32_pos prec32_emax (Zpos m) e
              ltac:(lia) ltac:(change (emin F32.prec F32.emax) with (-149); lia))
    as (v1 & Hv0 & Hv & _ & Hres).
  change (e - emin F32.prec F32.emax) with (e + 149) in Hv. fold X in Hv.
  assert (2 ^ Z.max 0 (Zdigits2 X - F32.prec) <= 2 ^ 135) as Hb.
  { apply Z.pow_le_mono_r; [lia|].
    assert (Zdigits2 X <= 159) by (apply Zdigits2_le; lia).
    change F32.prec with 24. lia. }
  assert (v1 < 2 ^ (F32.emax - emin F32.prec F32.emax)) as Hlt.
  { assert (2 ^ 159 + 2 ^ 135 < 2 ^ (F32.emax - emin F32.prec F32.emax))
      by reflexivity.
    lia. }
  destruct (Hres Hlt) as (Fp & ->). split; [exact Fp|]. lia.
Qed.

(** The table as float32: each entry is below 1024 Hz and off by at
    most [2 ^ -15] Hz. *)
Lemma table32_value k :
  1 <= k <= 16 ->
  nonneg_finite F32.prec F32.emax (F32.lit (table_centihertz k) 100)
  /\ 0 < float_ord F32.prec F32.emax (F32.lit (table_centihertz k) 100)
       < 2 ^ 159
  /\ Z.abs (100 * float_ord F32.prec F32.emax (F32.lit (table_centihertz k) 100)
            - table_centihertz k * 2 ^ 149) <= 100 * 2 ^ 134.
Proof.
  intros Hk.
  assert (In k [1;2;3;4;5;6;7;8;9;10;11;12;13;14;15;16]) as H by (simpl; lia).
  simpl in H.
  repeat (destruct H as [<- | H];
          [vm_compute; repeat split; try reflexivity;
           intro C; discriminate C|]).
  destruct H.
Qed.

(** The float32 distance is within [2 ^ -13] Hz of the exact one. *)
Lemma float32_distance_value pitch k :
  F64.valid pitch = true -> is_finite pitch = true ->
  unit64 <= exact64 pitch < 1024 * unit64 -> 1 <= k <= 16 ->
  number32 (float32_distance pitch k)
  /\ 2 * Z.abs (100 * 2 ^ 925
                * float_ord F32.prec F32.emax (float32_distance pitch k)
                - exact_distance pitch k) <= float32_slack.
Proof.
  intros V F Hp Hk.
  destruct (of_f64_value pitch V F Hp) as (X & HX & HX1 & Fp & Hv1).
  destruct (table32_value k Hk) as (Ft & HT & HTe).
  unfold float32_distance, F32.abs, F32.sub in *.
  set (t32 := F32.lit (table_centihertz k) 100) in *.
  set (p32 := F32.of_f64 pitch) in *.
  set (T := float_ord F32.prec F32.emax t32) in *.
  set (v1 := float_ord F32.prec F32.emax p32) in *.
  split.
  { apply SFabs_number32. split.
    - apply SFsub_valid; [reflexivity | apply Ft | apply Fp].
    - apply SFsub_not_nan; [apply Ft|].
      destruct Fp as (_ & Fp & _). destruct p32; try discriminate; reflexivity. }
  rewrite float_ord_abs.
  assert (4 * 2 ^ 159 < 2 ^ (F32.emax - emin F32.prec F32.emax)) as Hbig
    by reflexivity.
  assert (0 < 2 ^ 135 < 2 ^ 159) as H135 by (split; reflexivity).
  pose proof (sub_value _ _ prec32_pos prec32_emax t32 p32 Ft Fp
                ltac:(fold T; lia) ltac:(fold v1; lia)) as Hs.
  fold T v1 in Hs.
  set (v := float_ord F32.prec F32.emax (SFsub F32.prec F32.emax t32 p32)) in *.
  assert (2 ^ Z.max 0 (Zdigits2 (Z.abs (T - v1)) - F32.prec) <= 2 ^ 136) as Hb.
  { apply Z.pow_le_mono_r; [lia|].
    destruct (Z.eq_dec (Z.abs (T - v1)) 0) as [-> | Hnz]; [cbn; lia|].
    assert (Zdigits2 (Z.abs (T - v1)) <= 160).
    { apply Zdigits2_le; [lia | lia |].
      change (2 ^ 160) with (2 * 2 ^ 159). lia. }
    change F32.prec with 24. lia. }
  unfold exact_distance, float32_slack. rewrite HX.
  change unit64 with (2 ^ 149 * 2 ^ 925).
  assert (0 < 2 ^ 925) as HK by (apply Z.pow_pos_nonneg; lia).
  set (K := 2 ^ 925) in *. set (c := table_centihertz k) in *.
  replace (c * (2 ^ 149 * K) - 100 * (X * K))
    with ((c * 2 ^ 149 - 100 * X) * K) by ring.
  rewrite Z.abs_mul, (Z.abs_eq K) by lia.
  replace (100 * K * Z.abs v - Z.abs (c * 2 ^ 149 - 100 * X) * K)
    with ((100 * Z.abs v - Z.abs (c * 2 ^ 149 - 100 * X)) * K) by ring.
  rewrite Z.abs_mul, (Z.abs_eq K) by lia.
  change (100 * 2 ^ 1062) with (2 * (100 * 2 ^ 136) * K).
  rewrite Z.mul_assoc. apply Z.mul_le_mono_nonneg_r; [lia|].
  assert (2 * Z.abs (v - (T - v1)) <= 2 ^ 136) as Hs' by lia.
  change (2 ^ 136) with (4 * 2 ^ 134) in *.
  change (2 ^ 135) with (2 * 2 ^ 134) in Hv1.
  clear Hs Hb Hbig H135 HT HX1.
  clearbody K c v T v1. generalize dependent (2 ^ 134).
  generalize dependent (2 ^ 149). intros. lia.
Qed.

(** A string of least float32 distance is nearest up to the slack. *)
Lemma float32_least_is_near pitch k :
  F64.valid pitch = true -> is_finite pitch = true ->
  unit64 <= exact64 pitch < 1024 * unit64 -> 1 <= k <= 16 ->
  (forall j, 1 <= j <= 16 ->
     F32.leb (float32_distance pitch k) (float32_distance pitch j) = true) ->
  forall j, 1 <= j <= 16 ->
    exact_distance pitch k <= exact_distance pitch j + float32_slack.
Proof.
  intros V F Hp Hk Hleast j Hj.
  destruct (float32_distance_value pitch k V F Hp Hk) as (Nk & Bk).
  destruct (float32_distance_value pitch j V F Hp Hj) as (Nj & Bj).
  specialize (Hleast j Hj). rewrite (f32_leb_ord _ _ Nk Nj), Z.leb_le in Hleast.
  assert (0 < 100 * 2 ^ 925) as HK by reflexivity.
  assert (100 * 2 ^ 925 * float_ord F32.prec F32.emax (float32_distance pitch k)
          <= 100 * 2 ^ 925 * float_ord F32.prec F32.emax (float32_distance pitch j))
    by (apply Z.mul_le_mono_nonneg_l; lia).
  lia.
Qed.

(** C6, as stated, fails at 415.99999 Hz: the pitch is mapped to string 5
    (440 Hz) although string 6 (392 Hz) is strictly nearer; rounded to
    float32 the pitch is 416 and both distances are 24. *)
Lemma pitch_below_416_maps_to_string_5 :
  F64.valid pitch_below_416 = true /\ is_finite pitch_below_416 = true
  /\ F64.gtb pitch_below_416 f64_zero = true
  /\ nearest_string pitch_below_416 = Some 5
  /\ exact_distance pitch_below_416 6 < exact_distance pitch_below_416 5
  /\ float32_distance pitch_below_416 6 = float32_distance pitch_below_416 5.
Proof. repeat split; vm_compute; reflexivity. Qed.

(** C6 (amended). A finite positive pitch is mapped to a string between
    1 and 16 whose distance to the pitch is least among the sixteen when
    the distance is measured in float32 arithmetic (table frequency and
    pitch rounded to float32, then subtracted), and to the
    lowest-numbered such string; for a pitch from 1 Hz to below 1024 Hz
    no string is nearer in exact arithmetic by more than [2 ^ -12] Hz;
    440 Hz and 445 Hz both map to string 5. *)
Theorem nearest_string_float32_nearest (pitch : spec_float) :
  F64.valid pitch = true -> is_finite pitch = true ->
  F64.gtb pitch f64_zero = true ->
  (exists k,
      nearest_string pitch = Some k /\ 1 <= k <= 16
      /\ (forall j, 1 <= j <= 16 ->
            F32.leb (float32_distance pitch k) (float32_distance pitch j)
            = true)
      /\ (forall j, 1 <= j < k ->
            F32.ltb (float32_distance pitch k) (float32_distance pitch j)
            = true)
      /\ (unit64 <= exact64 pitch < 1024 * unit64 ->
          forall j, 1 <= j <= 16 ->
            exact_distance pitch k
            <= exact_distance pitch j + float32_slack))
  /\ nearest_string (F64.of_Z 440) = Some 5
  /\ nearest_string (F64.of_Z 445) = Some 5.
Proof.
  intros Hval Hfin _. split; [| split; vm_compute; reflexivity].
  assert (exists k,
             nearest_string pitch = Some k /\ 1 <= k <= 16
             /\ (forall j, 1 <= j <= 16 ->
                   F32.leb (float32_distance pitch k)
                     (float32_distance pitch j) = true)
             /\ (forall j, 1 <= j < k ->
                   F32.ltb (float32_distance pitch k)
                     (float32_distance pitch j) = true))
    as (k & Hk & Hr & Hle & Hlt).
  {
    assert (is_nan pitch = false) as Hn by (destruct pitch; try discriminate; reflexivity).
    pose proof (freq_dists_numbers pitch Hn) as Hok.
    pose proof (freq_dists_length pitch) as Hlen.
    pose proof (freq_dists_nth pitch) as Hdist.
    unfold nearest_string, np_argmin.
    destruct (freq_dists pitch) as [| d0 r] eqn:Hd; [discriminate|].
    simpl in Hlen.
    pose proof (argext_from_range (fun a b => SFltb a b) r 0 d0 1 ltac:(lia)) as Hr.
    assert (number32 d0) as O0 by (now inversion Hok).
    destruct (argmin_from_spec r [d0] 0 d0 Hok ltac:(unfold len; simpl; lia) eq_refl)
      as (v & Hv & Hmin).
    { intros [| j] x Hx; simpl in Hx; [|destruct j; discriminate].
      injection Hx as <-. rewrite (f32_leb_ord d0 d0 O0 O0), Z.leb_le. split; lia. }
    change (len [d0]) with 1 in Hv, Hmin. simpl app in Hv, Hmin.
    set (kk := fst (argext_from (fun a b => SFltb a b) 0 d0 1 r)) in *.
    unfold len in Hr.
    exists (kk + 1). split; [reflexivity|]. split; [lia|].
    rewrite <- (Hdist (kk + 1)) by lia.
    replace (Z.to_nat (kk + 1 - 1)) with (Z.to_nat kk) by lia.
    rewrite (nth_error_nth _ _ _ Hv).
    assert (forall j, 1 <= j <= 16 ->
              exists x, nth_error (d0 :: r) (Z.to_nat (j - 1)) = Some x) as Hnth.
    { intros j Hj. destruct (nth_error (d0 :: r) (Z.to_nat (j - 1))) eqn:E; [eauto|].
      apply nth_error_None in E. simpl in E. lia. }
    split.
    - intros j Hj. destruct (Hnth j Hj) as [x Hx].
      rewrite <- (Hdist j Hj), (nth_error_nth _ _ _ Hx). apply (Hmin _ _ Hx).
    - intros j Hj. destruct (Hnth j ltac:(lia)) as [x Hx].
      rewrite <- (Hdist j) by lia. rewrite (nth_error_nth _ _ _ Hx).
      apply (Hmin _ _ Hx). lia. }
  exists k. repeat (split; [assumption|]).
  intros Hrange j Hj.
  apply (float32_least_is_near pitch k); assumption.
Qed.

(** ** The round trip of [predicted_strings] on the fast path *)

Lemma split_on_no_comma s : no_comma s = true -> split_on "," s = [s].
Proof.
  induction s as [| c r IH]; intros H; [reflexivity|].
  simpl in H. apply andb_true_iff in H. destruct H as [Hc Hr].
  cbn [split_on]. apply negb_true_iff in Hc. rewrite Hc, (IH Hr). reflexivity.
Qed.

Lemma split_on_app s rest :
  no_comma s = true ->
  split_on "," (s ++ String "," rest) = s :: split_on "," rest.
Proof.
  induction s as [| c r IH]; intros H; [reflexivity|].
  simpl in H. apply andb_true_iff in H. destruct H as [Hc Hr].
  cbn [append split_on]. apply negb_true_iff in Hc. rewrite Hc, (IH Hr).
  reflexivity.
Qed.

Lemma split_on_concat strs :
  strs <> [] -> Forall (fun s => no_comma s = true) strs ->
  split_on "," (String.concat "," strs) = strs.
Proof.
  induction strs as [| x r IH]; intros Hne H; [contradiction|].
  inversion H as [| ? ? Hx Hr]; subst.
  destruct r as [| y r']; [apply split_on_no_comma; assumption|].
  change (String.concat "," (x :: y :: r'))
    with (x ++ String "," (String.concat "," (y :: r'))).
  rewrite (split_on_app x _ Hx), IH; [reflexivity | discriminate | assumption].
Qed.

Lemma str_of_Z_string_number k :
  1 <= k <= 16 -> no_comma (str_of_Z k) = true /\ str_of_Z k <> "".
Proof.
  intros Hk.
  assert (In k [1;2;3;4;5;6;7;8;9;10;11;12;13;14;15;16]) as H by (simpl; lia).
  simpl in H.
  repeat (destruct H as [<- | H]; [split; [reflexivity | discriminate]|]).
  destruct H.
Qed.

Lemma mapM_int_of_str l : mapM int_of_str (map str_of_Z l) = Some l.
Proof.
  induction l as [| z r IH]; [reflexivity|].
  cbn [map mapM]. now rewrite int_of_str_of_Z, IH.
Qed.

Lemma concat_nonempty x r : x <> "" -> String.concat "," (x :: r) <> "".
Proof.
  intros Hx. destruct r; cbn [String.concat]; [assumption|].
  destruct x; [contradiction | discriminate].
Qed.

(** The strings parsed back from [predicted_strings] are the active
    strings, and each gives one object. *)
Lemma json_of_row_roundtrip h t probs l :
  Forall (fun s => 1 <= s <= 16) (active l) ->
  json_of_row (make_row h t probs l)
  = Some (map (json_entry t probs) (active l)).
Proof.
  intros Hact. unfold json_of_row.
  destruct (row_get_fixed_fields h t probs l) as (Ht & Hps & _).
  rewrite Hps.
  assert ((if String.eqb
                (if 0 <? len (active l)
                 then String.concat "," (map str_of_Z (active l)) else "") ""
           then Some []
           else mapM int_of_str
                  (split_on ","
                     (if 0 <? len (active l)
                      then String.concat "," (map str_of_Z (active l)) else "")))
          = Some (active l)) as ->.
  { destruct (active l) as [| a r] eqn:Ha; [reflexivity|].
    replace (0 <? len (a :: r)) with true
      by (symmetry; apply Z.ltb_lt; unfold len; simpl; lia).
    inversion Hact as [| ? ? Hin Hr]; subst.
    destruct (str_of_Z_string_number a Hin) as [_ Hne].
    destruct (String.eqb_spec (String.concat "," (map str_of_Z (a :: r))) "")
      as [E | _].
    - exfalso. revert E. apply concat_nonempty. assumption.
    - rewrite split_on_concat.
      + apply mapM_int_of_str.
      + discriminate.
      + apply Forall_map. eapply Forall_impl; [|exact Hact].
        intros s Hs. apply (str_of_Z_string_number s Hs). }
  set (entry := fun string_num : Z => _).
  assert (forall s, 1 <= s <= 16 -> entry s = Some (json_entry t probs s))
    as Hentry.
  { intros s Hs. unfold entry. rewrite Ht, row_get_prob_key. cbn [py_float].
    destruct (Z.leb_spec 1 s); [|lia]. destruct (Z.leb_spec s 16); [|lia].
    reflexivity. }
  clearbody entry. clear Ht Hps.
  induction Hact as [| s r Hs Hr IH]; [reflexivity|].
  cbn [mapM map]. rewrite (Hentry s Hs), IH. reflexivity.
Qed.

Section FastPath.
Context {Svc : Services}.

Lemma where_active_range pred k :
  In k (where_active pred) -> 1 <= k <= len pred.
Proof.
  intros H. apply where_active_In in H. destruct H as (i & -> & Hi).
  assert (i < List.length pred)%nat by (apply nth_error_Some; congruence).
  unfold len. lia.
Qed.

Lemma yin_string_range seg sr s p :
  yin_string_from_segment seg sr = Some (Some (s, p)) -> 1 <= s <= 16.
Proof.
  intros H. pose proof (yin_string_from_segment_spec seg sr) as Hs.
  destruct (voiced (yin seg sr)) as [| f0 fs]; [congruence|].
  destruct Hs as (s' & _ & Hr & Hy). congruence.
Qed.

Lemma decide_active_range h segs sr i probs l :
  decide h (thresholds h) segs sr i probs = Some l ->
  Forall (fun s => 1 <= s <= 16) (active l).
Proof.
  intros Hd. apply decide_inv in Hd.
  destruct Hd as (Hlen & _ & _ & Hpred & Hfb).
  assert (Forall (fun s => 1 <= s <= 16) (where_active (pred l))) as Hthr.
  { apply Forall_forall. intros k Hk. apply where_active_range in Hk.
    rewrite Hpred in Hk. unfold len in Hk, Hlen.
    rewrite threshold_pred_length in Hk; [unfold NUM_STRINGS in Hlen; lia|].
    rewrite thresholds_length. unfold NUM_STRINGS in Hlen. lia. }
  destruct (fallback_condition h l).
  - destruct Hfb as (seg & _ & _ & Hm).
    destruct (yin_string_from_segment seg sr) as [[[s p] |] |] eqn:Hy;
      [| |contradiction].
    + destruct Hm as [-> _]. constructor; [|constructor].
      apply (yin_string_range _ _ _ _ Hy).
    + destruct Hm as [-> _]. assumption.
  - destruct Hfb as (_ & -> & _). assumption.
Qed.

(** The decision for a 16-vector never raises when its fallback segment
    exists. *)
Lemma decide_succeeds h thr segs sr i probs :
  len probs = NUM_STRINGS ->
  (h = true -> exists seg, nth_error segs i = Some seg) ->
  exists l, decide h thr segs sr i probs = Some l.
Proof.
  intros Hlen Hseg. unfold decide.
  apply Z.eqb_eq in Hlen as Hlen'. rewrite Hlen'. cbn [negb].
  destruct probs as [| p r]; [discriminate|]. cbn [np_argmax np_max].
  destruct (h && _) eqn:Hc; [|eauto].
  apply andb_true_iff in Hc. destruct Hc as [Hh _].
  destruct (Hseg Hh) as [seg ->].
  pose proof (yin_string_from_segment_spec seg sr) as Hs.
  destruct (voiced (yin seg sr)) as [| f0 fs].
  - rewrite Hs. eauto.
  - destruct Hs as (k & _ & _ & ->). eauto.
Qed.

(** On the fast path a record gives one JSON object per active string. *)
Lemma json_of_record y raw h fast out j l r :
  run_pipeline y raw h fast = Some out ->
  nth_error (trace out) j = Some l -> nth_error (df out) j = Some r ->
  exists t probs,
    nth_error (accept_onsets raw) j = Some t
    /\ json_of_row r = Some (map (json_entry t probs) (active l)).
Proof.
  intros Hrun Hl Hr. apply run_pipeline_inv in Hrun.
  destruct Hrun as (all_probs & segs & _ & _ & _ & _ & _ & _ & Hrec).
  destruct (Hrec j l r Hl Hr) as (t & probs & Ht & _ & Hd & ->).
  exists t, probs. split; [assumption|].
  apply json_of_row_roundtrip, (decide_active_range _ _ _ _ _ _ Hd).
Qed.
End FastPath.

(** ** The theorems at concrete inputs *)

Lemma accept_onsets_spaced_witness :
  Forall (fun t => F64.valid t = true)
    [F64.of_Z 1; F64.lit 105 100; F64.of_Z 2]
  /\ accept_onsets [F64.of_Z 1; F64.lit 105 100; F64.of_Z 2]
     = [F64.of_Z 1; F64.of_Z 2]
  /\ F64.geb (F64.sub (F64.of_Z 2) (F64.of_Z 1)) HOLD_SEC = true
  /\ F64.ltb (F64.of_Z 1) (F64.of_Z 2) = true.
Proof.
  assert (Forall (fun t => F64.valid t = true)
            [F64.of_Z 1; F64.lit 105 100; F64.of_Z 2]) as H
    by (repeat (constructor; [vm_compute; reflexivity|]); constructor).
  split; [exact H|]. split; [vm_compute; reflexivity|].
  destruct (accept_onsets_spaced _ H) as [Hc _].
  apply (Hc 0%nat (F64.of_Z 1) (F64.of_Z 2)); vm_compute; reflexivity.
Defined.

Lemma threshold_active_set_witness :
  len (probs_with_12 (F32.lit 20 100) (F32.lit 4 100)) = NUM_STRINGS
  /\ (In 12 (where_active
               (threshold_pred (probs_with_12 (F32.lit 20 100) (F32.lit 4 100))
                  (thresholds true)))
      <-> 1 <= 12 <= 16
          /\ F32.geb (prob_of (probs_with_12 (F32.lit 20 100) (F32.lit 4 100)) 12)
               (string_threshold true 12) = true).
Proof.
  assert (len (probs_with_12 (F32.lit 20 100) (F32.lit 4 100)) = NUM_STRINGS)
    as H by (vm_compute; reflexivity).
  split; [exact H|].
  apply (threshold_active_set true
           (probs_with_12 (F32.lit 20 100) (F32.lit 4 100)) H).
Defined.

Lemma nearest_string_float32_nearest_witness :
  F64.valid (F64.of_Z 445) = true /\ is_finite (F64.of_Z 445) = true
  /\ F64.gtb (F64.of_Z 445) f64_zero = true
  /\ exists k,
       nearest_string (F64.of_Z 445) = Some k /\ 1 <= k <= 16
       /\ (forall j, 1 <= j <= 16 ->
             F32.leb (float32_distance (F64.of_Z 445) k)
               (float32_distance (F64.of_Z 445) j) = true)
       /\ (forall j, 1 <= j < k ->
             F32.ltb (float32_distance (F64.of_Z 445) k)
               (float32_distance (F64.of_Z 445) j) = true)
       /\ (unit64 <= exact64 (F64.of_Z 445) < 1024 * unit64 ->
           forall j, 1 <= j <= 16 ->
             exact_distance (F64.of_Z 445) k
             <= exact_distance (F64.of_Z 445) j + float32_slack).
Proof.
  assert (F64.valid (F64.of_Z 445) = true) as H1 by (vm_compute; reflexivity).
  assert (is_finite (F64.of_Z 445) = true) as H2 by (vm_compute; reflexivity).
  assert (F64.gtb (F64.of_Z 445) f64_zero = true) as H3
    by (vm_compute; reflexivity).
  repeat (split; [assumption|]).
  apply (nearest_string_float32_nearest (F64.of_Z 445) H1 H2 H3).
Defined.

(** Runs a concrete job: [out] becomes its value, [Hrun] the equation. *)
Ltac run_job job out Hrun :=
  assert (exists o, job = Some o) as [out Hrun]
    by (eexists; vm_compute; reflexivity);
  let E := fresh "E" in
  pose proof Hrun as E; vm_compute in E; injection E as <-.


Lemma decision_source_tag_witness :
  exists out l r,
    pitch_job = Some out /\ nth_error (trace out) 0 = Some l
    /\ nth_error (df out) 0 = Some r
    /\ row_get "used" r = Some (VStr (used l))
    /\ (used l = "model" \/ used l = "yin" \/ used l = "none").
Proof.
  run_job pitch_job out Hrun.
  do 3 eexists. split; [exact Hrun|].
  split; [reflexivity|]. split; [reflexivity|].
  destruct (@decision_source_tag pitch_services silence [F64.of_Z 0] true
              _ 0%nat _ _ Hrun eq_refl eq_refl) as (H1 & H2 & _).
  split; assumption.
Defined.

Lemma empty_job_outputs_witness :
  accept_onsets [] = []
  /\ exists out,
       silent_job true true = Some out /\ df out = []
       /\ csv_header (csv out) = [] /\ csv_data (csv out) = []
       /\ second out = Json [].
Proof.
  split; [reflexivity|].
  apply (proj1 (@empty_job_outputs pitch_services silence [] true true) eq_refl).
Defined.

Lemma subtitle_window_stamps_witness :
  exists out b,
    minute_onset_job = Some out /\ second out = Srt [b]
    /\ b_index b = 1
    /\ b_start b = "00:01:15,480" /\ b_end b = "00:01:15,730"
    /\ stamped (window_start (F64.lit 755 10)) (b_start b)
    /\ stamped (window_end (F64.lit 755 10)) (b_end b).
Proof.
  run_job minute_onset_job out Hrun.
  do 2 eexists. split; [exact Hrun|]. split; [reflexivity|].
  split; [reflexivity|]. split; [reflexivity|]. split; [reflexivity|].
  destruct (@subtitle_window_stamps pitch_services silence
              [F64.lit 755 10] true _ _ Hrun eq_refl) as [_ Hb].
  { repeat constructor. }
  destruct (Hb 0%nat _ eq_refl) as (t & Ht & _ & _ & _ & Hs & He).
  injection Ht as <-. split; assumption.
Defined.

Lemma threshold_fields_unchanged_witness :
  exists out l r,
    pitch_job = Some out /\ nth_error (trace out) 0 = Some l
    /\ nth_error (df out) 0 = Some r
    /\ used l = "yin"
    /\ exists a, row_get "top1" r = Some (VInt (a + 1)).
Proof.
  run_job pitch_job out Hrun.
  do 3 eexists. split; [exact Hrun|].
  split; [reflexivity|]. split; [reflexivity|]. split; [reflexivity|].
  destruct (@threshold_fields_unchanged pitch_services silence [F64.of_Z 0] true
              _ 0%nat _ _ Hrun eq_refl eq_refl)
    as (t & probs & ap & a & mx & l0 & _ & _ & _ & _ & _ & Ht & _).
  exists a. exact Ht.
Defined.

Lemma json_conf_is_model_probability_witness :
  exists out o,
    pitch_job = Some out /\ second out = Json [o]
    /\ 1 <= j_string o <= 16.
Proof.
  run_job pitch_job out Hrun.
  do 2 eexists. split; [exact Hrun|]. split; [reflexivity|].
  destruct (proj1 (@json_conf_is_model_probability pitch_services)
              silence [F64.of_Z 0] true _ _ _ Hrun eq_refl
              (or_introl eq_refl))
    as (j & t & probs & ap & r & _ & _ & _ & _ & _ & H & _).
  exact H.
Defined.

(** * Further properties *)

(** ** More on the onset filter *)

Lemma hold_from_subseq l : forall last_t, subseq (hold_from last_t l) l.
Proof.
  induction l as [| t r IH]; intros last_t; cbn [hold_from]; [constructor|].
  destruct (F64.geb (F64.sub t last_t) HOLD_SEC); constructor; apply IH.
Qed.

Lemma nan_not_held last_t : F64.geb (F64.sub S754_nan last_t) HOLD_SEC = false.
Proof. unfold F64.geb. rewrite HOLD_SEC_bits. reflexivity. Qed.

Lemma hold_from_no_nan l : forall last_t,
  Forall (fun t => is_nan t = false) (hold_from last_t l).
Proof.
  induction l as [| t r IH]; intros last_t; cbn [hold_from]; [constructor|].
  destruct (F64.geb (F64.sub t last_t) HOLD_SEC) eqn:E; [|apply IH].
  constructor; [|apply IH].
  destruct t; try reflexivity. now rewrite nan_not_held in E.
Qed.

(** X1. The filter only drops onsets: the accepted onsets are raw onsets in
    their raw order, and a NaN is never accepted. *)
Theorem accept_onsets_subseq (raw : list spec_float) :
  subseq (accept_onsets raw) raw
  /\ Forall (fun t => is_nan t = false) (accept_onsets raw).
Proof.
  rewrite accept_onsets_hold_from. split.
  - apply hold_from_subseq.
  - apply hold_from_no_nan.
Qed.

Lemma hold_from_spaced_id l : forall last_t,
  spaced last_t l -> hold_from last_t l = l.
Proof.
  induction l as [| t r IH]; intros last_t H; [reflexivity|].
  destruct H as [Ht Hr]. cbn [hold_from]. rewrite Ht. f_equal. now apply IH.
Qed.

(** X2. Filtering an accepted list again changes nothing. *)
Theorem accept_onsets_idempotent (raw : list spec_float) :
  accept_onsets (accept_onsets raw) = accept_onsets raw.
Proof.
  rewrite !accept_onsets_hold_from.
  apply hold_from_spaced_id, hold_from_spaced.
Qed.

(** ** The clip the classifier sees *)

Lemma len_app {A} (a b : list A) : len (a ++ b)%list = len a + len b.
Proof. unfold len. rewrite length_app. lia. Qed.

Lemma len_repeat {A} (x : A) n : len (repeat x n) = Z.of_nat n.
Proof. unfold len. now rewrite repeat_length. Qed.

Lemma len_nonneg {A} (l : list A) : 0 <= len l.
Proof. unfold len. lia. Qed.

(** X3. [clip_to_mel_and_vec] always works on exactly [CLIP_SAMPLES] (12800)
    samples: the samples it was given come first, cut at 12800, and what
    is added are zeros. *)
Theorem fit_clip_length (y : list spec_float) :
  len (fit_clip y) = 12800
  /\ firstn (List.length y) (fit_clip y) = firstn (Z.to_nat 12800) y
  /\ Forall (fun x => x = S754_zero false) (skipn (List.length y) (fit_clip y)).
Proof.
  unfold fit_clip. rewrite CLIP_SAMPLES_value.
  pose proof (len_nonneg y) as Hy.
  destruct (Z.ltb_spec (len y) 12800) as [Hlt | Hge].
  - rewrite len_app, len_repeat. split; [lia|]. split.
    + rewrite firstn_app, Nat.sub_diag, firstn_all. cbn [firstn].
      rewrite app_nil_r. symmetry. apply firstn_all2. unfold len in Hlt. lia.
    + rewrite skipn_app, Nat.sub_diag, skipn_all. cbn [skipn app].
      apply Forall_forall. intros x Hx. now apply repeat_spec in Hx.
  - unfold len in *.
    assert (Z.to_nat 12800 <= List.length y)%nat as Hle by lia.
    split.
    + rewrite length_firstn, Nat.min_l by assumption. lia.
    + split.
      * rewrite firstn_firstn, Nat.min_r by assumption. reflexivity.
      * rewrite skipn_all2; [constructor|].
        rewrite length_firstn, Nat.min_l by assumption. assumption.
Qed.

Lemma py_slice_length {A} (l : list A) a b :
  0 <= a -> 0 <= b -> len (py_slice l a b) <= Z.max 0 (b - a).
Proof.
  intros Ha Hb. unfold py_slice, slice_bound, len.
  rewrite length_firstn, length_skipn.
  destruct (Z.ltb_spec a 0); [lia|].
  destruct (Z.ltb_spec b 0); lia.
Qed.

Lemma py_slice_past_end {A} (l : list A) a b :
  len l <= a -> py_slice l a b = [].
Proof.
  intros Ha. unfold py_slice, slice_bound, len in *.
  destruct (Z.ltb_spec a 0); [lia|].
  replace (Z.min a (Z.of_nat (List.length l))) with (Z.of_nat (List.length l)) by lia.
  rewrite Nat2Z.id, skipn_all. now rewrite firstn_nil.
Qed.

(** X4. The clip the first pass cuts for an onset never exceeds
    [CLIP_SAMPLES], so [clip_to_mel_and_vec] only pads it; when the clip
    would start at or after the end of the recording it is empty and is
    padded to 12800 zeros. *)
Theorem classifier_clip_padded y sr t clip :
  classifier_clip y sr t = Some clip ->
  len clip <= 12800
  /\ fit_clip clip
     = (clip ++ repeat (S754_zero false) (Z.to_nat (12800 - len clip)))%list
  /\ (forall start,
        py_int (F64.mul (F64.add t OFFSET_SEC) (F64.of_Z sr)) = Some start ->
        len y <= start ->
        clip = [] /\ fit_clip clip = repeat (S754_zero false) (Z.to_nat 12800)).
Proof.
  unfold classifier_clip.
  destruct (py_int (F64.mul (F64.add t OFFSET_SEC) (F64.of_Z sr))) as [s |];
    [|discriminate].
  intros [= <-]. rewrite CLIP_SAMPLES_value.
  pose proof (py_slice_length y (Z.max 0 s) (Z.max 0 s + 12800)
                ltac:(lia) ltac:(lia)) as Hl.
  replace (Z.max 0 (Z.max 0 s + 12800 - Z.max 0 s)) with 12800 in Hl by lia.
  split; [assumption|].
  assert (forall c : list spec_float, len c <= 12800 ->
            fit_clip c
            = (c ++ repeat (S754_zero false) (Z.to_nat (12800 - len c)))%list)
    as Hfit.
  { intros c Hc. unfold fit_clip. rewrite CLIP_SAMPLES_value.
    destruct (Z.ltb_spec (len c) 12800) as [|Hge]; [reflexivity|].
    replace (len c) with 12800 by lia. cbn [Z.sub Z.to_nat repeat].
    rewrite app_nil_r. apply firstn_all2. unfold len in *. lia. }
  split; [apply Hfit; assumption|].
  intros start [= <-] Hend.
  assert (py_slice y (Z.max 0 s) (Z.max 0 s + 12800) = []) as ->
    by (apply py_slice_past_end; lia).
  split; [reflexivity|]. rewrite Hfit by (unfold len; simpl; lia). reflexivity.
Qed.

(** ** More on the records of a run *)

Lemma nth_error_ext {A} (l l' : list A) :
  (forall j, nth_error l j = nth_error l' j) -> l = l'.
Proof.
  revert l'. induction l as [| x r IH]; intros [| y r'] H.
  - reflexivity.
  - specialize (H 0%nat). discriminate.
  - specialize (H 0%nat). discriminate.
  - pose proof (H 0%nat) as H0. injection H0 as ->. f_equal.
    apply IH. intros j. apply (H (S j)).
Qed.

Lemma argext_from_nth better l : forall seen bi b,
  0 <= bi -> nth_error seen (Z.to_nat bi) = Some b ->
  nth_error (seen ++ l)
    (Z.to_nat (fst (argext_from better bi b (len seen) l)))
  = Some (snd (argext_from better bi b (len seen) l)).
Proof.
  induction l as [| x r IH]; intros seen bi b Hbi Hb; cbn [argext_from].
  - cbn [fst snd]. now rewrite app_nil_r.
  - assert (nth_error (seen ++ x :: r) (Z.to_nat bi) = Some b) as Hb'.
    { rewrite nth_error_app1; [assumption|]. apply nth_error_Some. congruence. }
    destruct (is_nan b); [exact Hb'|].
    assert (len (seen ++ [x]) = len seen + 1) as Hlen
      by (unfold len; rewrite length_app; simpl; lia).
    replace (seen ++ x :: r)%list with ((seen ++ [x]) ++ r)%list
      by (rewrite <- app_assoc; reflexivity).
    rewrite <- Hlen.
    destruct (is_nan x || better x b).
    + apply IH; [unfold len; lia|].
      unfold len. rewrite Nat2Z.id, nth_error_app2, Nat.sub_diag by lia.
      reflexivity.
    + apply IH; [assumption|].
      rewrite nth_error_app1; [assumption|]. apply nth_error_Some. congruence.
Qed.

Lemma argmax_is_max probs a mx :
  np_argmax probs = Some a -> np_max probs = Some mx ->
  0 <= a < len probs /\ nth_error probs (Z.to_nat a) = Some mx.
Proof.
  destruct probs as [| p r]; [discriminate|]. cbn [np_argmax np_max].
  intros [= <-] [= <-].
  pose proof (argext_from_range (fun a b => SFltb b a) r 0 p 1 ltac:(lia)) as Hr.
  pose proof (argext_from_nth (fun a b => SFltb b a) r [p] 0 p ltac:(lia) eq_refl)
    as Hn.
  change (len [p]) with 1 in Hn. split; [|exact Hn].
  unfold len in *. simpl List.length. lia.
Qed.

Section MoreRecords.
Context {Svc : Services}.

(** X5. The rows are the accepted onsets: one row per onset, in the order of
    the onsets, with the onset time as [time_sec]. *)
Theorem rows_follow_onsets y raw h fast out :
  run_pipeline y raw h fast = Some out ->
  map (row_get "time_sec") (df out)
  = map (fun t => Some (VFloat t)) (accept_onsets raw).
Proof.
  intros Hrun. apply run_pipeline_inv in Hrun.
  destruct Hrun as (all_probs & segs & _ & _ & Hlen & Hlen' & Hcsv & _ & Hrec).
  apply nth_error_ext. intros j. rewrite !nth_error_map.
  destruct (nth_error (df out) j) as [r |] eqn:Hr.
  - assert (exists l, nth_error (trace out) j = Some l) as [l Hl].
    { destruct (nth_error (trace out) j) eqn:E; [eauto|].
      apply nth_error_None in E. rewrite Hlen', <- Hlen in E.
      apply nth_error_None in E. congruence. }
    destruct (Hrec j l r Hl Hr) as (t & probs & -> & _ & _ & ->).
    reflexivity.
  - apply nth_error_None in Hr. rewrite Hlen in Hr.
    apply nth_error_None in Hr. now rewrite Hr.
Qed.

(** X6. [top1] names a string between 1 and 16 and [top1_prob] is the value
    the same row stores under [prob_S{top1}]. *)
Theorem top1_prob_is_prob_of_top1 y raw h fast out j l r :
  run_pipeline y raw h fast = Some out ->
  nth_error (trace out) j = Some l -> nth_error (df out) j = Some r ->
  1 <= top1 l <= 16
  /\ row_get "top1" r = Some (VInt (top1 l))
  /\ row_get "top1_prob" r = Some (VFloat (top1_prob l))
  /\ row_get (prob_key (top1 l)) r = Some (VFloat (top1_prob l)).
Proof.
  intros Hrun Hl Hr. apply run_pipeline_inv in Hrun.
  destruct Hrun as (all_probs & segs & _ & _ & _ & _ & _ & _ & Hrec).
  destruct (Hrec j l r Hl Hr) as (t & probs & _ & _ & Hd & ->).
  pose proof (decide_inv _ _ _ _ _ _ _ Hd) as (Hlen & Ha & Hmax & _ & _).
  destruct (np_max probs) as [mx |] eqn:Hmx; [|discriminate].
  injection Hmax as Hmax.
  destruct (argmax_is_max _ _ _ Ha Hmx) as [Hrange Hnth].
  unfold NUM_STRINGS in Hlen.
  destruct (row_get_fixed_fields h t probs l) as (_ & _ & H1 & H2).
  split; [lia|]. split; [assumption|]. split; [assumption|].
  rewrite row_get_prob_key.
  destruct (Z.leb_spec 1 (top1 l)); [|lia].
  destruct (Z.leb_spec (top1 l) 16); [|lia].
  cbn [andb]. unfold prob_of. rewrite (nth_error_nth _ _ _ Hnth).
  now rewrite Hmax.
Qed.

Lemma join_strings_empty l :
  Forall (fun s => 1 <= s <= 16) l ->
  (join_strings l = "" <-> l = []).
Proof.
  intros Hl. unfold join_strings. destruct l as [| a r]; [tauto|].
  replace (0 <? len (a :: r)) with true
    by (symmetry; apply Z.ltb_lt; unfold len; simpl; lia).
  inversion Hl as [| ? ? Ha _]; subst.
  destruct (str_of_Z_string_number a Ha) as [_ Hne].
  split; [|discriminate]. intros E. exfalso. revert E.
  apply (concat_nonempty (str_of_Z a) (map str_of_Z r) Hne).
Qed.

(** X7. In hybrid mode a record tagged ["model"] names at least one string
    and its top-1 probability is not below [MODEL_CONF_MIN]; a record
    tagged ["yin"] names exactly one string; so a row whose
    [predicted_strings] is empty is always tagged ["none"]. *)
Theorem empty_rows_are_tagged_none y raw fast out j l r :
  run_pipeline y raw true fast = Some out ->
  nth_error (trace out) j = Some l -> nth_error (df out) j = Some r ->
  (used l = "model" ->
     active l <> [] /\ F64.ltb (top1_prob l) MODEL_CONF_MIN = false)
  /\ (used l = "yin" -> List.length (active l) = 1%nat)
  /\ (row_get "predicted_strings" r = Some (VStr "") ->
      row_get "used" r = Some (VStr "none")).
Proof.
  intros Hrun Hl Hr. apply run_pipeline_inv in Hrun.
  destruct Hrun as (all_probs & segs & _ & _ & _ & _ & _ & _ & Hrec).
  destruct (Hrec j l r Hl Hr) as (t & probs & _ & _ & Hd & ->).
  pose proof (decide_active_range _ _ _ _ _ _ Hd) as Hrange.
  pose proof (decide_inv _ _ _ _ _ _ _ Hd) as (_ & _ & _ & _ & Hfb).
  assert ((used l = "model" ->
             active l <> [] /\ F64.ltb (top1_prob l) MODEL_CONF_MIN = false)
          /\ (used l = "yin" -> List.length (active l) = 1%nat)
          /\ (active l = [] -> used l = "none")) as (H1 & H2 & H3).
  { destruct (fallback_condition true l) eqn:Hc.
    - destruct Hfb as (seg & _ & _ & Hm).
      destruct (yin_string_from_segment seg SAMPLE_RATE) as [[[s p] |] |];
        [| |contradiction]; destruct Hm as [Ha Hu]; rewrite Hu, Ha.
      + repeat split; intros; discriminate.
      + repeat split; intros; discriminate.
    - destruct Hfb as (_ & Ha & Hu).
      assert (fallback_condition true l <> true) as Hn by congruence.
      rewrite fallback_condition_iff in Hn. rewrite Hu, Ha.
      split; [|split].
      + intros _. split.
        * intros E. apply Hn. rewrite <- Ha. rewrite Ha, E. auto.
        * destruct (F64.ltb (top1_prob l) MODEL_CONF_MIN) eqn:E; [|reflexivity].
          exfalso. apply Hn. auto.
      + discriminate.
      + intros E. exfalso. apply Hn. auto. }
  split; [assumption|]. split; [assumption|].
  destruct (row_get_fixed_fields true t probs l) as (_ & Hps & _).
  rewrite Hps, row_get_used. fold (join_strings (active l)).
  intros [= E]. apply (join_strings_empty _ Hrange) in E.
  now rewrite (H3 E).
Qed.

Lemma row_get_present k (r : row) : In k (map fst r) -> row_get k r <> None.
Proof.
  induction r as [| [k' v] r IH]; [intros []|]. cbn [map fst In row_get].
  destruct (String.eqb_spec k k') as [-> | Hne]; [discriminate|].
  intros [E | H]; [congruence | apply IH, H].
Qed.

(** X8. Every data row of the CSV has one cell per header column, and no
    cell is missing. *)
Theorem csv_rows_are_complete y raw h fast out :
  run_pipeline y raw h fast = Some out ->
  Forall (fun cells =>
            List.length cells = List.length (csv_header (csv out))
            /\ Forall (fun c => c <> None) cells)
    (csv_data (csv out)).
Proof.
  intros Hrun.
  pose proof (run_pipeline_inv _ _ _ _ _ Hrun)
    as (all_probs & segs & _ & _ & Hlen & Hlen' & Hcsv & _ & Hrec).
  assert (forall r, In r (df out) -> map fst r = csv_columns h) as Hkeys.
  { intros r Hr. apply In_nth_error in Hr. destruct Hr as [j Hr].
    assert (exists l, nth_error (trace out) j = Some l) as [l Hl].
    { destruct (nth_error (trace out) j) eqn:E; [eauto|].
      apply nth_error_None in E. rewrite Hlen', <- Hlen in E.
      apply nth_error_None in E. congruence. }
    destruct (Hrec j l r Hl Hr) as (t & probs & _ & _ & _ & ->).
    apply make_row_keys. }
  rewrite Hcsv. unfold to_csv. cbn [csv_data csv_header].
  apply Forall_map. apply Forall_forall. intros r Hr.
  assert (df_columns (df out) = csv_columns h) as Hcols.
  { apply df_columns_same_keys; [|assumption].
    intros E. rewrite E in Hr. destruct Hr. }
  rewrite Hcols, length_map. split; [reflexivity|].
  apply Forall_map. apply Forall_forall. intros c Hc.
  apply row_get_present. now rewrite (Hkeys r Hr).
Qed.
End MoreRecords.

(** ** Top-1 and the active set in default mode *)

Lemma argmax_from_upper l : forall bi b i,
  number32 b -> Forall number32 l ->
  number32 (snd (argext_from (fun a b => SFltb b a) bi b i l))
  /\ F32.leb b (snd (argext_from (fun a b => SFltb b a) bi b i l)) = true
  /\ forall x, In x l ->
       F32.leb x (snd (argext_from (fun a b => SFltb b a) bi b i l)) = true.
Proof.
  induction l as [| x r IH]; intros bi b i Ob Ol; cbn [argext_from].
  - cbn [snd]. split; [assumption|]. split; [|intros ? []].
    rewrite (f32_leb_ord b b Ob Ob). apply Z.leb_le. lia.
  - inversion Ol as [| ? ? Ox Or]; subst.
    destruct Ob as [Vb Nb]. destruct Ox as [Vx Nx]. rewrite Nb, Nx. cbn [orb].
    assert (number32 b) as Ob by (split; assumption).
    assert (number32 x) as Ox by (split; assumption).
    destruct (SFltb b x) eqn:Hlt.
    + destruct (IH i x (i + 1) Ox Or) as (Om & Hxm & Hr).
      split; [assumption|].
      change (F32.ltb b x = true) in Hlt.
      rewrite (f32_ltb_ord b x Ob Ox), Z.ltb_lt in Hlt.
      rewrite (f32_leb_ord x _ Ox Om), Z.leb_le in Hxm.
      split.
      * rewrite (f32_leb_ord b _ Ob Om). apply Z.leb_le. lia.
      * intros y [<- | Hy]; [|apply Hr, Hy].
        rewrite (f32_leb_ord x _ Ox Om). apply Z.leb_le. lia.
    + destruct (IH bi b (i + 1) Ob Or) as (Om & Hbm & Hr).
      split; [assumption|]. split; [assumption|].
      change (F32.ltb b x = false) in Hlt.
      rewrite (f32_ltb_ord b x Ob Ox), Z.ltb_ge in Hlt.
      rewrite (f32_leb_ord b _ Ob Om), Z.leb_le in Hbm.
      intros y [<- | Hy]; [|apply Hr, Hy].
      rewrite (f32_leb_ord x _ Ox Om). apply Z.leb_le. lia.
Qed.

Lemma np_max_upper probs mx :
  Forall number32 probs -> np_max probs = Some mx ->
  number32 mx /\ forall x, In x probs -> F32.leb x mx = true.
Proof.
  destruct probs as [| p r]; [discriminate|]. intros Ok [= <-].
  inversion Ok as [| ? ? Op Or]; subst.
  destruct (argmax_from_upper r 0 p 1 Op Or) as (Om & Hp & Hr).
  split; [assumption|]. intros x [<- | Hx]; [assumption | apply Hr, Hx].
Qed.

Section DefaultMode.
Context {Svc : Services}.

(** X9. When the probabilities are float32 numbers (no NaN), the top-1
    string has the largest probability; in default mode, where one
    threshold serves all strings, the top-1 string is active whenever any
    string is. *)
Theorem default_top1_is_active h segs sr i probs l :
  decide h (thresholds h) segs sr i probs = Some l ->
  Forall number32 probs ->
  (forall k, 1 <= k <= 16 ->
     F32.leb (prob_of probs k) (prob_of probs (top1 l)) = true)
  /\ (h = false -> active l <> [] -> In (top1 l) (active l)).
Proof.
  intros Hd Hok.
  pose proof (decide_inv _ _ _ _ _ _ _ Hd) as (Hlen & Ha & Hmax & Hpred & Hfb).
  destruct (np_max probs) as [mx |] eqn:Hmx; [|discriminate].
  destruct (argmax_is_max _ _ _ Ha Hmx) as [Hrange Hnth].
  destruct (np_max_upper _ _ Hok Hmx) as [Om Hupper].
  unfold NUM_STRINGS in Hlen.
  assert (prob_of probs (top1 l) = mx) as Htop
    by (unfold prob_of; apply nth_error_nth; exact Hnth).
  split.
  - intros k Hk. rewrite Htop. apply Hupper. unfold prob_of.
    apply nth_In. unfold len in Hlen. lia.
  - intros -> Hne.
    assert (fallback_condition false l = false) as Hc by reflexivity.
    rewrite Hc in Hfb. destruct Hfb as (_ & Hact & _).
    rewrite Hact in *. destruct (where_active (pred l)) as [| k ks] eqn:Hw;
      [contradiction|].
    assert (In k (where_active (pred l))) as Hk by (rewrite Hw; now left).
    rewrite <- Hw. clear Hw Hne.
    apply where_active_In in Hk. destruct Hk as (i0 & -> & Hi0).
    rewrite Hpred, threshold_pred_nth in Hi0.
    destruct (nth_error probs i0) as [p |] eqn:Hp; [|discriminate].
    assert (i0 < 16)%nat as Hi16.
    { unfold len in Hlen. assert (i0 < List.length probs)%nat
        by (apply nth_error_Some; congruence). lia. }
    rewrite (thresholds_nth false i0 Hi16) in Hi0.
    change (string_threshold false (Z.of_nat i0 + 1)) with (F32.lit 25 100) in Hi0.
    destruct (F32.geb p (F32.lit 25 100)) eqn:Hge; [|discriminate].
    assert (number32 (F32.lit 25 100)) as Ot by (split; vm_compute; reflexivity).
    assert (number32 p) as Op.
    { rewrite Forall_forall in Hok. apply Hok. eapply nth_error_In; eauto. }
    pose proof (Hupper p (nth_error_In _ _ Hp)) as Hpm.
    change (F32.leb (F32.lit 25 100) p = true) in Hge.
    rewrite (f32_leb_ord _ _ Ot Op), Z.leb_le in Hge.
    rewrite (f32_leb_ord _ _ Op Om), Z.leb_le in Hpm.
    apply where_active_In. exists (Z.to_nat (top1 l - 1)). split; [lia|].
    rewrite Hpred, threshold_pred_nth, Hnth.
    rewrite (thresholds_nth false (Z.to_nat (top1 l - 1))) by lia.
    change (string_threshold false (Z.of_nat (Z.to_nat (top1 l - 1)) + 1))
      with (F32.lit 25 100).
    replace (F32.geb mx (F32.lit 25 100)) with true; [reflexivity|].
    symmetry. change (F32.leb (F32.lit 25 100) mx = true).
    rewrite (f32_leb_ord _ _ Ot Om). apply Z.leb_le. lia.
Qed.
End DefaultMode.

(** ** The fast path lists every active string *)

Lemma mapM_nth_ext {A B} (f : A -> option B) l : forall l',
  (forall j, match nth_error l j with
             | Some x => exists y, f x = Some y /\ nth_error l' j = Some y
             | None => nth_error l' j = None
             end) ->
  mapM f l = Some l'.
Proof.
  induction l as [| a r IH]; intros l' H.
  - specialize (H 0%nat). destruct l'; [reflexivity | discriminate].
  - pose proof (H 0%nat) as H0. cbn [nth_error] in H0.
    destruct H0 as (b & Hb & Hl').
    destruct l' as [| b' bs]; [discriminate|].
    cbn [nth_error] in Hl'. injection Hl' as ->. cbn [mapM]. rewrite Hb.
    rewrite (IH bs); [reflexivity|]. intros j. apply (H (S j)).
Qed.

Lemma nth_error_combine {A B} (a : list A) : forall (b : list B) j,
  nth_error (combine a b) j
  = match nth_error a j, nth_error b j with
    | Some x, Some y => Some (x, y)
    | _, _ => None
    end.
Proof.
  induction a as [| x a IH]; intros [| y b] [| j]; cbn [combine nth_error];
    try reflexivity.
  - now destruct (nth_error a j).
  - apply IH.
Qed.

Section JsonComplete.
Context {Svc : Services}.

(** X10. On the fast path the JSON file holds, onset after onset and in the
    order of the active set, exactly one object per active string of
    each record: nothing is left out and nothing is added. *)
Theorem json_lists_every_active_string y raw h out :
  run_pipeline y raw h true = Some out ->
  exists all_probs,
    classify y (accept_onsets raw) = Some all_probs
    /\ second out
       = Json (record_entries (trace out) (accept_onsets raw) all_probs).
Proof.
  intros Hrun. apply run_pipeline_inv in Hrun.
  destruct Hrun as (all_probs & segs & Hcl & _ & Hlen & Hlen' & _ & Hs & Hrec).
  exists all_probs. split; [assumption|].
  assert (mapM json_of_row (df out)
          = Some (map (fun x => map (json_entry (fst (snd x)) (snd (snd x)))
                                  (active (fst x)))
                    (combine (trace out)
                       (combine (accept_onsets raw) all_probs)))) as Hm.
  { apply mapM_nth_ext. intros j.
    rewrite nth_error_map, !nth_error_combine.
    destruct (nth_error (df out) j) as [r |] eqn:Hr.
    - assert (exists l, nth_error (trace out) j = Some l) as [l Hl].
      { destruct (nth_error (trace out) j) eqn:E; [eauto|].
        apply nth_error_None in E. rewrite Hlen', <- Hlen in E.
        apply nth_error_None in E. congruence. }
      destruct (Hrec j l r Hl Hr) as (t & probs & Ht & Hp & Hd & ->).
      rewrite Hl, Ht, Hp. cbn [option_map fst snd].
      eexists. split; [|reflexivity].
      apply json_of_row_roundtrip.
      eapply decide_active_range; eassumption.
    - assert (nth_error (trace out) j = None) as ->; [|reflexivity].
      apply nth_error_None. rewrite Hlen', <- Hlen.
      now apply nth_error_None. }
  unfold json_results in Hs. rewrite Hm in Hs. cbn [option_map] in Hs.
  injection Hs as ->. reflexivity.
Qed.
End JsonComplete.

(** ** [predicted_strings]: writing and reading back *)

Lemma uint_no_comma d :
  no_comma (NilEmpty.string_of_uint d) = true.
Proof. induction d; cbn; auto. Qed.

Lemma str_of_Z_no_comma z : no_comma (str_of_Z z) = true /\ str_of_Z z <> "".
Proof.
  unfold str_of_Z, NilZero.string_of_int.
  destruct (Z.to_int z) as [d | d]; unfold NilZero.string_of_uint.
  - destruct d; (split; [try reflexivity; cbn; apply uint_no_comma | discriminate]).
  - split; [|discriminate]. cbn [no_comma]. 
    destruct d; try reflexivity; cbn; apply uint_no_comma.
Qed.

(** X11. Joining any list of integers with commas and reading the string back
    as the fast path does returns the list; the string is empty exactly
    for the empty list. *)
Theorem predicted_strings_roundtrip (l : list Z) :
  parse_strings (join_strings l) = Some l
  /\ (join_strings l = "" <-> l = []).
Proof.
  assert (join_strings l = "" <-> l = []) as Hempty.
  { unfold join_strings. destruct l as [| a r]; [tauto|].
    replace (0 <? len (a :: r)) with true
      by (symmetry; apply Z.ltb_lt; unfold len; simpl; lia).
    split; [|discriminate]. intros E. exfalso. revert E.
    apply (concat_nonempty (str_of_Z a) (map str_of_Z r)).
    apply str_of_Z_no_comma. }
  split; [|exact Hempty].
  unfold parse_strings. destruct (String.eqb_spec (join_strings l) "") as [E | Hne].
  - apply Hempty in E. now subst.
  - unfold join_strings in *. destruct l as [| a r]; [now destruct Hne|].
    replace (0 <? len (a :: r)) with true
      by (symmetry; apply Z.ltb_lt; unfold len; simpl; lia).
    rewrite split_on_concat.
    + apply mapM_int_of_str.
    + discriminate.
    + apply Forall_map, Forall_forall. intros z _. apply str_of_Z_no_comma.
Qed.

(** ** When the fast path returns *)

Lemma mapM_total {A B} (f : A -> option B) l :
  (forall x, In x l -> exists y, f x = Some y) ->
  exists l', mapM f l = Some l'.
Proof.
  induction l as [| a r IH]; intros H; [now exists []|].
  destruct (H a (or_introl eq_refl)) as [b Hb].
  destruct IH as [bs Hbs]; [intros x Hx; apply H; now right|].
  exists (b :: bs). cbn [mapM]. now rewrite Hb, Hbs.
Qed.

Section FastPath.
Context {Svc : Services}.

Lemma collect_complete h y sr onsets : forall b0 feats segs,
  mapM (onset_features y sr) onsets = Some feats ->
  (h = true -> mapM (yin_segment y sr) onsets = Some segs) ->
  exists b, collect h y sr b0 onsets = Some b.
Proof.
  induction onsets as [| t r IH]; intros b0 feats segs Hf Hs;
    [now exists b0|].
  cbn [mapM] in Hf. unfold onset_features at 1 in Hf.
  cbn [collect]. unfold collect_step.
  destruct (classifier_clip y sr t) as [clip |]; [|discriminate].
  destruct (mapM (onset_features y sr) r) as [fr |] eqn:Hfr; [|discriminate].
  destruct (clip_to_mel_and_vec clip sr) as [m v].
  destruct h.
  - specialize (Hs eq_refl). cbn [mapM] in Hs.
    destruct (yin_segment y sr t) as [seg |]; [|discriminate].
    destruct (mapM (yin_segment y sr) r) as [sr' |] eqn:Hsr; [|discriminate].
    eapply (IH _ fr sr'); [reflexivity | intros _; reflexivity].
  - eapply (IH _ fr segs); [reflexivity | discriminate].
Qed.

Lemma process_complete h thr ap segs sr onsets : forall i,
  (forall j, (j < List.length onsets)%nat ->
     exists probs l, nth_error ap (i + j) = Some probs
                     /\ decide h thr segs sr (i + j) probs = Some l) ->
  exists recs, process h thr ap segs sr i onsets = Some recs.
Proof.
  induction onsets as [| t rest IH]; intros i H; [now exists []|].
  cbn [process].
  destruct (H 0%nat) as (probs & l & Hp & Hd); [simpl; lia|].
  rewrite Nat.add_0_r in Hp, Hd. rewrite Hp, Hd.
  destruct (IH (S i)) as [more Hm].
  { intros j Hj. destruct (H (S j)) as (p' & l' & Hp' & Hd'); [simpl; lia|].
    rewrite Nat.add_succ_r in Hp', Hd'. eauto. }
  rewrite Hm. eauto.
Qed.

(** X12. The fast path returns exactly when cutting the waveform raises for
    no accepted onset and the classifier answers with one vector of 16
    probabilities per accepted onset: the decision loop, the CSV and the
    reading back of [predicted_strings] raise nothing of their own. *)
Theorem fast_path_returns y raw h :
  (exists out, run_pipeline y raw h true = Some out)
  <-> (exists all_probs segs,
         classify y (accept_onsets raw) = Some all_probs
         /\ segments h y (accept_onsets raw) = Some segs
         /\ forall j, (j < List.length (accept_onsets raw))%nat ->
              exists probs, nth_error all_probs j = Some probs
                            /\ len probs = NUM_STRINGS).
Proof.
  split.
  - intros [out Hrun]. apply run_pipeline_inv in Hrun.
    destruct Hrun as (all_probs & segs & Hcl & Hsg & Hlen & Hlen' & _ & _ & Hrec).
    exists all_probs, segs. split; [assumption|]. split; [assumption|].
    intros j Hj.
    destruct (nth_error (trace out) j) as [l |] eqn:Hl;
      [|apply nth_error_None in Hl; lia].
    destruct (nth_error (df out) j) as [r |] eqn:Hr;
      [|apply nth_error_None in Hr; lia].
    destruct (Hrec j l r Hl Hr) as (t & probs & _ & Hp & Hd & _).
    exists probs. split; [assumption|].
    now apply decide_inv in Hd.
  - intros (all_probs & segs & Hcl & Hsg & Hv).
    unfold classify in Hcl.
    destruct (mapM (onset_features y SAMPLE_RATE) (accept_onsets raw))
      as [feats |] eqn:Hf; [|discriminate].
    injection Hcl as Hcl.
    assert (h = true ->
            mapM (yin_segment y SAMPLE_RATE) (accept_onsets raw) = Some segs)
      as Hs by (intros ->; exact Hsg).
    destruct (collect_complete h y SAMPLE_RATE _ no_batches feats segs Hf Hs)
      as [b Hb].
    unfold run_pipeline. rewrite Hb.
    apply collect_spec in Hb. cbn [no_batches valid_onsets mel_batch vec_batch
      fallback_segments app] in Hb.
    destruct Hb as (Hvo & (feats' & Hf' & Hm & Hvec) & Hfs).
    rewrite Hf in Hf'. injection Hf' as <-.
    rewrite Hvo, Hm, Hvec, Hcl.
    assert (fallback_segments b = segs) as ->.
    { destruct h.
      - destruct Hfs as (segs' & Hs' & ->). rewrite (Hs eq_refl) in Hs'.
        now injection Hs' as <-.
      - unfold segments in Hsg. now injection Hsg as <-. }
    destruct (process_complete h (thresholds h) all_probs segs SAMPLE_RATE
                (accept_onsets raw) 0) as [recs Hrecs].
    { intros j Hj. destruct (Hv j Hj) as (probs & Hp & Hlen).
      destruct (decide_succeeds h (thresholds h) segs SAMPLE_RATE j probs Hlen)
        as [l Hl].
      - intros ->. unfold segments in Hsg.
        destruct (nth_error (accept_onsets raw) j) as [t |] eqn:Ht;
          [|apply nth_error_None in Ht; lia].
        destruct (mapM_nth _ _ _ _ _ Hsg Ht) as (seg & _ & Hseg). eauto.
      - exists probs, l. auto. }
    rewrite Hrecs.
    destruct (mapM_total json_of_row (map snd recs)) as [lists Hlists].
    { intros r Hr. apply in_map_iff in Hr. destruct Hr as ([l r'] & <- & Hin).
      apply In_nth_error in Hin. destruct Hin as [j Hj].
      apply process_nth in Hrecs. destruct Hrecs as [_ Hnth].
      destruct (Hnth j l r' Hj) as (t & probs & _ & _ & Hd & ->).
      eexists. apply json_of_row_roundtrip.
      eapply decide_active_range. exact Hd. }
    unfold json_results. rewrite Hlists. cbn [option_map]. eauto.
Qed.

End FastPath.

(** ** The text of a subtitle block *)

Lemma lstrip_keeps_last p c :
  is_space c = false ->
  lstrip (string_of_list_ascii (p ++ [c])) <> "".
Proof.
  intros Hc. induction p as [| a p IH]; cbn [app string_of_list_ascii lstrip].
  - rewrite Hc. discriminate.
  - destruct (is_space a); [assumption | discriminate].
Qed.

Lemma strip_nonempty c r : is_space c = false -> strip (String c r) <> "".
Proof.
  intros Hc. unfold strip. cbn [lstrip]. rewrite Hc.
  unfold rev_string at 2. cbn [list_ascii_of_string rev].
  pose proof (lstrip_keeps_last (rev (list_ascii_of_string r)) c Hc) as H.
  destruct (lstrip _) as [| a s]; [now destruct H|].
  unfold rev_string. cbn [list_ascii_of_string rev].
  destruct (rev (list_ascii_of_string s)); discriminate.
Qed.

Lemma uint_head d :
  d <> Decimal.Nil ->
  exists c r, NilEmpty.string_of_uint d = String c r /\ is_space c = false.
Proof. destruct d; intros H; [now destruct H | ..]; cbn; eauto. Qed.

Lemma str_of_Z_head z :
  exists c r, str_of_Z z = String c r /\ is_space c = false.
Proof.
  unfold str_of_Z, NilZero.string_of_int.
  destruct (Z.to_int z) as [d | d]; unfold NilZero.string_of_uint.
  - destruct d; try (apply uint_head; discriminate). cbn. eauto.
  - cbn. eauto.
Qed.

Lemma join_strings_head a r :
  exists c s, join_strings (a :: r) = String c s /\ is_space c = false.
Proof.
  unfold join_strings.
  replace (0 <? len (a :: r)) with true
    by (symmetry; apply Z.ltb_lt; unfold len; simpl; lia).
  destruct (str_of_Z_head a) as (c & s & Hs & Hc). cbn [map String.concat].
  rewrite Hs. destruct (map str_of_Z r); cbn; eauto.
Qed.

Section SubtitleText.
Context {Svc : Services}.

(** X14. The text of the block of a record: the tag in capitals (hybrid) or
    [t=<time>s] with two decimals (default), the arrow, and the
    comma-separated active strings, or [None] when no string is active. *)
Theorem subtitle_text y raw h out blocks j l b :
  run_pipeline y raw h false = Some out -> second out = Srt blocks ->
  nth_error (trace out) j = Some l -> nth_error blocks j = Some b ->
  exists t,
    nth_error (accept_onsets raw) j = Some t
    /\ b_text b
       = (if h
          then upper (used l) ++ " " ++ arrow ++ " " ++ shown_strings (active l)
          else "t=" ++ fmt_2f t ++ "s " ++ arrow ++ " "
               ++ shown_strings (active l))
    /\ (h = true ->
        upper (used l) = "MODEL" \/ upper (used l) = "YIN"
        \/ upper (used l) = "NONE").
Proof.
  intros Hrun Hsec Hl Hj. apply run_pipeline_inv in Hrun.
  destruct Hrun as (all_probs & segs & _ & _ & Hlen & Hlen' & _ & Hs & Hrec).
  rewrite Hsec in Hs.
  destruct (srt_entries h 1 (df out)) as [bs |] eqn:Hb; [|discriminate].
  simpl in Hs. injection Hs as ->.
  apply srt_entries_nth in Hb. destruct Hb as [Hbl Hnth].
  destruct (Hnth j b Hj) as (r & Hr & He).
  destruct (Hrec j l r Hl Hr) as (t & probs & Ht & _ & Hd & ->).
  exists t. split; [assumption|].
  assert ((if String.eqb (strip (join_strings (active l))) ""
           then "None" else join_strings (active l))
          = shown_strings (active l)) as Hpred.
  { unfold shown_strings. destruct (active l) as [| a r]; [reflexivity|].
    destruct (join_strings_head a r) as (c & s & -> & Hc).
    destruct (String.eqb_spec (strip (String c s)) "") as [E |];
      [|reflexivity].
    now apply strip_nonempty in E. }
  split.
  - unfold srt_entry in He.
    destruct (row_get_fixed_fields h t probs l) as (Htm & Hps & _).
    rewrite Htm, Hps in He. cbn [py_float] in He.
    fold (join_strings (active l)) in He. rewrite Hpred in He.
    destruct h.
    + rewrite row_get_used in He.
      destruct (flash_window t) as [start_t end_t].
      destruct (srt_time start_t) as [a |]; [|discriminate].
      destruct (srt_time end_t) as [c |]; [|discriminate].
      injection He as <-. reflexivity.
    + destruct (flash_window t) as [start_t end_t].
      destruct (srt_time start_t) as [a |]; [|discriminate].
      destruct (srt_time end_t) as [c |]; [|discriminate].
      injection He as <-. reflexivity.
  - intros ->.
    pose proof (decide_inv _ _ _ _ _ _ _ Hd) as (_ & _ & _ & _ & Hfb).
    destruct (fallback_condition true l).
    + destruct Hfb as (seg & _ & _ & Hm).
      destruct (yin_string_from_segment seg SAMPLE_RATE) as [[[s p] |] |];
        [| |contradiction]; destruct Hm as [_ ->]; auto.
    + destruct Hfb as (_ & _ & ->). auto.
Qed.
End SubtitleText.

(** ** The job server *)

Lemma store_get_set job_id record jobs :
  store_get job_id (store_set job_id record jobs) = Some record.
Proof.
  induction jobs as [| [k v] r IH]; cbn [store_set store_get].
  - now rewrite String.eqb_refl.
  - destruct (String.eqb_spec job_id k) as [-> | Hne]; cbn [store_get].
    + now rewrite String.eqb_refl.
    + apply String.eqb_neq in Hne. now rewrite Hne.
Qed.

Lemma store_get_set_other job_id other record jobs :
  other <> job_id ->
  store_get other (store_set job_id record jobs) = store_get other jobs.
Proof.
  intros Hne. induction jobs as [| [k v] r IH]; cbn [store_set store_get].
  - apply String.eqb_neq in Hne. now rewrite Hne.
  - destruct (String.eqb_spec job_id k) as [-> | Hk]; cbn [store_get].
    + apply String.eqb_neq in Hne. now rewrite Hne.
    + now rewrite IH.
Qed.

Section Server.
Variable isfile : string -> bool.
Variable isfile_other : jval -> res bool.
Variable output_dir : string -> string.
Variable path_join : string -> string -> string.

Lemma download_csv_path job_id jobs job type path filename :
  store_get job_id jobs = Some job ->
  dict_get "status" job = JStr "done" ->
  _get_result_path job "csv" type = Ok (JStr path, filename) ->
  download_csv isfile isfile_other jobs job_id type
  = serve isfile path filename "text/csv" "CSV not found".
Proof.
  intros Hj Hs Hp. unfold download_csv, serve. rewrite Hj, Hs, Hp.
  cbn [is_str negb truthy os_path_isfile].
  change (String.eqb "done" "done") with true. cbn [negb].
  destruct (String.eqb path ""); [reflexivity|]. cbn [negb andb].
  now destruct (isfile path).
Qed.

Lemma download_video_path job_id jobs job type path filename :
  store_get job_id jobs = Some job ->
  dict_get "status" job = JStr "done" ->
  _get_result_path job "video" type = Ok (JStr path, filename) ->
  download_video isfile isfile_other jobs job_id type
  = serve isfile path filename "video/mp4" "Video not found".
Proof.
  intros Hj Hs Hp. unfold download_video, serve. rewrite Hj, Hs, Hp.
  cbn [is_str negb truthy os_path_isfile].
  change (String.eqb "done" "done") with true. cbn [negb].
  destruct (String.eqb path ""); [reflexivity|]. cbn [negb andb].
  now destruct (isfile path).
Qed.

Lemma download_raises job_id jobs job type e e' :
  store_get job_id jobs = Some job ->
  dict_get "status" job = JStr "done" ->
  _get_result_path job "csv" type = Raise e ->
  _get_result_path job "video" type = Raise e' ->
  download_csv isfile isfile_other jobs job_id type = Raise e
  /\ download_video isfile isfile_other jobs job_id type = Raise e'.
Proof.
  intros Hj Hs Hc Hv. unfold download_csv, download_video.
  now rewrite Hj, Hs, Hc, Hv.
Qed.

Lemma download_not_done job_id jobs job type :
  store_get job_id jobs = Some job ->
  is_str "done" (dict_get "status" job) = false ->
  download_csv isfile isfile_other jobs job_id type
  = Raise (HTTPException 404 "Job not ready or not found")
  /\ download_video isfile isfile_other jobs job_id type
     = Raise (HTTPException 404 "Job not ready or not found").
Proof.
  intros Hj Hs. unfold download_csv, download_video. now rewrite Hj, Hs.
Qed.

(** X15. After an audio job, the record holds the pipeline's two paths and
    its number of rows, and both downloads serve them under fixed names
    whatever [type] the request carries; after a failed one the record
    holds the error text and both downloads answer 404. *)
Theorem audio_job_downloads w job_id jobs type :
  match audio_run w with
  | Returned (csv_path, video_path, df) =>
      get_status (run_job_audio w job_id jobs) job_id
      = Ok [("status", JStr "done"); ("csv_path", JStr csv_path);
            ("video_path", JStr video_path); ("rows", JInt (len df))]
      /\ download_csv isfile isfile_other (run_job_audio w job_id jobs)
           job_id type
         = serve isfile csv_path "harp_predictions.csv" "text/csv"
             "CSV not found"
      /\ download_video isfile isfile_other (run_job_audio w job_id jobs)
           job_id type
         = serve isfile video_path "harp_labeled.mp4" "video/mp4"
             "Video not found"
  | Raised e =>
      get_status (run_job_audio w job_id jobs) job_id
      = Ok [("status", JStr "error"); ("message", JStr e)]
      /\ download_csv isfile isfile_other (run_job_audio w job_id jobs)
           job_id type
         = Raise (HTTPException 404 "Job not ready or not found")
      /\ download_video isfile isfile_other (run_job_audio w job_id jobs)
           job_id type
         = Raise (HTTPException 404 "Job not ready or not found")
  end.
Proof.
  unfold run_job_audio. destruct (audio_run w) as [[[c v] df] | e].
  - split; [unfold get_status; now rewrite store_get_set|]. split.
    + eapply download_csv_path; [apply store_get_set | reflexivity..].
    + eapply download_video_path; [apply store_get_set | reflexivity..].
  - split; [unfold get_status; now rewrite store_get_set|].
    eapply download_not_done; [apply store_get_set | reflexivity].
Qed.

(** X16. After a hand job the record is an error exactly when there is no
    detector, the detector raised or its CSV could not be read; otherwise
    [rows] is the number of lines of the CSV after the header, never
    negative, and 0 when the CSV is no file; the downloads serve the
    detector's paths whatever [type] the request carries. *)
Theorem hand_job_outcome w job_id jobs type :
  match hand_outcome
          "Hand detector not available (harp_hand_detector not found)." w with
  | Returned (csv_path, video_path, rows) =>
      get_status (run_job_hand w job_id jobs) job_id
      = Ok [("status", JStr "done"); ("csv_path", JStr csv_path);
            ("video_path", JStr video_path); ("rows", JInt rows)]
      /\ 0 <= rows
      /\ (isfile_then w csv_path = false -> rows = 0)
      /\ download_csv isfile isfile_other (run_job_hand w job_id jobs)
           job_id type
         = serve isfile csv_path "harp_predictions.csv" "text/csv"
             "CSV not found"
      /\ download_video isfile isfile_other (run_job_hand w job_id jobs)
           job_id type
         = serve isfile video_path "harp_labeled.mp4" "video/mp4"
             "Video not found"
  | Raised e =>
      get_status (run_job_hand w job_id jobs) job_id
      = Ok [("status", JStr "error"); ("message", JStr e)]
      /\ download_csv isfile isfile_other (run_job_hand w job_id jobs)
           job_id type
         = Raise (HTTPException 404 "Job not ready or not found")
      /\ download_video isfile isfile_other (run_job_hand w job_id jobs)
           job_id type
         = Raise (HTTPException 404 "Job not ready or not found")
  end.
Proof.
  assert (forall record,
            is_str "done" (dict_get "status" record) = false ->
            forall jobs',
              get_status (store_set job_id record jobs') job_id = Ok record
              /\ download_csv isfile isfile_other
                   (store_set job_id record jobs') job_id type
                 = Raise (HTTPException 404 "Job not ready or not found")
              /\ download_video isfile isfile_other
                   (store_set job_id record jobs') job_id type
                 = Raise (HTTPException 404 "Job not ready or not found"))
    as Herr.
  { intros record Hs jobs'.
    split; [unfold get_status; now rewrite store_get_set|].
    eapply download_not_done; [apply store_get_set | exact Hs]. }
  assert (forall c v rows jobs',
            get_status
              (store_set job_id
                 [("status", JStr "done"); ("csv_path", JStr c);
                  ("video_path", JStr v); ("rows", JInt rows)] jobs') job_id
            = Ok [("status", JStr "done"); ("csv_path", JStr c);
                  ("video_path", JStr v); ("rows", JInt rows)]
            /\ download_csv isfile isfile_other
                 (store_set job_id
                    [("status", JStr "done"); ("csv_path", JStr c);
                     ("video_path", JStr v); ("rows", JInt rows)] jobs')
                 job_id type
               = serve isfile c "harp_predictions.csv" "text/csv"
                   "CSV not found"
            /\ download_video isfile isfile_other
                 (store_set job_id
                    [("status", JStr "done"); ("csv_path", JStr c);
                     ("video_path", JStr v); ("rows", JInt rows)] jobs')
                 job_id type
               = serve isfile v "harp_labeled.mp4" "video/mp4"
                   "Video not found") as Hdone.
  { intros c v rows jobs'.
    split; [unfold get_status; now rewrite store_get_set|]. split.
    - eapply download_csv_path; [apply store_get_set | reflexivity..].
    - eapply download_video_path; [apply store_get_set | reflexivity..]. }
  unfold hand_outcome, run_job_hand.
  destruct (hand_run w) as [[[c v] | e] |].
  - destruct (isfile_then w c) eqn:Hf.
    + destruct (count_lines w c) as [n | e].
      * destruct (Hdone c v (data_rows n)
                    (store_set job_id
                       [("status", JStr "running");
                        ("message", JStr "Processing (hand detection)...")]
                       jobs)) as (H1 & H2 & H3).
        split; [exact H1|]. split; [unfold data_rows; lia|].
        split; [congruence|]. split; assumption.
      * apply Herr. reflexivity.
    + destruct (Hdone c v 0
                  (store_set job_id
                     [("status", JStr "running");
                      ("message", JStr "Processing (hand detection)...")]
                     jobs)) as (H1 & H2 & H3).
      split; [exact H1|]. split; [lia|]. split; [reflexivity|].
      split; assumption.
  - apply Herr. reflexivity.
  - apply Herr. reflexivity.
Qed.

Lemma both_record w job_id jobs c v df :
  audio_run w = Returned (c, v, df) ->
  store_get job_id (run_job_both output_dir path_join w job_id jobs)
  = Some
      match hand_outcome no_detector w with
      | Raised e =>
          [("status", JStr "done");
           ("audio", JDict [("csv_path", JStr c); ("video_path", JStr v);
                            ("rows", JInt (len df))]);
           ("hand", JNone); ("hand_error", JStr e)]
      | Returned (ch, vh, n) =>
          [("status", JStr "done");
           ("audio", JDict [("csv_path", JStr c); ("video_path", JStr v);
                            ("rows", JInt (len df))]);
           ("hand", JDict [("csv_path", JStr ch); ("video_path", JStr vh);
                           ("rows", JInt n)]);
           ("combined",
            fst (combine_videos path_join w (output_dir job_id) vh));
           ("combined_error",
            snd (combine_videos path_join w (output_dir job_id) vh))]
      end.
Proof.
  intros Ha. unfold run_job_both, hand_outcome. rewrite Ha.
  destruct (hand_run w) as [[[ch vh] | e] |]; try apply store_get_set.
  destruct (isfile_then w ch).
  - destruct (count_lines w ch) as [n | e]; [|apply store_get_set].
    destruct (combine_videos path_join w (output_dir job_id) vh).
    apply store_get_set.
  - destruct (combine_videos path_join w (output_dir job_id) vh).
    apply store_get_set.
Qed.

(** X17. When the audio pipeline returned, a job of both kinds ends as
    [done] whatever happened to the hand part, its record keeps the audio
    result, the downloads with [type=audio] serve the audio files, and a
    download without [type] is refused with 400. *)
Theorem both_job_audio_part w job_id jobs c v df :
  audio_run w = Returned (c, v, df) ->
  exists record,
    get_status (run_job_both output_dir path_join w job_id jobs) job_id
    = Ok record
    /\ dict_get "status" record = JStr "done"
    /\ dict_get "audio" record
       = JDict [("csv_path", JStr c); ("video_path", JStr v);
                ("rows", JInt (len df))]
    /\ download_csv isfile isfile_other
         (run_job_both output_dir path_join w job_id jobs) job_id
         (Some "audio")
       = serve isfile c "harp_audio_predictions.csv" "text/csv"
           "CSV not found"
    /\ download_video isfile isfile_other
         (run_job_both output_dir path_join w job_id jobs) job_id
         (Some "audio")
       = serve isfile v "harp_audio_video.mp4" "video/mp4" "Video not found"
    /\ (forall type, type = None \/ type = Some "" ->
        download_csv isfile isfile_other
          (run_job_both output_dir path_join w job_id jobs) job_id type
        = Raise (HTTPException 400
                   "For this job, use ?type=audio, ?type=hand, or ?type=combined")
        /\ download_video isfile isfile_other
             (run_job_both output_dir path_join w job_id jobs) job_id type
           = Raise (HTTPException 400
                      "For this job, use ?type=audio, ?type=hand, or ?type=combined")).
Proof.
  intros Ha. pose proof (both_record w job_id jobs c v df Ha) as Hrec.
  eexists. split; [unfold get_status; rewrite Hrec; reflexivity|].
  destruct (hand_outcome no_detector w) as [[[ch vh] n] | e].
  - split; [reflexivity|]. split; [reflexivity|]. split.
    { eapply download_csv_path; [exact Hrec | reflexivity..]. }
    split.
    { eapply download_video_path; [exact Hrec | reflexivity..]. }
    intros type [-> | ->];
      (eapply download_raises; [exact Hrec | reflexivity..]).
  - split; [reflexivity|]. split; [reflexivity|]. split.
    { eapply download_csv_path; [exact Hrec | reflexivity..]. }
    split.
    { eapply download_video_path; [exact Hrec | reflexivity..]. }
    intros type [-> | ->];
      (eapply download_raises; [exact Hrec | reflexivity..]).
Qed.

(** X18. A failure of the hand part never fails a job of both kinds: the
    record then has [hand] set to [None], the error text under
    [hand_error] and no [combined] entry, and the downloads with
    [type=hand] and [type=combined] answer 404.  When the hand part
    succeeded the downloads with [type=hand] serve its files. *)
Theorem both_job_hand_part w job_id jobs c v df :
  audio_run w = Returned (c, v, df) ->
  exists record,
    get_status (run_job_both output_dir path_join w job_id jobs) job_id
    = Ok record
    /\ match hand_outcome no_detector w with
       | Raised e =>
           dict_get "status" record = JStr "done"
           /\ dict_get "hand" record = JNone
           /\ dict_get "hand_error" record = JStr e
           /\ dict_has "combined" record = false
           /\ (forall type, type = "hand" \/ type = "combined" ->
               download_csv isfile isfile_other
                 (run_job_both output_dir path_join w job_id jobs) job_id
                 (Some type)
               = Raise (HTTPException 404
                          (if String.eqb type "hand" then "No hand result"
                           else "No combined video available"))
               /\ download_video isfile isfile_other
                    (run_job_both output_dir path_join w job_id jobs) job_id
                    (Some type)
                  = Raise (HTTPException 404
                             (if String.eqb type "hand" then "No hand result"
                              else "No combined video available")))
       | Returned (ch, vh, n) =>
           dict_get "hand" record
           = JDict [("csv_path", JStr ch); ("video_path", JStr vh);
                    ("rows", JInt n)]
           /\ 0 <= n
           /\ dict_has "hand_error" record = false
           /\ download_csv isfile isfile_other
                (run_job_both output_dir path_join w job_id jobs) job_id
                (Some "hand")
              = serve isfile ch "harp_hand_predictions.csv" "text/csv"
                  "CSV not found"
           /\ download_video isfile isfile_other
                (run_job_both output_dir path_join w job_id jobs) job_id
                (Some "hand")
              = serve isfile vh "harp_hand_video.mp4" "video/mp4"
                  "Video not found"
       end.
Proof.
  intros Ha. pose proof (both_record w job_id jobs c v df Ha) as Hrec.
  eexists. split; [unfold get_status; rewrite Hrec; reflexivity|].
  assert (match hand_outcome no_detector w with
          | Returned (_, _, n) => 0 <= n
          | Raised _ => True
          end) as Hn.
  { unfold hand_outcome. destruct (hand_run w) as [[[ch vh] | e] |]; auto.
    destruct (isfile_then w ch); [|lia].
    destruct (count_lines w ch); [unfold data_rows; lia | exact I]. }
  destruct (hand_outcome no_detector w) as [[[ch vh] n] | e].
  - split; [reflexivity|]. split; [exact Hn|]. split; [reflexivity|]. split.
    + eapply download_csv_path; [exact Hrec | reflexivity..].
    + eapply download_video_path; [exact Hrec | reflexivity..].
  - repeat (split; [reflexivity|]).
    intros type [-> | ->];
      (eapply download_raises; [exact Hrec | reflexivity..]).
Qed.

(** X19. When both parts succeeded the record holds either a combined video
    or the reason why there is none, never both and never neither: the
    video when the subtitle file and the hand video exist, the
    transcoder completed and its output exists.  Both downloads with
    [type=combined] then serve that video, also the CSV download;
    otherwise they answer 404. *)
Theorem combined_video_or_error w job_id jobs c v df ch vh n :
  audio_run w = Returned (c, v, df) ->
  hand_outcome no_detector w = Returned (ch, vh, n) ->
  exists record,
    get_status (run_job_both output_dir path_join w job_id jobs) job_id
    = Ok record
    /\ if combined_made path_join w (output_dir job_id) vh
       then
         dict_get "combined" record
         = JDict [("video_path",
                   JStr (path_join (output_dir job_id) "video_combined.mp4"))]
         /\ dict_get "combined_error" record = JNone
         /\ download_csv isfile isfile_other
              (run_job_both output_dir path_join w job_id jobs) job_id
              (Some "combined")
            = serve isfile
                (path_join (output_dir job_id) "video_combined.mp4")
                "harp_combined.mp4" "text/csv" "CSV not found"
         /\ download_video isfile isfile_other
              (run_job_both output_dir path_join w job_id jobs) job_id
              (Some "combined")
            = serve isfile
                (path_join (output_dir job_id) "video_combined.mp4")
                "harp_combined.mp4" "video/mp4" "Video not found"
       else
         dict_get "combined" record = JNone
         /\ (exists reason,
               dict_get "combined_error" record = JStr reason
               /\ reason <> "")
         /\ download_csv isfile isfile_other
              (run_job_both output_dir path_join w job_id jobs) job_id
              (Some "combined")
            = Raise (HTTPException 404 "No combined video available")
         /\ download_video isfile isfile_other
              (run_job_both output_dir path_join w job_id jobs) job_id
              (Some "combined")
            = Raise (HTTPException 404 "No combined video available").
Proof.
  intros Ha Hh. pose proof (both_record w job_id jobs c v df Ha) as Hrec.
  rewrite Hh in Hrec.
  eexists. split; [unfold get_status; rewrite Hrec; reflexivity|].
  assert (if combined_made path_join w (output_dir job_id) vh
          then combine_videos path_join w (output_dir job_id) vh
               = (JDict [("video_path",
                          JStr (path_join (output_dir job_id)
                                  "video_combined.mp4"))], JNone)
          else exists reason,
                 combine_videos path_join w (output_dir job_id) vh
                 = (JNone, JStr reason) /\ reason <> "") as Hc.
  { unfold combined_made, combine_videos.
    destruct (isfile_then w (path_join (output_dir job_id) "overlay.srt"));
      cbn [negb andb]; [|eexists; split; [reflexivity | discriminate]].
    destruct (isfile_then w vh);
      cbn [negb andb]; [|eexists; split; [reflexivity | discriminate]].
    destruct (ffmpeg_run w) as [| stderr str_e | e]; cbn [andb];
      [|eexists; split; [reflexivity | discriminate]..].
    destruct (isfile_after w _);
      [reflexivity | eexists; split; [reflexivity | discriminate]]. }
  destruct (combined_made path_join w (output_dir job_id) vh).
  - rewrite Hc in *. cbn [fst snd] in *.
    split; [reflexivity|]. split; [reflexivity|]. split.
    + eapply download_csv_path; [exact Hrec | reflexivity..].
    + eapply download_video_path; [exact Hrec | reflexivity..].
  - destruct Hc as (reason & Hc & Hne). rewrite Hc in *. cbn [fst snd] in *.
    split; [reflexivity|]. split; [exists reason; split; [reflexivity | exact Hne]|].
    eapply download_raises; [exact Hrec | reflexivity..].
Qed.

(** X20. A download whose [type] names a text field of the record of a job
    of both kinds, such as [status], is not answered with an HTTP error:
    the handler calls [get] on the text and raises [AttributeError]. *)
Theorem type_naming_text_field_raises w job_id jobs c v df :
  audio_run w = Returned (c, v, df) ->
  download_csv isfile isfile_other
    (run_job_both output_dir path_join w job_id jobs) job_id (Some "status")
  = Raise AttributeError
  /\ download_video isfile isfile_other
       (run_job_both output_dir path_join w job_id jobs) job_id
       (Some "status")
     = Raise AttributeError
  /\ forall e, hand_outcome no_detector w = Raised e -> e <> "" ->
       download_csv isfile isfile_other
         (run_job_both output_dir path_join w job_id jobs) job_id
         (Some "hand_error")
       = Raise AttributeError.
Proof.
  intros Ha. pose proof (both_record w job_id jobs c v df Ha) as Hrec.
  assert (dict_get "status"
            match hand_outcome no_detector w with
            | Raised e =>
                [("status", JStr "done");
                 ("audio", JDict [("csv_path", JStr c); ("video_path", JStr v);
                                  ("rows", JInt (len df))]);
                 ("hand", JNone); ("hand_error", JStr e)]
            | Returned (ch, vh, n) =>
                [("status", JStr "done");
                 ("audio", JDict [("csv_path", JStr c); ("video_path", JStr v);
                                  ("rows", JInt (len df))]);
                 ("hand", JDict [("csv_path", JStr ch); ("video_path", JStr vh);
                                 ("rows", JInt n)]);
                 ("combined",
                  fst (combine_videos path_join w (output_dir job_id) vh));
                 ("combined_error",
                  snd (combine_videos path_join w (output_dir job_id) vh))]
            end = JStr "done") as Hs
    by (destruct (hand_outcome no_detector w) as [[[ch vh] n] | e];
        reflexivity).
  apply and_assoc. split.
  - eapply download_raises; [exact Hrec | exact Hs | |];
      destruct (hand_outcome no_detector w) as [[[ch vh] n] | e]; reflexivity.
  - intros e He Hne. rewrite He in Hrec. apply String.eqb_neq in Hne.
    eapply proj1, download_raises; [exact Hrec | reflexivity | |];
      unfold _get_result_path; cbn; rewrite Hne; reflexivity.
Qed.

(** X21. A runner writes the record of its own job only: the record of every
    other job id is what it was before. *)
Theorem runners_touch_one_job w job_id jobs other :
  other <> job_id ->
  store_get other (run_job_audio w job_id jobs) = store_get other jobs
  /\ store_get other (run_job_hand w job_id jobs) = store_get other jobs
  /\ store_get other (run_job_both output_dir path_join w job_id jobs)
     = store_get other jobs.
Proof.
  intros Hne. unfold run_job_audio, run_job_hand, run_job_both.
  repeat split.
  - destruct (audio_run w) as [[[c v] df] | e];
      now rewrite !store_get_set_other.
  - destruct (hand_run w) as [[[c v] | e] |];
      try now rewrite !store_get_set_other.
    destruct (isfile_then w c);
      [destruct (count_lines w c)|]; now rewrite !store_get_set_other.
  - destruct (audio_run w) as [[[c v] df] | e];
      [|now rewrite !store_get_set_other].
    destruct (hand_run w) as [[[ch vh] | e] |];
      try now rewrite !store_get_set_other.
    destruct (isfile_then w ch); [destruct (count_lines w ch)|];
      try destruct (combine_videos path_join w (output_dir job_id) vh);
      now rewrite !store_get_set_other.
Qed.

Section AudioRows.
Context {Svc : Services}.

Lemma run_pipeline_csv_name y raw h fast out :
  run_pipeline y raw h fast = Some out ->
  csv_name out
  = if h then "predictions_hybrid.csv" else "predictions_default.csv".
Proof.
  unfold run_pipeline. intros H.
  destruct (collect h y SAMPLE_RATE no_batches (accept_onsets raw))
    as [b |]; [|discriminate].
  destruct (process _ _ _ _ _ _ _) as [recs |]; [|discriminate].
  destruct (if fast then _ else _) as [art |]; [|discriminate].
  now injection H as <-.
Qed.

(** X22. The record of an audio job whose pipeline ran through on the full
    path: [rows] is the number of accepted onsets, and the CSV is
    [predictions_hybrid.csv] or [predictions_default.csv] in the job's
    output directory, by the mode. *)
Theorem audio_job_rows y raw h out w dir job_id jobs :
  run_pipeline y raw h false = Some out ->
  audio_run w = Returned (pipeline_returns path_join dir out) ->
  get_status (run_job_audio w job_id jobs) job_id
  = Ok [("status", JStr "done");
        ("csv_path",
         JStr (path_join dir (if h then "predictions_hybrid.csv"
                              else "predictions_default.csv")));
        ("video_path", JStr (path_join dir "video_labeled.mp4"));
        ("rows", JInt (len (accept_onsets raw)))].
Proof.
  intros Hrun Ha. unfold run_job_audio, get_status. rewrite Ha.
  unfold pipeline_returns. rewrite store_get_set.
  rewrite (run_pipeline_csv_name _ _ _ _ _ Hrun).
  apply run_pipeline_inv in Hrun.
  destruct Hrun as (_ & _ & _ & _ & Hlen & _).
  unfold len. now rewrite Hlen.
Qed.
End AudioRows.
End Server.

(** ** Further theorems at concrete inputs *)

Lemma classifier_clip_padded_witness :
  exists clip,
    classifier_clip silence 16000 (F64.of_Z 0) = Some clip
    /\ len clip <= 12800.
Proof.
  assert (exists c, classifier_clip silence 16000 (F64.of_Z 0) = Some c)
    as [clip H] by (eexists; vm_compute; reflexivity).
  exists clip. split; [exact H|].
  apply (classifier_clip_padded silence 16000 (F64.of_Z 0) clip H).
Defined.

Lemma rows_follow_onsets_witness :
  exists out,
    pitch_job = Some out
    /\ map (row_get "time_sec") (df out)
       = map (fun t => Some (VFloat t)) (accept_onsets [F64.of_Z 0]).
Proof.
  run_job pitch_job out Hrun.
  eexists. split; [exact Hrun|].
  apply (@rows_follow_onsets pitch_services silence [F64.of_Z 0] true true
           _ Hrun).
Defined.

Lemma top1_prob_is_prob_of_top1_witness :
  exists out l r,
    pitch_job = Some out /\ nth_error (trace out) 0 = Some l
    /\ nth_error (df out) 0 = Some r
    /\ 1 <= top1 l <= 16
    /\ row_get (prob_key (top1 l)) r = Some (VFloat (top1_prob l)).
Proof.
  run_job pitch_job out Hrun.
  do 3 eexists. split; [exact Hrun|].
  split; [reflexivity|]. split; [reflexivity|].
  destruct (@top1_prob_is_prob_of_top1 pitch_services silence [F64.of_Z 0]
              true true _ 0%nat _ _ Hrun eq_refl eq_refl)
    as (H1 & _ & _ & H2).
  split; assumption.
Defined.

Lemma default_top1_is_active_witness :
  exists l,
    @decide pitch_services false (thresholds false) [] 16000 0
      (probs_with_12 (F32.lit 1 100) (F32.lit 40 100)) = Some l
    /\ Forall number32 (probs_with_12 (F32.lit 1 100) (F32.lit 40 100))
    /\ In (top1 l) (active l).
Proof.
  assert (exists l,
            @decide pitch_services false (thresholds false) [] 16000 0
              (probs_with_12 (F32.lit 1 100) (F32.lit 40 100)) = Some l)
    as [l Hl] by (eexists; vm_compute; reflexivity).
  assert (Forall number32 (probs_with_12 (F32.lit 1 100) (F32.lit 40 100)))
    as Hok by (repeat constructor).
  exists l. split; [exact Hl|]. split; [exact Hok|].
  apply (proj2 (@default_top1_is_active pitch_services false [] 16000 0%nat
                  _ l Hl Hok) eq_refl).
  pose proof Hl as E. vm_compute in E. injection E as <-. discriminate.
Defined.

Lemma empty_rows_are_tagged_none_witness :
  exists out l r,
    pitch_job = Some out /\ nth_error (trace out) 0 = Some l
    /\ nth_error (df out) 0 = Some r
    /\ List.length (active l) = 1%nat.
Proof.
  run_job pitch_job out Hrun.
  do 3 eexists. split; [exact Hrun|].
  split; [reflexivity|]. split; [reflexivity|].
  destruct (@empty_rows_are_tagged_none pitch_services silence [F64.of_Z 0]
              true _ 0%nat _ _ Hrun eq_refl eq_refl) as (_ & H & _).
  apply H. reflexivity.
Defined.

Lemma csv_rows_are_complete_witness :
  exists out,
    pitch_job = Some out
    /\ Forall (fun cells =>
                 List.length cells = List.length (csv_header (csv out))
                 /\ Forall (fun c => c <> None) cells)
         (csv_data (csv out)).
Proof.
  run_job pitch_job out Hrun.
  eexists. split; [exact Hrun|].
  apply (@csv_rows_are_complete pitch_services silence [F64.of_Z 0] true true
           _ Hrun).
Defined.

Lemma json_lists_every_active_string_witness :
  exists out all_probs,
    pitch_job = Some out
    /\ @classify pitch_services silence (accept_onsets [F64.of_Z 0])
       = Some all_probs
    /\ second out
       = Json (record_entries (trace out) (accept_onsets [F64.of_Z 0])
                 all_probs).
Proof.
  run_job pitch_job out Hrun.
  destruct (@json_lists_every_active_string pitch_services silence
              [F64.of_Z 0] true _ Hrun) as (all_probs & H1 & H2).
  do 2 eexists. split; [exact Hrun|]. split; [exact H1 | exact H2].
Defined.

Lemma subtitle_text_witness :
  exists out b l,
    first_onset_job = Some out /\ second out = Srt [b]
    /\ nth_error (trace out) 0 = Some l
    /\ b_text b
       = upper (used l) ++ " " ++ arrow ++ " " ++ shown_strings (active l).
Proof.
  run_job first_onset_job out Hrun.
  do 3 eexists. split; [exact Hrun|].
  split; [reflexivity|]. split; [reflexivity|].
  destruct (@subtitle_text pitch_services silence [F64.of_Z 0] true _ _
              0%nat _ _ Hrun eq_refl eq_refl eq_refl) as (t & _ & H & _).
  exact H.
Defined.

Lemma both_job_audio_part_witness :
  audio_run sample_world
  = Returned ("outputs/j1/predictions_hybrid.csv",
              "outputs/j1/video_labeled.mp4", [])
  /\ exists record,
       get_status (run_job_both sample_dir sample_join sample_world "j1" [])
         "j1" = Ok record
       /\ dict_get "status" record = JStr "done".
Proof.
  split; [reflexivity|].
  destruct (both_job_audio_part (fun _ => true) (fun _ => Raise OtherError)
              sample_dir sample_join sample_world "j1" [] _ _ _ eq_refl)
    as (record & H1 & H2 & _).
  exists record. split; assumption.
Defined.

Lemma both_job_hand_part_witness :
  audio_run sample_world
  = Returned ("outputs/j1/predictions_hybrid.csv",
              "outputs/j1/video_labeled.mp4", [])
  /\ exists record,
       get_status (run_job_both sample_dir sample_join sample_world "j1" [])
         "j1" = Ok record
       /\ dict_get "hand" record
          = JDict [("csv_path", JStr "outputs/j1/hand.csv");
                   ("video_path", JStr "outputs/j1/hand.mp4");
                   ("rows", JInt 2)].
Proof.
  split; [reflexivity|].
  destruct (both_job_hand_part (fun _ => true) (fun _ => Raise OtherError)
              sample_dir sample_join sample_world "j1" [] _ _ _ eq_refl)
    as (record & H1 & H2).
  exists record. split; [exact H1|].
  change (hand_outcome no_detector sample_world)
    with (@Returned (string * string * Z)
            ("outputs/j1/hand.csv", "outputs/j1/hand.mp4", 2)) in H2.
  apply H2.
Defined.

Lemma combined_video_or_error_witness :
  audio_run sample_world
  = Returned ("outputs/j1/predictions_hybrid.csv",
              "outputs/j1/video_labeled.mp4", [])
  /\ hand_outcome no_detector sample_world
     = Returned ("outputs/j1/hand.csv", "outputs/j1/hand.mp4", 2)
  /\ exists record,
       get_status (run_job_both sample_dir sample_join sample_world "j1" [])
         "j1" = Ok record
       /\ dict_get "combined" record
          = JDict [("video_path", JStr "outputs/j1/video_combined.mp4")].
Proof.
  split; [reflexivity|]. split; [reflexivity|].
  destruct (combined_video_or_error (fun _ => true)
              (fun _ => Raise OtherError) sample_dir sample_join sample_world
              "j1" [] _ _ _ _ _ _ eq_refl eq_refl) as (record & H1 & H2).
  exists record. split; [exact H1|].
  change (combined_made sample_join sample_world (sample_dir "j1")
            "outputs/j1/hand.mp4") with true in H2.
  apply H2.
Defined.

Lemma type_naming_text_field_raises_witness :
  audio_run sample_world
  = Returned ("outputs/j1/predictions_hybrid.csv",
              "outputs/j1/video_labeled.mp4", [])
  /\ download_csv (fun _ => true) (fun _ => Raise OtherError)
       (run_job_both sample_dir sample_join sample_world "j1" []) "j1"
       (Some "status")
     = Raise AttributeError.
Proof.
  split; [reflexivity|].
  apply (type_naming_text_field_raises (fun _ => true)
           (fun _ => Raise OtherError) sample_dir sample_join sample_world
           "j1" [] _ _ _ eq_refl).
Defined.

Lemma runners_touch_one_job_witness :
  "j2" <> "j1"
  /\ store_get "j2"
       (run_job_audio sample_world "j1" [("j2", [("status", JStr "queued")])])
     = store_get "j2" [("j2", [("status", JStr "queued")])].
Proof.
  assert ("j2" <> "j1") as Hne by discriminate.
  split; [exact Hne|].
  apply (runners_touch_one_job sample_dir sample_join sample_world "j1"
           [("j2", [("status", JStr "queued")])] "j2" Hne).
Defined.

Lemma audio_job_rows_witness :
  exists out,
    first_onset_job = Some out
    /\ get_status (run_job_audio (audio_world out) "j1" []) "j1"
       = Ok [("status", JStr "done");
             ("csv_path", JStr (sample_join "outputs/j1" "predictions_hybrid.csv"));
             ("video_path", JStr (sample_join "outputs/j1" "video_labeled.mp4"));
             ("rows", JInt (len (accept_onsets [F64.of_Z 0])))].
Proof.
  assert (exists o, first_onset_job = Some o) as [out Hrun]
    by (eexists; vm_compute; reflexivity).
  exists out. split; [exact Hrun|].
  apply (@audio_job_rows sample_join pitch_services silence [F64.of_Z 0] true
           out (audio_world out) "outputs/j1" "j1" [] Hrun eq_refl).
Defined.
